(** * LUHack bot and website: device cache, invite issuer, todos, writeups

    A shallow embedding of the parts of [luhack_bot/cogs/infra.py],
    [luhack_bot/cogs/todos.py], [luhack_site/writeups.py] and
    [luhack_site/authorization.py] that the specification talks about or
    that these call, followed by the theorems that settle each claim of
    the specification against that embedding and by further properties
    of the same code.

    Conventions
    - Python [str] is [string]; [Optional[T]] is [option T]; a Python list
      is a [list].
    - Monotonic time, retry delays and fuzzy scores are rationals ([Q]);
      wall-clock datetimes are integers ([Z], microseconds).
    - An exception is a value of [exn]; a coroutine that can raise returns
      [result].
    - Handlers are modelled one at a time, each running to its end:
      what overlapping coroutines do inside [async_cached], which is not
      among the sources, is left out.
    - A message sent to Discord is an event of [out]; in the describe
      commands, which still have a cache to clear after their reply,
      what Discord answers to the reply is an argument.
    - The checks of the command decorators ([is_admin_int],
      [is_authed_int]) run before a handler's body; the handlers of the
      site carry the outcome of [requires], or the scopes it looks at, as
      an argument.

    The first part is the model, the second part the properties. *)

From Stdlib Require Import String Ascii List Bool Arith ZArith QArith Lia Lqa.
From Stdlib Require Import DecimalString.
From Stdlib Require Import Permutation.
Import ListNotations.

Set Implicit Arguments.
Set Warnings "-register-all".

Local Open Scope string_scope.
Local Open Scope list_scope.

(* ------------------------------------------------------------------ *)
(** ** Exceptions and results *)

Inductive exn : Type :=
| TransportError (what : string)      (* httpx.TransportError, timeouts *)
| HTTPStatusError (status : Z)        (* Response.raise_for_status() *)
| KeyError (key : string)             (* missing header / JSON member *)
| IndexError                          (* [xs[0]] on an empty list *)
| BadArgument (msg : string)          (* commands.BadArgument *)
| HTTPException (status : Z)          (* discord.HTTPException *)
| AttributeError (name : string).     (* attribute [name] is not defined *)

Inductive result (A : Type) : Type :=
| Ok (a : A)
| Raise (e : exn).
Arguments Ok {A} a.
Arguments Raise {A} e.

(* ------------------------------------------------------------------ *)
(** ** pygtrie.CharTrie

    The description lookup builds a [pygtrie.CharTrie] from a dict and
    asks it for [longest_prefix].  A node carries an optional value (the
    library's [_EMPTY] sentinel is [None] here) and a dict of children
    indexed by one character. *)

Module Trie.
Section WithValue.
Variable V : Type.

Inductive CharTrie : Type :=
  | Node (value : option V) (children : list (ascii * CharTrie)).

Definition value (t : CharTrie) : option V :=
  match t with Node v _ => v end.
Definition children (t : CharTrie) : list (ascii * CharTrie) :=
  match t with Node _ ch => ch end.

Definition empty : CharTrie := Node None [].

(** [node.children.get(c)] *)
Fixpoint get_child (c : ascii) (ch : list (ascii * CharTrie)) : option CharTrie :=
  match ch with
  | [] => None
  | (c', n) :: rest => if Ascii.eqb c c' then Some n else get_child c rest
  end.

(** [node.children[c] = n] *)
Fixpoint put_child (c : ascii) (n : CharTrie) (ch : list (ascii * CharTrie))
  : list (ascii * CharTrie) :=
  match ch with
  | [] => [(c, n)]
  | (c', n') :: rest =>
      if Ascii.eqb c c' then (c, n) :: rest else (c', n') :: put_child c n rest
  end.

(** [trie[key] = v]: walk the path, creating nodes on the way. *)
Fixpoint set (key : string) (v : V) (t : CharTrie) {struct key} : CharTrie :=
  match key with
  | EmptyString => Node (Some v) (children t)
  | String c rest =>
      let sub := match get_child c (children t) with
                 | Some n => n
                 | None => empty
                 end in
      Node (value t) (put_child c (set rest v sub) (children t))
  end.

(** [CharTrie(d)]: [update] sets the items of the dict in order. *)
Definition of_items (items : list (string * V)) : CharTrie :=
  fold_left (fun t kv => set (fst kv) (snd kv) t) items empty.

(** The value stored at exactly [key], if that node exists and is set. *)
Fixpoint get (key : string) (t : CharTrie) {struct key} : option V :=
  match key with
  | EmptyString => value t
  | String c rest =>
      match get_child c (children t) with
      | Some n => get rest n
      | None => None
      end
  end.

(** [trie.prefixes(key)]: one step (path so far, value) for every node
    with a value on the walk from the root along [key]; the walk stops
    at the end of the key or at a missing child. *)
Fixpoint prefixes_from (sofar : string) (key : string) (t : CharTrie)
         {struct key} : list (string * V) :=
  (match value t with Some v => [(sofar, v)] | None => [] end) ++
  match key with
  | EmptyString => []
  | String c rest =>
      match get_child c (children t) with
      | Some n => prefixes_from (sofar ++ String c EmptyString)%string rest n
      | None => []
      end
  end.

Definition prefixes (t : CharTrie) (key : string) : list (string * V) :=
  prefixes_from EmptyString key t.

(** [trie.longest_prefix(key)]: the last step that [prefixes] yields;
    [None] stands for the library's falsy none-step. *)
Definition longest_prefix (t : CharTrie) (key : string) : option (string * V) :=
  fold_left (fun _ step => Some step) (prefixes t key) None.

(** The value that a dict built from [items] holds for [k]: the last
    binding of [k] among the items. *)
Fixpoint last_binding (k : string) (items : list (string * V)) : option V :=
  match items with
  | [] => None
  | (k', v) :: rest =>
      match last_binding k rest with
      | Some x => Some x
      | None => if String.eqb k k' then Some v else None
      end
  end.

End WithValue.
End Trie.

Arguments Trie.Node {V} value children.
Arguments Trie.empty {V}.

(* ------------------------------------------------------------------ *)
(** ** Small list programs shared by the modules *)

Section ListPrograms.
Variable A : Type.

(** [sorted(xs, key=..., reverse=True)] as a stable insertion sort:
    [before y x] says that [y] has to stay in front of a later [x]. *)
Variable before : A -> A -> bool.

Fixpoint insert_by (x : A) (s : list A) : list A :=
  match s with
  | [] => [x]
  | y :: s' => if before y x then y :: insert_by x s' else x :: s
  end.

Fixpoint sort_by (l : list A) : list A :=
  match l with
  | [] => []
  | x :: l' => insert_by x (sort_by l')
  end.
End ListPrograms.

(** [enumerate(xs)] from a start index *)
Fixpoint enumerate_from {A} (i : nat) (xs : list A) : list (nat * A) :=
  match xs with
  | [] => []
  | x :: xs' => (i, x) :: enumerate_from (S i) xs'
  end.

(** [x in xs] for strings *)
Definition str_in (x : string) (xs : list string) : bool :=
  existsb (String.eqb x) xs.

(** [x < y] on rationals *)
Definition Qltb (x y : Q) : bool := negb (Qle_bool y x).

(** Best first: [y] stays in front of a later [x] when it scores more. *)
Definition best_first {A} (key : A -> Q) (y x : A) : bool := Qltb (key x) (key y).

(** The score reaches the cutoff. *)
Definition reaches {A} (key : A -> Q) (c : Q) (r : A) : bool := Qle_bool c (key r).

(** No element scores more than one in front of it. *)
Fixpoint descending {A} (key : A -> Q) (l : list A) : Prop :=
  match l with
  | [] => True
  | x :: l' => (forall y, In y l' -> (key y <= key x)%Q) /\ descending key l'
  end.

(* ------------------------------------------------------------------ *)
(** ** cachetools.TTLCache

    Entries are kept in least-recently-used order (head = oldest use);
    every entry carries the time at which it expires.  An entry is live
    while [now < expires]. *)

Module TTLCache.
Section WithKeys.
Variables K V : Type.
Variable key_eqb : K -> K -> bool.

Record t : Type := mk {
  maxsize : nat;
  ttl : Q;
  links : list (K * (V * Q))
}.

Definition create (maxsize : nat) (ttl : Q) : t := mk maxsize ttl [].

Definition live (now : Q) (e : K * (V * Q)) : bool := Qltb now (snd (snd e)).

Definition find (k : K) (c : t) : option (V * Q) :=
  match List.find (fun e => key_eqb k (fst e)) (links c) with
  | Some e => Some (snd e)
  | None => None
  end.

Definition remove (k : K) (l : list (K * (V * Q))) : list (K * (V * Q)) :=
  filter (fun e => negb (key_eqb k (fst e))) l.

(** [cache[k]]: [None] is the [KeyError] of a missing or expired key; a
    hit moves the key to the most-recently-used end. *)
Definition getitem (now : Q) (k : K) (c : t) : option V * t :=
  match find k c with
  | Some (v, expires) =>
      if Qltb now expires
      then (Some v, mk (maxsize c) (ttl c) (remove k (links c) ++ [(k, (v, expires))]))
      else (None, c)
  | None => (None, c)
  end.

(** [cache.expire(now)] *)
Definition expire (now : Q) (c : t) : t :=
  mk (maxsize c) (ttl c) (filter (live now) (links c)).

(** [cache[k] = v]: expired entries go first; a new key evicts from the
    least-recently-used end while the cache is full; a value that cannot
    fit at all ([maxsize = 0]) is the [ValueError] that leaves the cache
    as it is. *)
Definition setitem (now : Q) (k : K) (v : V) (c : t) : t :=
  let c1 := expire now c in
  if (maxsize c =? 0)%nat then c1
  else
    let kept :=
      match find k c1 with
      | Some _ => remove k (links c1)
      | None => skipn (S (length (links c1)) - maxsize c) (links c1)
      end in
    mk (maxsize c) (ttl c) (kept ++ [(k, (v, now + ttl c))]).

(** [cache.clear()] *)
Definition clear (c : t) : t := mk (maxsize c) (ttl c) [].

End WithKeys.
End TTLCache.

Arguments TTLCache.create {K V} maxsize ttl.

(* ------------------------------------------------------------------ *)
(** ** httpx replies *)

Inductive http_reply (B : Type) : Type :=
| NoReply (what : string)                                   (* transport error or timeout *)
| Reply (status : Z) (headers : list (string * string)) (body : B).
Arguments NoReply {B} what.
Arguments Reply {B} status headers body.

(** [Response.raise_for_status()]: anything but a 2xx status raises. *)
Definition raise_for_status (status : Z) : result unit :=
  if ((200 <=? status) && (status <? 300))%Z then Ok tt
  else Raise (HTTPStatusError status).

(** [headers[key]] *)
Fixpoint header (key : string) (hs : list (string * string)) : result string :=
  match hs with
  | [] => Raise (KeyError key)
  | (k, v) :: rest => if String.eqb key k then Ok v else header key rest
  end.

(* ------------------------------------------------------------------ *)
(** ** The invite issuer ([retry_policy], [generate_invite]) *)

Module Invite.

(** [aioretry.RetryInfo]: the number of failures so far and the last
    exception. *)
Record RetryInfo : Type := { fails : Z; exception : exn }.

Definition retry_policy (info : RetryInfo) : bool * Q :=
  if (3 <? fails info)%Z then (true, 0%Q)
  else (false, (inject_Z (fails info) * (1 # 10))%Q).

(** What the upstream answers to the two requests of the [n]-th run of
    the body ([n] counts from 1).  The body of the POST reply is what
    [invite.json()["data"]["code"]] evaluates to, [None] when that
    member is missing. *)
Record Upstream : Type := {
  self_reply : nat -> http_reply unit;
  invite_reply : nat -> http_reply (option string)
}.

Inductive event : Type :=
  | GetSelf                                   (* client.get("/self") *)
  | PostInvite (csrf node : string)           (* client.post("/invite/new", ...) *)
  | Sleep (delay : Q).                        (* asyncio.sleep(delay) *)

(** One run of the body of [generate_invite]; header names are kept in
    lower case, as httpx compares them; the debug log line is left out. *)
Definition generate_invite_body (up : Upstream) (n : nat) (node : string)
  : result string * list event :=
  match self_reply up n with
  | NoReply what => (Raise (TransportError what), [GetSelf])
  | Reply status hs _ =>
      match raise_for_status status with
      | Raise e => (Raise e, [GetSelf])
      | Ok _ =>
          match header "x-csrf-token" hs with
          | Raise e => (Raise e, [GetSelf])
          | Ok csrf =>
              match invite_reply up n with
              | NoReply what =>
                  (Raise (TransportError what), [GetSelf; PostInvite csrf node])
              | Reply status' _ body =>
                  match raise_for_status status' with
                  | Raise e => (Raise e, [GetSelf; PostInvite csrf node])
                  | Ok _ =>
                      match body with
                      | Some code => (Ok code, [GetSelf; PostInvite csrf node])
                      | None => (Raise (KeyError "code"), [GetSelf; PostInvite csrf node])
                      end
                  end
              end
          end
      end
  end.

Inductive outcome (A : Type) : Type :=
  | Returned (a : A)
  | Raised (e : exn)
  | Running.                                   (* the loop has not finished yet *)
Arguments Returned {A} a.
Arguments Raised {A} e.
Arguments Running {A}.

(** [aioretry]'s loop around a coroutine function: run it; on an
    exception bump the failure count, ask the policy, re-raise when it
    says abandon, otherwise sleep for a positive delay and go round
    again.  [fuel] bounds the number of rounds of the [while True];
    [n] is the number of runs made so far. *)
Fixpoint perform (fuel : nat) (policy : RetryInfo -> bool * Q)
         (fn : nat -> result string * list event)
         (n : nat) (info : option RetryInfo)
  : outcome string * list event :=
  match fuel with
  | O => (Running, [])
  | S fuel' =>
      match fn (S n) with
      | (Ok a, evs) => (Returned a, evs)
      | (Raise e, evs) =>
          let info' := match info with
                       | None => {| fails := 1; exception := e |}
                       | Some i => {| fails := fails i + 1; exception := e |}
                       end in
          let '(abandon, delay) := policy info' in
          if abandon then (Raised e, evs)
          else
            let slept := if Qltb 0 delay then [Sleep delay] else [] in
            let '(r, evs') := perform fuel' policy fn (S n) (Some info') in
            (r, evs ++ slept ++ evs')
      end
  end.

(** [@aioretry.retry(retry_policy) async def generate_invite(node)] *)
Definition generate_invite (fuel : nat) (up : Upstream) (node : string)
  : outcome string * list event :=
  perform fuel retry_policy (fun n => generate_invite_body up n node) 0 None.

(** The number of runs of the body that a trace shows: every run starts
    with the GET of [/self]. *)
Definition attempts (evs : list event) : nat :=
  length (filter (fun e => match e with GetSelf => true | _ => false end) evs).

Definition delays (evs : list event) : list Q :=
  flat_map (fun e => match e with Sleep d => [d] | _ => [] end) evs.

(** A request fails when no reply comes back or the status is not 2xx. *)
Definition request_fails {B} (r : http_reply B) : Prop :=
  match r with
  | NoReply _ => True
  | Reply status _ _ => ~ (200 <= status < 300)%Z
  end.

(** The upstream fails the [n]-th run when one of its two requests fails. *)
Definition upstream_fails (up : Upstream) (n : nat) : Prop :=
  request_fails (self_reply up n) \/ request_fails (invite_reply up n).

End Invite.

(* ------------------------------------------------------------------ *)
(** ** The device cache and the bot commands of [infra.py] *)

Module Infra.

Record Device : Type := {
  addresses : list string;
  tags : list string;
  connected : bool;
  id : string;
  name : string;
  fqdn : string;
  hostname : string
}.

(** A row of the [machines] table (migration [ac2a0e49a58e]): [hostname]
    carries the unique constraint.  The attribute read back in Python
    may be [None], which [attach_desc] tests for. *)
Record Machine : Type := {
  m_id : Z;
  m_hostname : string;
  m_description : option string
}.

Record MachineDisplay : Type := {
  discord_message_id : Z;
  machine_hostname : string
}.

Inductive event : Type :=
  | LogWarn (msg : string)
  | LogInfo (msg : string)
  | BotLog (msg : string)                         (* bot.log_message *)
  | Defer
  | SendMessage (msg : string)                    (* interaction.response.send_message *)
  | FollowupSend (msg : string) (url : option string).

Definition device_cache := TTLCache.t unit (list Device).
Definition description_cache := TTLCache.t (option string) (list (string * Device)).

Record World : Type := {
  clock : Q;                                            (* time.monotonic() *)
  latency : Q;                                          (* duration of the next upstream call *)
  api_machines : http_reply (option (list Device));     (* answer to GET /machines *)
  fetches : nat;                                        (* GET /machines issued so far *)
  devices_cache : device_cache;
  descriptions_cache : description_cache;
  machines : list Machine;
  machines_seq : Z;
  displays : list MachineDisplay;
  out : list event
}.

Definition with_clock (x : Q) (w : World) : World :=
  {| clock := x; latency := latency w; api_machines := api_machines w;
     fetches := fetches w; devices_cache := devices_cache w;
     descriptions_cache := descriptions_cache w; machines := machines w;
     machines_seq := machines_seq w; displays := displays w; out := out w |}.
Definition with_fetches (x : nat) (w : World) : World :=
  {| clock := clock w; latency := latency w; api_machines := api_machines w;
     fetches := x; devices_cache := devices_cache w;
     descriptions_cache := descriptions_cache w; machines := machines w;
     machines_seq := machines_seq w; displays := displays w; out := out w |}.
Definition with_devices_cache (x : device_cache) (w : World) : World :=
  {| clock := clock w; latency := latency w; api_machines := api_machines w;
     fetches := fetches w; devices_cache := x;
     descriptions_cache := descriptions_cache w; machines := machines w;
     machines_seq := machines_seq w; displays := displays w; out := out w |}.
Definition with_descriptions_cache (x : description_cache) (w : World) : World :=
  {| clock := clock w; latency := latency w; api_machines := api_machines w;
     fetches := fetches w; devices_cache := devices_cache w;
     descriptions_cache := x; machines := machines w;
     machines_seq := machines_seq w; displays := displays w; out := out w |}.
Definition with_machines (x : list Machine) (seq : Z) (w : World) : World :=
  {| clock := clock w; latency := latency w; api_machines := api_machines w;
     fetches := fetches w; devices_cache := devices_cache w;
     descriptions_cache := descriptions_cache w; machines := x;
     machines_seq := seq; displays := displays w; out := out w |}.
Definition with_out (x : list event) (w : World) : World :=
  {| clock := clock w; latency := latency w; api_machines := api_machines w;
     fetches := fetches w; devices_cache := devices_cache w;
     descriptions_cache := descriptions_cache w; machines := machines w;
     machines_seq := machines_seq w; displays := displays w; out := x |}.

(** Coroutines of the bot: state passing with exceptions; the state
    survives a raise. *)
Definition M (A : Type) : Type := World -> result A * World.

Definition ret {A} (a : A) : M A := fun w => (Ok a, w).
Definition raise {A} (e : exn) : M A := fun w => (Raise e, w).
Definition bind {A B} (m : M A) (f : A -> M B) : M B :=
  fun w => match m w with
           | (Ok a, w') => f a w'
           | (Raise e, w') => (Raise e, w')
           end.
Definition emit (e : event) : M unit :=
  fun w => (Ok tt, with_out (out w ++ [e]) w).

Declare Scope infra_scope.
Delimit Scope infra_scope with infra.
Notation "x <- m ;; k" := (bind m (fun x => k))
  (at level 61, m at next level, right associativity) : infra_scope.
Notation "m ;;; k" := (bind m (fun _ => k))
  (at level 61, right associativity) : infra_scope.
Local Open Scope infra_scope.

(** The rest of [devices()] once the reply to GET /machines is in. *)
Definition parse_machines (reply : http_reply (option (list Device)))
  : result (list Device) :=
  match reply with
  | NoReply what => Raise (TransportError what)
  | Reply status _ body =>
      match raise_for_status status with
      | Raise e => Raise e
      | Ok _ =>
          match body with
          | Some ds => Ok ds
          | None => Raise (KeyError "machines")
          end
      end
  end.

(** [devices()]: one GET /machines, which takes [latency] seconds. *)
Definition devices : M (list Device) :=
  fun w =>
    let w1 := with_clock (clock w + latency w)%Q (with_fetches (S (fetches w)) w) in
    (parse_machines (api_machines w), w1).

(** The body of [target_devices]. *)
Definition is_target (dev : Device) : bool :=
  str_in "tag:target" (tags dev) && connected dev.

Definition target_devices_body : M (list Device) :=
  devs <- devices ;;
  ret (filter is_target devs).

Definition unit_eqb (_ _ : unit) : bool := true.
Definition query_eqb (a b : option string) : bool :=
  match a, b with
  | None, None => true
  | Some x, Some y => String.eqb x y
  | _, _ => false
  end.

(** Modelled from the spec: the decorator [async_cached] of
    [luhack_bot/utils/async_cache.py] is not among the sources.  A cache
    entry is a value with an expiry keyed by the arguments of the call;
    a live entry is returned as it is, a missing or expired one is
    recomputed by the caller and stored, and no lock is held while the
    wrapped coroutine runs.  The spec does not say what a raise of the
    wrapped coroutine does to the cache; here it goes to the caller and
    nothing is stored. *)
Definition async_cached {K V : Type} (key_eqb : K -> K -> bool)
           (cache : World -> TTLCache.t K V)
           (with_cache : TTLCache.t K V -> World -> World)
           (k : K) (func : M V) : M V :=
  fun w =>
    match TTLCache.getitem key_eqb (clock w) k (cache w) with
    | (Some v, c) => (Ok v, with_cache c w)
    | (None, _) =>
        match func w with
        | (Ok v, w') =>
            (Ok v, with_cache (TTLCache.setitem key_eqb (clock w') k v (cache w')) w')
        | (Raise e, w') => (Raise e, w')
        end
    end.

(** [@async_cached(cache=cachetools.TTLCache(maxsize=1024, ttl=60))] *)
Definition target_devices : M (list Device) :=
  async_cached unit_eqb devices_cache with_devices_cache tt target_devices_body.

Definition get_device (n : string) : M (option Device) :=
  devs <- target_devices ;;
  ret (find (fun dev => String.eqb (name dev) n) devs).

Definition get_devices_with_hostname (h : string) : M (list Device) :=
  devs <- target_devices ;;
  ret (filter (fun dev => String.eqb (hostname dev) h) devs).

Definition attach_desc (t : Trie.CharTrie (option string)) (n : string) : string :=
  match Trie.longest_prefix t n with
  | Some (_, Some d) => d
  | _ => ""
  end.

(** [d[k] = v] on a dict kept as its list of items, in insertion order. *)
Fixpoint dict_set {V} (k : string) (v : V) (d : list (string * V)) : list (string * V) :=
  match d with
  | [] => [(k, v)]
  | (k', v') :: rest =>
      if String.eqb k k' then (k, v) :: rest else (k', v') :: dict_set k v rest
  end.

(** [{m.hostname: m.description for m in machines}] *)
Definition description_dict (ms : list Machine) : list (string * option string) :=
  fold_left (fun d m => dict_set (m_hostname m) (m_description m) d) ms [].

(** The description stored for the hostname [k]: that of the last row
    with this hostname (the only one under the table's unique
    constraint); [None] when no row has it. *)
Definition stored (k : string) (ms : list Machine) : option (option string) :=
  Trie.last_binding k (map (fun m => (m_hostname m, m_description m)) ms).

(** [d] is the description of the longest stored hostname that is a
    prefix of the name [n]; it is the empty string when that description
    is null or when no stored hostname is a prefix of [n]. *)
Definition longest_description (ms : list Machine) (n : string) (d : string) : Prop :=
  (forall k v,
      stored k ms = Some v -> prefix k n = true ->
      (forall k', stored k' ms <> None -> prefix k' n = true ->
                  (String.length k' <= String.length k)%nat) ->
      d = match v with Some text => text | None => ""%string end) /\
  ((forall k, stored k ms <> None -> prefix k n = false) -> d = ""%string).

Definition all_machines : M (list Machine) := fun w => (Ok (machines w), w).

Section Search.
(** rapidfuzz's scorer (with its processor) is a function of the query
    and of one choice; the code uses the default one. *)
Variable scorer : string -> string -> Q.

(** The score of a result (choice, score, index) of [extract]. *)
Definition score_of (r : string * Q * nat) : Q := snd (fst r).

(** Every choice with its score against the query and its index. *)
Definition scored (q : string) (choices : list string) : list (string * Q * nat) :=
  map (fun ic => (snd ic, scorer q (snd ic), fst ic)) (enumerate_from 0 choices).

(** [rapidfuzz.process.extract(query, choices, limit=.., score_cutoff=..)]:
    the choices that score at least [score_cutoff], best first (ties in
    the order of the choices), cut to [limit] results, each as
    (choice, score, index). *)
Definition extract (query : string) (choices : list string)
           (limit : nat) (score_cutoff : Q) : list (string * Q * nat) :=
  firstn limit
    (sort_by (best_first score_of)
       (filter (reaches score_of score_cutoff) (scored query choices))).

(** The names that [target_devices_descriptions] keeps. *)
Definition matching_names (limit : nat) (score_cutoff : Q)
           (query : option string) (names : list string) : list string :=
  match query with
  | Some q => map (fun r => fst (fst r)) (extract q names limit score_cutoff)
  | None => names
  end.

(** What [target_devices_descriptions] computes from the rows of the
    machine table and the target devices. *)
Definition describe_matching (limit : nat) (score_cutoff : Q)
           (ms : list Machine) (devs : list Device) (query : option string)
  : list (string * Device) :=
  let t := Trie.of_items (description_dict ms) in
  let names := map name devs in
  let matching := matching_names limit score_cutoff query names in
  map (fun dev => (attach_desc t (name dev), dev))
      (filter (fun dev => str_in (name dev) matching) devs).

Definition target_devices_descriptions_body (limit : nat) (score_cutoff : Q)
           (query : option string) : M (list (string * Device)) :=
  ms <- all_machines ;;
  devs <- target_devices ;;
  ret (describe_matching limit score_cutoff ms devs query).

(** [target_devices_descriptions] with the two constants of the call
    to [extract] as parameters. *)
Definition target_devices_descriptions_with (limit : nat) (score_cutoff : Q)
           (query : option string) : M (list (string * Device)) :=
  async_cached query_eqb descriptions_cache with_descriptions_cache query
               (target_devices_descriptions_body limit score_cutoff query).

(** [@async_cached(cache=cachetools.TTLCache(maxsize=1024, ttl=60))
    async def target_devices_descriptions(query=None)] *)
Definition target_devices_descriptions (query : option string)
  : M (list (string * Device)) :=
  target_devices_descriptions_with 25 (1 # 2) query.

(** [query = current if current else None] *)
Definition autocomplete_query (current : string) : option string :=
  if String.eqb current "" then None else Some current.

Definition machine_autocomplete (current : string) : M (list (string * string)) :=
  ms <- target_devices_descriptions (autocomplete_query current) ;;
  ret (map (fun dd =>
              let '(desc, dev) := dd in
              (if String.eqb desc "" then name dev
               else (desc ++ " (" ++ name dev ++ ")")%string, name dev)) ms).
(** Every cached search result was computed from the rows that the
    machine table holds now: the cache is emptied by every command that
    writes to the table. *)
Definition desc_cache_ok (w : World) : Prop :=
  forall k r e,
    In (k, (r, e)) (TTLCache.links (descriptions_cache w)) ->
    exists devs, r = describe_matching 25 (1 # 2) (machines w) devs k.

End Search.

(** *** The describe commands *)

Definition set_description (d : string) (m : Machine) : Machine :=
  {| m_id := m_id m; m_hostname := m_hostname m; m_description := Some d |}.

(** [INSERT INTO machines (hostname, description) VALUES (h, d)
    ON CONFLICT (hostname) DO UPDATE SET description = excluded.description] *)
Definition upsert_machine (h d : string) : M unit :=
  fun w =>
    let i := machines_seq w in
    let rows :=
      if existsb (fun m => String.eqb (m_hostname m) h) (machines w)
      then map (fun m => if String.eqb (m_hostname m) h then set_description d m else m)
               (machines w)
      else machines w ++ [{| m_id := i; m_hostname := h; m_description := Some d |}] in
    (Ok tt, with_machines rows (i + 1)%Z w).

Definition clear_descriptions : M unit :=
  fun w => (Ok tt, with_descriptions_cache (TTLCache.clear (descriptions_cache w)) w).

(** [await interaction.response.send_message(content)] in the describe
    commands, which clear the search cache only after it.  discord.py
    raises when Discord does not take the message or cannot be reached;
    [refuses content] is that exception, [None] when the message is
    sent. *)
Definition send_message (refuses : string -> option exn) (content : string) : M unit :=
  match refuses content with
  | Some e => raise e
  | None => emit (SendMessage content)
  end.

(** What Discord answers when nothing else goes wrong: a content of more
    than 2000 characters is refused with status 400, which discord.py
    raises as [HTTPException]. *)
Definition content_limit (content : string) : option exn :=
  if (2000 <? String.length content)%nat then Some (HTTPException 400) else None.

(** [Infra.describe_server]: the upsert, the awaited reply, and only then
    [target_devices_descriptions.clear()]. *)
Definition describe_server (refuses : string -> option exn) (h desc : string) : M unit :=
  upsert_machine h desc ;;;
  send_message refuses ("Set description of " ++ h ++ " to " ++ desc)%string ;;;
  clear_descriptions.

(** [Infra.undescribe_server]: the delete, the awaited reply, and only
    then [target_devices_descriptions.clear()]. *)
Definition undescribe_server (refuses : string -> option exn) (h : string) : M unit :=
  (fun w => (Ok tt, with_machines
                      (filter (fun m => negb (String.eqb (m_hostname m) h)) (machines w))
                      (machines_seq w) w)) ;;;
  send_message refuses ("Unset description of " ++ h)%string ;;;
  clear_descriptions.

Definition clear_cache : M unit :=
  (fun w => (Ok tt, with_devices_cache (TTLCache.clear (devices_cache w)) w)) ;;;
  emit (SendMessage "Cleared").

(** *** The join button *)

Section Join.
(** The invite issuer as the handler sees it: a code or an exception. *)
Variable generate_invite : string -> M string.

Definition borked : M unit :=
  emit (FollowupSend "This machine info card is borked, complain to ben" None).

Definition display_get (message_id : Z) : M (option MachineDisplay) :=
  fun w => (Ok (find (fun d => (discord_message_id d =? message_id)%Z) (displays w)), w).

(** [xs[0]] *)
Definition first {A} (xs : list A) : M A :=
  match xs with
  | [] => raise IndexError
  | x :: _ => ret x
  end.

(** [MachineInfoView.join]; [user] is [str(interaction.user)]. *)
Definition join (user : string) (message_id : Z) : M unit :=
  emit Defer ;;;
  display <- display_get message_id ;;
  match display with
  | None => borked
  | Some display =>
      ms <- get_devices_with_hostname (machine_hostname display) ;;
      if (length ms =? 0)%nat then borked
      else
        (if (1 <? length ms)%nat
         then emit (LogWarn ("Got more than one machine for " ++ machine_hostname display)%string)
         else ret tt) ;;;
        machine <- first ms ;;
        let msg := (user ++ " requested access to node " ++ name machine)%string in
        emit (LogInfo msg) ;;;
        emit (BotLog msg) ;;;
        ip <- first (addresses machine) ;;
        invite <- generate_invite (id machine) ;;
        emit (FollowupSend ("This lab is located on `" ++ ip ++ "`")%string
                (Some ("https://login.tailscale.com/admin/invite/" ++ invite)%string))
  end.
End Join.

(** *** The other commands of the cog *)

Definition with_displays (x : list MachineDisplay) (w : World) : World :=
  {| clock := clock w; latency := latency w; api_machines := api_machines w;
     fetches := fetches w; devices_cache := devices_cache w;
     descriptions_cache := descriptions_cache w; machines := machines w;
     machines_seq := machines_seq w; displays := x; out := out w |}.

(** Time that passes between two handlers. *)
Definition later (d : Q) (w : World) : World := with_clock (clock w + d)%Q w.

(** The upstream answers differently from now on. *)
Definition with_api (r : http_reply (option (list Device))) (w : World) : World :=
  {| clock := clock w; latency := latency w; api_machines := r;
     fetches := fetches w; devices_cache := devices_cache w;
     descriptions_cache := descriptions_cache w; machines := machines w;
     machines_seq := machines_seq w; displays := displays w; out := out w |}.

Section Commands.
Variable scorer : string -> string -> Q.
Variable generate_invite : string -> M string.
(** The card of [display_server]: [textwrap.dedent] of the f-string with
    the name and the address filled in. *)
Variable machine_card : string -> string -> string.

Definition hostname_autocomplete (current : string) : M (list (string * string)) :=
  ms <- target_devices_descriptions scorer (autocomplete_query current) ;;
  ret (map (fun dd => (hostname (snd dd), hostname (snd dd))) ms).

(** [Infra.join_server]; [user] is [str(interaction.user)]. *)
Definition join_server (user n : string) : M unit :=
  device <- get_device n ;;
  match device with
  | None => emit (SendMessage "I don't know that device")
  | Some device =>
      emit Defer ;;;
      let msg := (user ++ " requested access to node " ++ n)%string in
      emit (LogInfo msg) ;;;
      emit (BotLog msg) ;;;
      invite <- generate_invite (id device) ;;
      ip <- first (addresses device) ;;
      emit (FollowupSend ("This lab is located on `" ++ ip ++ "`")%string
              (Some ("https://login.tailscale.com/admin/invite/" ++ invite)%string))
  end.

(** [MachineDisplay.create(discord_message_id=.., machine_hostname=..)];
    the id is that of a message just sent, new among the rows. *)
Definition display_create (message_id : Z) (h : string) : M unit :=
  fun w => (Ok tt, with_displays
                     (displays w ++ [{| discord_message_id := message_id;
                                        machine_hostname := h |}]) w).

(** [Infra.display_server]; [message_id] is the id of the message that
    [interaction.original_response()] returns. *)
Definition display_server (n : string) (message_id : Z) : M unit :=
  device <- get_device n ;;
  match device with
  | None => emit (SendMessage "I don't know that device")
  | Some device =>
      ip <- first (addresses device) ;;
      emit (SendMessage (machine_card (name device) ip)) ;;;
      display_create message_id (hostname device)
  end.
End Commands.

End Infra.

(* ------------------------------------------------------------------ *)
(** ** The todo commands of [todos.py] *)

Module Todos.

(** Modelled from the spec: the table declaration of [Todo]
    ([luhack_bot/db/models.py]) is not among the sources.  The fields are
    the ones the commands read and write; [completed] is a nullable
    timestamp and [cancelled] a flag that is false on a new row. *)
Record Todo : Type := {
  id : Z;
  assigned : option Z;
  started : Z;
  completed : option Z;
  cancelled : bool;
  deadline : option Z;
  content : string
}.

Record Table : Type := { rows : list Todo; seq : Z }.

Definition empty : Table := {| rows := []; seq := 1 |}.

(** [Todo.get(todo_id)] *)
Definition get (i : Z) (tbl : Table) : option Todo :=
  find (fun t => (id t =? i)%Z) (rows tbl).

(** [str(i)] of an [int]: decimal digits, with a minus sign below zero. *)
Definition str_of_int (i : Z) : string := NilZero.string_of_int (Z.to_int i).

(** [TodoConverter.convert]; [i] is [int(arg)]. *)
Definition convert (i : Z) (tbl : Table) : result Todo :=
  match get i tbl with
  | Some t => Ok t
  | None => Raise (BadArgument ("Todo not found for id: " ++ str_of_int i))
  end.

(** [todo.update(...).apply()]: rewrite the row with the todo's id. *)
Definition update (t : Todo) (f : Todo -> Todo) (tbl : Table) : Table :=
  {| rows := map (fun r => if (id r =? id t)%Z then f r else r) (rows tbl);
     seq := seq tbl |}.

Definition set_completed (c : option Z) (k : bool) (t : Todo) : Todo :=
  {| id := id t; assigned := assigned t; started := started t;
     completed := c; cancelled := k; deadline := deadline t; content := content t |}.
Definition set_assigned (a : option Z) (t : Todo) : Todo :=
  {| id := id t; assigned := a; started := started t;
     completed := completed t; cancelled := cancelled t;
     deadline := deadline t; content := content t |}.
Definition set_content (s : string) (t : Todo) : Todo :=
  {| id := id t; assigned := assigned t; started := started t;
     completed := completed t; cancelled := cancelled t;
     deadline := deadline t; content := s |}.
Definition set_deadline (d : option Z) (t : Todo) : Todo :=
  {| id := id t; assigned := assigned t; started := started t;
     completed := completed t; cancelled := cancelled t;
     deadline := d; content := content t |}.

(** A command on an existing todo: convert the argument, then update. *)
Definition on_todo (i : Z) (f : Todo -> Todo) (tbl : Table) : result Todo * Table :=
  match convert i tbl with
  | Ok t => (Ok (f t), update t f tbl)
  | Raise e => (Raise e, tbl)
  end.

(** [now] is [datetime.utcnow()]. *)
Definition todo_mark_complete (i now : Z) : Table -> result Todo * Table :=
  on_todo i (fun t => set_completed (Some now) (cancelled t) t).

Definition todo_mark_cancelled (i now : Z) : Table -> result Todo * Table :=
  on_todo i (set_completed (Some now) true).

Definition todo_assign (i assignee : Z) : Table -> result Todo * Table :=
  on_todo i (set_assigned (Some assignee)).

Definition todo_unassign (i : Z) : Table -> result Todo * Table :=
  on_todo i (set_assigned None).

Definition todo_edit_content (i : Z) (s : string) : Table -> result Todo * Table :=
  on_todo i (set_content s).

Definition todo_edit_deadline (i d : Z) : Table -> result Todo * Table :=
  on_todo i (set_deadline (Some d)).

Definition todo_remove_deadline (i : Z) : Table -> result Todo * Table :=
  on_todo i (set_deadline None).

Definition todo_new (assignee : option Z) (dl : option Z) (s : string) (now : Z)
           (tbl : Table) : result Todo * Table :=
  let t := {| id := seq tbl; assigned := assignee; started := now;
              completed := None; cancelled := false; deadline := dl; content := s |} in
  (Ok t, {| rows := rows tbl ++ [t]; seq := (seq tbl + 1)%Z |}).

(** The status that [render_todo_to_text] and [render_todo_to_embed]
    print in front of a todo. *)
Inductive status : Type :=
  | InProgress (due : option Z)
  | Completed (at_ : Z)
  | Cancelled (at_ : Z).

Definition render_status (t : Todo) : status :=
  match completed t with
  | Some c => if cancelled t then Cancelled c else Completed c
  | None => InProgress (deadline t)
  end.

Definition is_null {A} (x : option A) : bool :=
  match x with None => true | Some _ => false end.

(** [todo_list_inner]: the optional assignee filter, newest id first. *)
Definition todo_list_inner (q : Todo -> bool) (assignee : option Z) (tbl : Table)
  : list Todo :=
  let q' := match assignee with
            | Some a => fun t => q t && match assigned t with
                                        | Some b => (b =? a)%Z
                                        | None => false
                                        end
            | None => q
            end in
  sort_by (fun y x => (id x <? id y)%Z) (filter q' (rows tbl)).

(** [Todo.completed == None] *)
Definition in_progress_p (t : Todo) : bool := is_null (completed t).
(** [Todo.completed != None] and [Todo.cancelled == False] *)
Definition completed_p (t : Todo) : bool :=
  negb (is_null (completed t)) && Bool.eqb (cancelled t) false.
(** [Todo.completed != None] and [Todo.cancelled == True] *)
Definition cancelled_p (t : Todo) : bool :=
  negb (is_null (completed t)) && Bool.eqb (cancelled t) true.

Definition todo_list := todo_list_inner in_progress_p.
Definition todo_list_completed := todo_list_inner completed_p.
Definition todo_list_cancelled := todo_list_inner cancelled_p.

(** The commands of the cog that write to the table. *)
Inductive command : Type :=
  | New (assignee : option Z) (dl : option Z) (s : string) (now : Z)
  | Complete (i now : Z)
  | Cancel (i now : Z)
  | Assign (i assignee : Z)
  | Unassign (i : Z)
  | EditContent (i : Z) (s : string)
  | EditDeadline (i d : Z)
  | ClearDeadline (i : Z).

Definition exec (tbl : Table) (c : command) : Table :=
  snd (match c with
       | New a d s now => todo_new a d s now tbl
       | Complete i now => todo_mark_complete i now tbl
       | Cancel i now => todo_mark_cancelled i now tbl
       | Assign i a => todo_assign i a tbl
       | Unassign i => todo_unassign i tbl
       | EditContent i s => todo_edit_content i s tbl
       | EditDeadline i d => todo_edit_deadline i d tbl
       | ClearDeadline i => todo_remove_deadline i tbl
       end).

Definition run (cs : list command) : Table := fold_left exec cs empty.

(** A cancelled todo carries its completion time. *)
Definition consistent (t : Todo) : Prop :=
  cancelled t = true -> completed t <> None.

(** [Todos.list_todos], the [todos] command:
    [ctx.invoke(self.todo_list, assignee=ctx.author)]. *)
Definition list_todos (author : Z) : Table -> list Todo := todo_list (Some author).

(** [Todo.assigned == assignee.id] *)
Definition assigned_to (a : Z) (t : Todo) : bool :=
  match assigned t with
  | Some b => (b =? a)%Z
  | None => false
  end.

(** The todo that a command names, if it names one. *)
Definition target (c : command) : option Z :=
  match c with
  | New _ _ _ _ => None
  | Complete i _ | Cancel i _ | Assign i _ | Unassign i
  | EditContent i _ | EditDeadline i _ | ClearDeadline i => Some i
  end.


(** [order_by(sa.desc(Todo.id))]: the row with the higher id stays in front. *)
Definition by_id_desc (y x : Todo) : bool := (id x <? id y)%Z.

(** Higher ids come first. *)
Fixpoint newest_first (l : list Todo) : Prop :=
  match l with
  | [] => True
  | x :: l' => (forall y, In y l' -> (id y < id x)%Z) /\ newest_first l'
  end.

(** Ids are handed out by the sequence: distinct and below its next value. *)
Definition well_numbered (tbl : Table) : Prop :=
  NoDup (map id (rows tbl)) /\ (1 <= seq tbl)%Z /\
  forall t, In t (rows tbl) -> (1 <= id t < seq tbl)%Z.

End Todos.

(* ------------------------------------------------------------------ *)
(** ** Who is asking ([authorization.py]) *)

Module Authorization.

(** [request.user]: a [User] made from a decoded token, or the
    [LUnauthenticatedUser] that [wrap_result_auth] puts in for [None]. *)
Inductive user : Type :=
  | User (username : string) (discord_id : Z) (is_admin : bool)
  | LUnauthenticatedUser.

Definition is_authenticated (u : user) : bool :=
  match u with User _ _ _ => true | LUnauthenticatedUser => false end.

Definition is_admin (u : user) : bool :=
  match u with User _ _ a => a | LUnauthenticatedUser => false end.

(** What [authenticate] reads of a request: [query_params.get("token")]
    and the token kept in the session, if any. *)
Record Request : Type := {
  query_token : option string;
  session_token : option string
}.

(** What it leaves: the scopes of [AuthCredentials], the user, and the
    token in the session afterwards. *)
Record Auth : Type := {
  scopes : list string;
  auth_user : user;
  session_after : option string
}.

Section Backend.
(** [decode_writeup_edit_token] of [luhack_bot.token_tools]: the
    username, the Discord id and the admin flag, or [None]. *)
Variable decode_writeup_edit_token : string -> option (string * Z * bool).

(** [TokenAuthBackend.authenticate] under [wrap_result_auth]. *)
Definition authenticate (req : Request) : Auth :=
  let anonymous := {| scopes := []; auth_user := LUnauthenticatedUser;
                      session_after := session_token req |} in
  let token := match query_token req with
               | Some t => Some t
               | None => session_token req
               end in
  match token with
  | None => anonymous
  | Some token =>
      match decode_writeup_edit_token token with
      | None => anonymous
      | Some (username, user_id, admin) =>
          {| scopes := "authenticated" :: (if admin then ["admin"] else []);
             auth_user := User username user_id admin;
             session_after := Some token |}
      end
  end.
End Backend.

(** [request.user.is_authed], as [writeups.py] reads it.  [User] adds
    [discord_id] and [is_admin] to [SimpleUser], [LUnauthenticatedUser]
    adds [is_admin] to [UnauthenticatedUser]; both inherit
    [is_authenticated], and neither has an attribute [is_authed]: the
    read raises [AttributeError]. *)
Definition is_authed (u : user) : result bool :=
  match u with
  | User _ _ _ => Raise (AttributeError "is_authed")
  | LUnauthenticatedUser => Raise (AttributeError "is_authed")
  end.

(** [can_edit(request, author_id=None)] *)
Definition can_edit (u : user) (author_id : option Z) : bool :=
  match u with
  | LUnauthenticatedUser => false
  | User _ discord_id admin =>
      match author_id with
      | None => admin
      | Some a => admin || (a =? discord_id)%Z
      end
  end.

End Authorization.

(* ------------------------------------------------------------------ *)
(** ** Creating a writeup ([NewWriteup.post] of [writeups.py]) *)

Module Writeups.

Record Writeup : Type := {
  id : Z;
  author_id : Z;
  title : string;
  slug : string;
  tags : list string;
  content : string;
  private : bool
}.

Record WriteupForm : Type := {
  f_title : string;
  f_tags : list string;
  f_content : string;
  f_private : bool
}.

Inductive log_entry : Type :=
  | LogCreate (kind title username url : string).

Record Store : Type := {
  writeups : list Writeup;
  seq : Z;
  content_log : list log_entry
}.

Inductive response : Type :=
  | Redirect (url : string)
  | Template (template : string) (form : WriteupForm) (title_errors : list string).

Section Post.
(** Collaborators that are not among the sources: the form's own
    validators, the row constructor [Writeup.create_auto] and the
    router's [url_for]. *)
Variable validate : WriteupForm -> bool.
Variable validation_errors : WriteupForm -> list string.
Variable create_auto : Z -> Z -> string -> list string -> string -> bool -> Writeup.
Variable url_for : string -> string -> string.

(** [NewWriteup.post]; [authed] is the outcome of
    [@requires("authenticated", redirect="need_auth")]. *)
Definition post (authed : bool) (user_id : Z) (username : string)
           (form : WriteupForm) (st : Store) : response * Store :=
  if negb authed then (Redirect (url_for "need_auth" ""), st)
  else
    let is_valid := validate form in
    let taken := existsb (fun w => String.eqb (title w) (f_title form)) (writeups st) in
    let is_valid := if taken then false else is_valid in
    let errors :=
      if taken
      then validation_errors form ++
           [("A writeup with the title '" ++ f_title form ++ "' already exists.")%string]
      else validation_errors form in
    if is_valid then
      let w := create_auto (seq st) user_id (f_title form) (f_tags form)
                           (f_content form) (f_private form) in
      let url := url_for "writeups_view" (slug w) in
      (Redirect url,
       {| writeups := writeups st ++ [w]; seq := (seq st + 1)%Z;
          content_log := content_log st ++ [LogCreate "writeup" (title w) username url] |})
    else (Template "writeups/new.j2" form errors, st).
End Post.

(** *** Reading, editing and deleting *)

Definition should_skip_writeup (w : Writeup) (is_authed : bool) : bool :=
  private w && negb is_authed.

Inductive page : Type :=
  | Abort (status : Z) (detail : string)
  | View (w : Writeup) (rendered : string).

Section Pages.
(** [shorten(plaintext_markdown(content), width=300, ...)] and
    [highlight_markdown]. *)
Variable summarize : string -> string.
Variable highlight_markdown : string -> string.

(** The list that [writeups_index], [writeups_by_tag] and
    [writeups_by_user] build from the rows their query returned:
    [[(w, shorten(...)) for w in rows if not should_skip_writeup(w,
    request.user.is_authed)]].  The condition is evaluated row by row,
    and reads the attribute each time. *)
Fixpoint rendered_list (u : Authorization.user) (found : list Writeup)
  : result (list (Writeup * string)) :=
  match found with
  | [] => Ok []
  | w :: rest =>
      match Authorization.is_authed u with
      | Raise e => Raise e
      | Ok b =>
          match rendered_list u rest with
          | Raise e => Raise e
          | Ok tail =>
              Ok (if should_skip_writeup w b then tail
                  else (w, summarize (content w)) :: tail)
          end
      end
  end.

(** [writeups_by_tag]: [Writeup.tags.contains([tag])] on the rows. *)
Definition writeups_by_tag (u : Authorization.user) (tag : string)
           (latest : list Writeup) : result (list (Writeup * string)) :=
  rendered_list u (filter (fun w => str_in tag (tags w)) latest).

(** [writeups_view] *)
Definition writeups_view (u : Authorization.user) (s : string) (st : Store)
  : result page :=
  match find (fun w => String.eqb (slug w) s) (writeups st) with
  | None => Ok (Abort 404 "Writeup not found")
  | Some w =>
      match Authorization.is_authed u with
      | Raise e => Raise e
      | Ok b =>
          if should_skip_writeup w b then Ok (Abort 404 "Writeup not found")
          else Ok (View w (highlight_markdown (content w)))
      end
  end.
End Pages.

(** The lines that [log_edit] and [log_delete] send to the content log. *)
Inductive audit : Type :=
  | LogEdit (kind title username url : string)
  | LogDelete (kind title username : string).

Inductive reply : Type :=
  | Aborted (status : Z)
  | NotFound
  | Answer (r : response).

Definition username_of (u : Authorization.user) : string :=
  match u with
  | Authorization.User n _ _ => n
  | Authorization.LUnauthenticatedUser => ""
  end.

Definition discord_id_of (u : Authorization.user) : Z :=
  match u with
  | Authorization.User _ d _ => d
  | Authorization.LUnauthenticatedUser => 0
  end.

Section Owner.
Variable validate : WriteupForm -> bool.
Variable validation_errors : WriteupForm -> list string.
(** [Writeup.update_auto] is not among the sources: the row it turns the
    writeup into, given the author, title, tags, content and privacy. *)
Variable update_auto : Writeup -> Z -> string -> list string -> string -> bool -> Writeup.
Variable url_for : string -> string -> string.

(** [writeups_delete]; [scopes] and [u] are [request.auth.scopes] and
    [request.user]. *)
Definition writeups_delete (scopes : list string) (u : Authorization.user) (i : Z)
           (st : Store) : reply * Store * list audit :=
  if negb (str_in "authenticated" scopes)
  then (Answer (Redirect (url_for "need_auth" "")), st, [])
  else
    match find (fun w => (id w =? i)%Z) (writeups st) with
    | None => (NotFound, st, [])
    | Some w =>
        if negb (Authorization.can_edit u (Some (author_id w)))
        then (Aborted 400, st, [])
        else
          (Answer (Redirect (url_for "writeups_index" "")),
           {| writeups := filter (fun x => negb (id x =? id w)%Z) (writeups st);
              seq := seq st; content_log := content_log st |},
           [LogDelete "writeup" (title w) (username_of u)])
    end.

(** [EditWriteup.post] *)
Definition edit_post (scopes : list string) (u : Authorization.user) (i : Z)
           (form : WriteupForm) (st : Store) : reply * Store * list audit :=
  if negb (str_in "authenticated" scopes)
  then (Answer (Redirect (url_for "need_auth" "")), st, [])
  else
    match find (fun w => (id w =? i)%Z) (writeups st) with
    | None => (NotFound, st, [])
    | Some w =>
        if negb (Authorization.can_edit u (Some (author_id w)))
        then (Aborted 400, st, [])
        else if validate form then
          let w' := update_auto w (discord_id_of u) (f_title form) (f_tags form)
                                (f_content form) (f_private form) in
          let url := url_for "writeups_view" (slug w') in
          (Answer (Redirect url),
           {| writeups := map (fun x => if (id x =? id w)%Z then w' else x) (writeups st);
              seq := seq st; content_log := content_log st |},
           [LogEdit "writeup" (title w') (username_of u) url])
        else
          (Answer (Template "writeups/edit.j2" form (validation_errors form)), st, [])
    end.
End Owner.

End Writeups.

(* ------------------------------------------------------------------ *)
(** ** Sample data *)

Module Samples.
Import Infra.

Definition lab (n h : string) : Device :=
  {| addresses := ["100.64.0.1"]; tags := ["tag:target"]; connected := true;
     id := ("id-" ++ n)%string; name := n; fqdn := (n ++ ".lab.example")%string;
     hostname := h |}.

Definition lab1 : Device := lab "lab1" "lab1".
Definition lab1_twin : Device := lab "lab1-1" "lab1".
Definition web2 : Device := lab "web2" "web2".
(** A device that was renamed upstream: its hostname still says [lab1]. *)
Definition renamed : Device := lab "web9" "lab1".
Definition laptop : Device :=
  {| addresses := ["100.64.0.9"]; tags := []; connected := true;
     id := "id-laptop"; name := "laptop"; fqdn := "laptop.lab.example";
     hostname := "laptop" |}.
Definition asleep : Device :=
  {| addresses := ["100.64.0.8"]; tags := ["tag:target"]; connected := false;
     id := "id-asleep"; name := "asleep"; fqdn := "asleep.lab.example";
     hostname := "asleep" |}.

(** A scorer that knows only full marks for an exact match, as every
    scorer of rapidfuzz gives to identical strings. *)
Definition exact_scorer (q c : string) : Q :=
  if String.eqb q c then 100 else 0.

(** A scorer with three marks: identical, the query is a prefix of the
    choice, anything else. *)
Definition prefix_scorer (q c : string) : Q :=
  if String.eqb q c then 100 else if prefix q c then 80 else 0.

(** The world in which GET /machines answers with [ds]. *)
Definition serving (ds : list Device) : World :=
  {| clock := 0; latency := 1 # 4; api_machines := Reply 200 [] (Some ds); fetches := 0;
     devices_cache := TTLCache.create 1024 60;
     descriptions_cache := TTLCache.create 1024 60;
     machines := [{| m_id := 1; m_hostname := "lab"; m_description := Some "practice box" |};
                  {| m_id := 2; m_hostname := "lab1"; m_description := Some "first lab" |}];
     machines_seq := 3;
     displays := [{| discord_message_id := 77; machine_hostname := "lab1" |}];
     out := [] |}.


Definition fleet : list Device := [lab1; laptop; lab1_twin; asleep; web2].


(** The invite issuer of the sample run hands out a code made of the id. *)
Definition issue (i : string) : M string := fun w => (Ok ("code-" ++ i)%string, w).

Definition deferred : World := with_out (out (serving fleet) ++ [Defer]) (serving fleet).

(** A title that is taken, and a hostname that is described already. *)
Definition first_post : Writeups.Writeup :=
  {| Writeups.id := 1; Writeups.author_id := 42; Writeups.title := "Heap tricks";
     Writeups.slug := "heap-tricks"; Writeups.tags := ["pwn"];
     Writeups.content := "..."; Writeups.private := false |}.

Definition shelf : Writeups.Store :=
  {| Writeups.writeups := [first_post]; Writeups.seq := 2; Writeups.content_log := [] |}.

Definition same_title : Writeups.WriteupForm :=
  {| Writeups.f_title := "Heap tricks"; Writeups.f_tags := []; Writeups.f_content := "again";
     Writeups.f_private := false |}.

Definition slugged (i author : Z) (title : string) (tags : list string)
           (content : string) (private : bool) : Writeups.Writeup :=
  {| Writeups.id := i; Writeups.author_id := author; Writeups.title := title;
     Writeups.slug := title; Writeups.tags := tags; Writeups.content := content;
     Writeups.private := private |}.

Definition backlog : Todos.Table :=
  Todos.run [Todos.New None None "rotate the keys" 100;
             Todos.New (Some 7%Z) None "patch lab1" 110;
             Todos.Complete 1 200;
             Todos.New None (Some 900%Z) "write the workshop" 210].

(** An upstream that hands out the token and then answers 503 to the
    invite request, every time. *)
Definition always_503 : Invite.Upstream :=
  {| Invite.self_reply := fun _ => Reply 200 [("x-csrf-token", "t0k")] tt;
     Invite.invite_reply := fun _ => Reply 503 [] None |}.

(** An upstream whose first invite request is refused and whose second
    one is answered. *)
Definition second_time : Invite.Upstream :=
  {| Invite.self_reply := fun _ => Reply 200 [("x-csrf-token", "t0k")] tt;
     Invite.invite_reply := fun n => if (n =? 1)%nat then Reply 503 [] None
                                     else Reply 200 [] (Some "c0de") |}.

(** A description too long for one Discord message: 2400 characters. *)
Definition essay : string := String.concat "" (repeat "lorem ipsum " 200).

(** A search has just been answered. *)
Definition searched : World :=
  snd (target_devices_descriptions exact_scorer None (serving fleet)).

(** A device that reports no address. *)
Definition bare : Device :=
  {| addresses := []; tags := ["tag:target"]; connected := true;
     id := "id-bare"; name := "bare"; fqdn := "bare.lab.example";
     hostname := "lab1" |}.

Definition card (n ip : string) : string :=
  ("**Machine:** `" ++ n ++ "` **IP:** `" ++ ip ++ "`")%string.

Definition cancelled_backlog : Todos.Table := Todos.exec backlog (Todos.Cancel 2 300).

(** The people of the site, a second writeup, and the collaborators. *)
Definition ann : Authorization.user := Authorization.User "ann" 42 false.
Definition mallory : Authorization.user := Authorization.User "mal" 66 false.

Definition private_post : Writeups.Writeup :=
  {| Writeups.id := 2; Writeups.author_id := 42; Writeups.title := "Draft";
     Writeups.slug := "draft"; Writeups.tags := ["pwn"];
     Writeups.content := "wip"; Writeups.private := true |}.

Definition library : Writeups.Store :=
  {| Writeups.writeups := [first_post; private_post]; Writeups.seq := 3;
     Writeups.content_log := [] |}.

Definition new_title : Writeups.WriteupForm :=
  {| Writeups.f_title := "Stack tricks"; Writeups.f_tags := ["pwn"];
     Writeups.f_content := "more"; Writeups.f_private := false |}.

Definition rewritten (w : Writeups.Writeup) (author : Z) (title : string)
           (tags : list string) (content : string) (private : bool) : Writeups.Writeup :=
  {| Writeups.id := Writeups.id w; Writeups.author_id := author; Writeups.title := title;
     Writeups.slug := title; Writeups.tags := tags; Writeups.content := content;
     Writeups.private := private |}.

Definition routes (route arg : string) : string := (route ++ "/" ++ arg)%string.

(** A token service that knows two tokens. *)
Definition tokens (t : string) : option (string * Z * bool) :=
  if String.eqb t "tok-ann" then Some ("ann", 42%Z, false)
  else if String.eqb t "tok-root" then Some ("root", 1%Z, true)
  else None.

End Samples.

(* ================================================================== *)
(** * Properties *)

Unset Implicit Arguments.

(* ------------------------------------------------------------------ *)
(** ** Strings *)

Lemma prefix_empty_r (q : string) : prefix q "" = true -> q = "".
Proof. destruct q; simpl; [reflexivity | discriminate]. Qed.

Lemma prefix_cons_inv (a b : ascii) (q s : string) :
  prefix (String a q) (String b s) = true -> a = b /\ prefix q s = true.
Proof. simpl. destruct (ascii_dec a b); [auto | discriminate]. Qed.

Lemma prefix_cons (a : ascii) (q s : string) :
  prefix (String a q) (String a s) = prefix q s.
Proof. simpl. destruct (ascii_dec a a); [reflexivity | congruence]. Qed.

Lemma append_empty_r (s : string) : (s ++ "")%string = s.
Proof. induction s; simpl; congruence. Qed.

Lemma append_snoc (s : string) (c : ascii) (p : string) :
  ((s ++ String c "") ++ p)%string = (s ++ String c p)%string.
Proof. induction s; simpl; congruence. Qed.

(* ------------------------------------------------------------------ *)
(** ** The trie stores a map and answers with the longest stored prefix *)

Module TrieFacts.
Section WithValue.
Variable V : Type.
Abbreviation trie := (Trie.CharTrie V).

Lemma get_child_put_same c (n : trie) ch :
  Trie.get_child c (Trie.put_child c n ch) = Some n.
Proof.
  induction ch as [|[c' n'] ch IH]; simpl.
  - now rewrite Ascii.eqb_refl.
  - destruct (Ascii.eqb c c') eqn:E; simpl.
    + now rewrite Ascii.eqb_refl.
    + now rewrite E.
Qed.

Lemma get_child_put_other c c' (n : trie) ch :
  c <> c' -> Trie.get_child c (Trie.put_child c' n ch) = Trie.get_child c ch.
Proof.
  intros Hne. induction ch as [|[c2 n2] ch IH]; simpl.
  - destruct (Ascii.eqb_spec c c'); [contradiction | reflexivity].
  - destruct (Ascii.eqb_spec c' c2) as [->|Hc]; simpl.
    + destruct (Ascii.eqb_spec c c2); [contradiction | reflexivity].
    + destruct (Ascii.eqb_spec c c2); [reflexivity | exact IH].
Qed.

Lemma get_empty k : Trie.get k (@Trie.empty V) = None.
Proof. destruct k; reflexivity. Qed.

Lemma get_set_same k v (t : trie) : Trie.get k (Trie.set k v t) = Some v.
Proof.
  revert t. induction k as [|c k IH]; intros t; simpl.
  - reflexivity.
  - rewrite get_child_put_same. apply IH.
Qed.

Lemma get_set_other k k' v (t : trie) :
  k <> k' -> Trie.get k (Trie.set k' v t) = Trie.get k t.
Proof.
  revert k t. induction k' as [|c' k' IH]; intros k t Hne.
  - destruct k as [|c k]; [congruence | reflexivity].
  - destruct k as [|c k]; [reflexivity |].
    simpl. destruct (Ascii.eqb_spec c c') as [->|Hc].
    + rewrite get_child_put_same.
      assert (k <> k') by congruence.
      rewrite IH by assumption.
      destruct (Trie.get_child c' (Trie.children t)); [reflexivity | apply get_empty].
    + now rewrite get_child_put_other.
Qed.

Lemma get_fold_set k items (t : trie) :
  Trie.get k (fold_left (fun t kv => Trie.set (fst kv) (snd kv) t) items t) =
  match Trie.last_binding k items with
  | Some v => Some v
  | None => Trie.get k t
  end.
Proof.
  revert t. induction items as [|[k' v] items IH]; intros t; simpl.
  - reflexivity.
  - rewrite IH. destruct (Trie.last_binding k items); [reflexivity |].
    destruct (String.eqb_spec k k') as [->|Hne].
    + apply get_set_same.
    + now apply get_set_other.
Qed.

Lemma get_of_items k (items : list (string * V)) :
  Trie.get k (Trie.of_items items) = Trie.last_binding k items.
Proof.
  unfold Trie.of_items. rewrite get_fold_set.
  destruct (Trie.last_binding k items); [reflexivity | apply get_empty].
Qed.

(** What the walk of [longest_prefix] ends with. *)
Lemma longest_from_spec key : forall (t : trie) sofar acc,
  let r := fold_left (fun _ step => Some step) (Trie.prefixes_from sofar key t) acc in
  (exists p v, r = Some ((sofar ++ p)%string, v) /\ prefix p key = true /\
               Trie.get p t = Some v /\
               forall q, prefix q key = true -> Trie.get q t <> None ->
                         (String.length q <= String.length p)%nat)
  \/ (r = acc /\ forall q, prefix q key = true -> Trie.get q t = None).
Proof.
  induction key as [|c key IH]; intros t sofar acc; cbn zeta.
  - simpl. rewrite app_nil_r. destruct (Trie.value t) as [v|] eqn:Ev; simpl.
    + left. exists ""%string, v. rewrite append_empty_r. repeat split; auto.
      intros q Hq _. apply prefix_empty_r in Hq. subst. simpl. lia.
    + right. split; [reflexivity |]. intros q Hq.
      apply prefix_empty_r in Hq. now subst.
  - simpl Trie.prefixes_from. rewrite fold_left_app.
    set (acc' := fold_left (fun _ step => Some step)
                   (match Trie.value t with Some v => [(sofar, v)] | None => [] end) acc).
    assert (Hacc' : acc' = match Trie.value t with Some v => Some (sofar, v) | None => acc end).
    { unfold acc'. destruct (Trie.value t); reflexivity. }
    assert (Hroot :
      (forall q, prefix q (String c key) = true -> q <> ""%string -> Trie.get q t = None) ->
      (exists p v, acc' = Some ((sofar ++ p)%string, v) /\ prefix p (String c key) = true /\
                   Trie.get p t = Some v /\
                   forall q, prefix q (String c key) = true -> Trie.get q t <> None ->
                             (String.length q <= String.length p)%nat)
      \/ (acc' = acc /\ forall q, prefix q (String c key) = true -> Trie.get q t = None)).
    { intros Hdeep. rewrite Hacc'. destruct (Trie.value t) as [v|] eqn:Ev.
      - left. exists ""%string, v. rewrite append_empty_r. repeat split; auto.
        intros q Hq Hget. destruct q as [|a q]; [simpl; lia |].
        exfalso. apply Hget, Hdeep; [assumption | discriminate].
      - right. split; [reflexivity |]. intros q Hq.
        destruct q as [|a q]; [exact Ev | apply Hdeep; [assumption | discriminate]]. }
    destruct (Trie.get_child c (Trie.children t)) as [n|] eqn:En.
    + destruct (IH n (sofar ++ String c "")%string acc') as [(p & v & Hr & Hp & Hg & Hmax) | (Hr & Hnone)].
      * left. exists (String c p), v. rewrite Hr, append_snoc.
        repeat split.
        -- now rewrite prefix_cons.
        -- simpl. now rewrite En.
        -- intros q Hq Hget. destruct q as [|a q]; [simpl; lia |].
           apply prefix_cons_inv in Hq as [-> Hq]. simpl in Hget. rewrite En in Hget.
           simpl. apply le_n_S. now apply Hmax.
      * rewrite Hr. apply Hroot. intros q Hq Hne.
        destruct q as [|a q]; [congruence |].
        apply prefix_cons_inv in Hq as [-> Hq]. simpl. rewrite En. now apply Hnone.
    + simpl. apply Hroot. intros q Hq Hne.
      destruct q as [|a q]; [congruence |].
      apply prefix_cons_inv in Hq as [-> Hq]. simpl. now rewrite En.
Qed.

Lemma longest_prefix_some (t : trie) key p v :
  Trie.longest_prefix t key = Some (p, v) ->
  prefix p key = true /\ Trie.get p t = Some v /\
  forall q, prefix q key = true -> Trie.get q t <> None ->
            (String.length q <= String.length p)%nat.
Proof.
  unfold Trie.longest_prefix, Trie.prefixes. intros H.
  destruct (longest_from_spec key t ""%string None) as [(p' & v' & Hr & Hp & Hg & Hmax) | (Hr & _)].
  - cbn zeta in Hr. rewrite H in Hr. simpl in Hr. injection Hr as -> ->. auto.
  - cbn zeta in Hr. congruence.
Qed.

Lemma longest_prefix_none (t : trie) key :
  Trie.longest_prefix t key = None ->
  forall q, prefix q key = true -> Trie.get q t = None.
Proof.
  unfold Trie.longest_prefix, Trie.prefixes. intros H.
  destruct (longest_from_spec key t ""%string None) as [(p' & v' & Hr & _) | (_ & Hnone)].
  - cbn zeta in Hr. congruence.
  - exact Hnone.
Qed.

End WithValue.
End TrieFacts.

(* ------------------------------------------------------------------ *)
(** ** The invite issuer gives up after the fourth failure *)

Module InviteFacts.
Import Invite.

Lemma raise_for_status_ok status :
  (200 <= status < 300)%Z -> raise_for_status status = Ok tt.
Proof.
  intros [H1 H2]. unfold raise_for_status.
  apply Z.leb_le in H1. apply Z.ltb_lt in H2. now rewrite H1, H2.
Qed.

Lemma raise_for_status_fails status :
  ~ (200 <= status < 300)%Z ->
  raise_for_status status = Raise (HTTPStatusError status).
Proof.
  intros H. unfold raise_for_status.
  destruct (200 <=? status)%Z eqn:E1; [|reflexivity].
  destruct (status <? 300)%Z eqn:E2; [|reflexivity].
  apply Z.leb_le in E1. apply Z.ltb_lt in E2. exfalso. apply H. lia.
Qed.

Lemma body_raises up n node :
  upstream_fails up n -> exists e, fst (generate_invite_body up n node) = Raise e.
Proof.
  unfold upstream_fails, generate_invite_body. intros H.
  destruct (self_reply up n) as [what|st hs b]; [simpl; eauto |].
  destruct (raise_for_status st) eqn:Est; [| simpl; eauto].
  destruct (header "x-csrf-token" hs); [| simpl; eauto].
  destruct H as [H|H].
  - simpl in H. rewrite (raise_for_status_fails _ H) in Est. discriminate.
  - destruct (invite_reply up n) as [what|st' hs' b']; [simpl; eauto |].
    simpl in H. rewrite (raise_for_status_fails _ H). simpl; eauto.
Qed.

Lemma body_starts_with_get up n node :
  attempts (snd (generate_invite_body up n node)) = 1%nat.
Proof.
  unfold generate_invite_body.
  repeat match goal with
         | |- context [match ?x with _ => _ end] => destruct x
         end; reflexivity.
Qed.

Lemma attempts_app a b : attempts (a ++ b) = (attempts a + attempts b)%nat.
Proof. unfold attempts. now rewrite filter_app, length_app. Qed.

Lemma delays_app a b : delays (a ++ b) = delays a ++ delays b.
Proof. unfold delays. apply flat_map_app. Qed.

Lemma body_never_sleeps up n node :
  delays (snd (generate_invite_body up n node)) = [].
Proof.
  unfold generate_invite_body.
  repeat match goal with
         | |- context [match ?x with _ => _ end] => destruct x
         end; reflexivity.
Qed.

(** C1. When the upstream fails the first four runs, [generate_invite]
    runs its body exactly four times, sleeps 0.1 s, 0.2 s and 0.3 s
    between the runs, and raises the exception of the fourth run; with
    any fuel of at least four rounds the loop has finished, so there is
    no fifth run. *)
Theorem generate_invite_four_attempts (up : Upstream) (node : string) (fuel : nat) :
  (forall n, (1 <= n <= 4)%nat -> upstream_fails up n) ->
  (4 <= fuel)%nat ->
  let run n := generate_invite_body up n node in
  exists e4,
    fst (run 4%nat) = Raise e4 /\
    generate_invite fuel up node =
      (Raised e4,
       snd (run 1%nat) ++ [Sleep (1 # 10)] ++
       snd (run 2%nat) ++ [Sleep (2 # 10)] ++
       snd (run 3%nat) ++ [Sleep (3 # 10)] ++
       snd (run 4%nat)) /\
    attempts (snd (generate_invite fuel up node)) = 4%nat /\
    delays (snd (generate_invite fuel up node)) = [1 # 10; 2 # 10; 3 # 10]%Q.
Proof.
  intros Hfail Hfuel run.
  destruct (body_raises up 1 node) as [e1 H1]; [apply Hfail; lia |].
  destruct (body_raises up 2 node) as [e2 H2]; [apply Hfail; lia |].
  destruct (body_raises up 3 node) as [e3 H3]; [apply Hfail; lia |].
  destruct (body_raises up 4 node) as [e4 H4]; [apply Hfail; lia |].
  exists e4. split; [exact H4 |].
  assert (Hrun : generate_invite fuel up node =
                 (Raised e4,
                  snd (run 1%nat) ++ [Sleep (1 # 10)] ++
                  snd (run 2%nat) ++ [Sleep (2 # 10)] ++
                  snd (run 3%nat) ++ [Sleep (3 # 10)] ++
                  snd (run 4%nat))).
  { do 4 (destruct fuel as [|fuel]; [lia |]).
    unfold generate_invite, run. cbn [perform].
    destruct (generate_invite_body up 1 node) as [r1 evs1]; simpl in H1; subst r1.
    destruct (generate_invite_body up 2 node) as [r2 evs2]; simpl in H2; subst r2.
    destruct (generate_invite_body up 3 node) as [r3 evs3]; simpl in H3; subst r3.
    destruct (generate_invite_body up 4 node) as [r4 evs4]; simpl in H4; subst r4.
    reflexivity. }
  split; [exact Hrun |].
  rewrite Hrun. cbn [snd]. split.
  - repeat rewrite attempts_app. unfold run.
    repeat rewrite body_starts_with_get. reflexivity.
  - repeat rewrite delays_app. unfold run.
    repeat rewrite body_never_sleeps. reflexivity.
Qed.

End InviteFacts.

Module InviteWitness.
Import Invite InviteFacts.

Lemma generate_invite_four_attempts_witness :
  generate_invite 7 Samples.always_503 "n1" =
    (Raised (HTTPStatusError 503),
     [GetSelf; PostInvite "t0k" "n1"; Sleep (1 # 10);
      GetSelf; PostInvite "t0k" "n1"; Sleep (2 # 10);
      GetSelf; PostInvite "t0k" "n1"; Sleep (3 # 10);
      GetSelf; PostInvite "t0k" "n1"]).
Proof.
  destruct (generate_invite_four_attempts Samples.always_503 "n1" 7) as (e4 & H4 & Hrun & _).
  - intros n _. right. simpl. lia.
  - lia.
  - rewrite Hrun. simpl in H4. injection H4 as <-. reflexivity.
Defined.

End InviteWitness.

(* ------------------------------------------------------------------ *)
(** ** Lists: membership, and sorting by score, best first *)

Lemma insert_by_in {A} (before : A -> A -> bool) x y s :
  In y (insert_by before x s) <-> y = x \/ In y s.
Proof.
  induction s as [|z s IH]; simpl.
  - intuition congruence.
  - destruct (before z x); simpl; [rewrite IH |]; intuition congruence.
Qed.

Lemma sort_by_in {A} (before : A -> A -> bool) y l :
  In y (sort_by before l) <-> In y l.
Proof.
  induction l as [|x l IH]; simpl; [tauto |].
  rewrite insert_by_in, IH. intuition congruence.
Qed.

Lemma firstn_in {A} n (l : list A) x : In x (firstn n l) -> In x l.
Proof.
  revert l. induction n as [|n IH]; intros [|y l]; simpl; try tauto.
  intros [H|H]; auto.
Qed.

Lemma Qltb_lt x y : Qltb x y = true <-> (x < y)%Q.
Proof.
  unfold Qltb. rewrite negb_true_iff. split.
  - intros H. apply Qnot_le_lt. intros Hle. apply Qle_bool_iff in Hle. congruence.
  - intros H. destruct (Qle_bool y x) eqn:E; [| reflexivity].
    apply Qle_bool_iff in E. exfalso. exact (Qlt_not_le _ _ H E).
Qed.

Lemma Qltb_ge x y : Qltb x y = false <-> (y <= x)%Q.
Proof.
  unfold Qltb. rewrite negb_false_iff. apply Qle_bool_iff.
Qed.

Section SortFacts.
Variable A : Type.
Variable key : A -> Q.

Lemma insert_descending x s :
  descending key s -> descending key (insert_by (best_first key) x s).
Proof.
  induction s as [|y s IH]; simpl.
  - intros _. split; [intros ? [] | exact I].
  - intros [Hy Hs]. unfold best_first at 1. destruct (Qltb (key x) (key y)) eqn:E; simpl.
    + split; [| now apply IH].
      intros z Hz. apply insert_by_in in Hz as [-> | Hz].
      * apply Qltb_lt in E. now apply Qlt_le_weak.
      * now apply Hy.
    + apply Qltb_ge in E. split; [| now split].
      intros z [<- | Hz]; [assumption |].
      apply Qle_trans with (key y); [now apply Hy | assumption].
Qed.

Lemma sort_descending l : descending key (sort_by (best_first key) l).
Proof.
  induction l as [|x l IH]; simpl; [exact I | now apply insert_descending].
Qed.

Variable c : Q.

Lemma below_cutoff_tail y s :
  reaches key c y = false -> (forall z, In z s -> (key z <= key y)%Q) ->
  filter (reaches key c) s = [].
Proof.
  intros Hy Hs. induction s as [|z s IH]; simpl; [reflexivity |].
  assert (reaches key c z = false) as ->.
  { unfold reaches in *. destruct (Qle_bool c (key z)) eqn:E; [| reflexivity].
    apply Qle_bool_iff in E.
    assert (Qle_bool c (key y) = true) as Hc; [| congruence].
    apply Qle_bool_iff. apply Qle_trans with (key z); [assumption |].
    apply Hs. now left. }
  apply IH. intros z' Hz'. apply Hs. now right.
Qed.

Lemma filter_insert x s :
  descending key s ->
  filter (reaches key c) (insert_by (best_first key) x s) =
  if reaches key c x then insert_by (best_first key) x (filter (reaches key c) s)
  else filter (reaches key c) s.
Proof.
  induction s as [|y s IH]; simpl.
  - intros _. now destruct (reaches key c x).
  - intros [Hy Hs]. unfold best_first at 1. destruct (Qltb (key x) (key y)) eqn:E.
    + cbn [filter]. rewrite (IH Hs). destruct (reaches key c x) eqn:Ex.
      * assert (reaches key c y = true) as ->.
        { unfold reaches in *. apply Qle_bool_iff. apply Qle_bool_iff in Ex.
          apply Qltb_lt in E. apply Qle_trans with (key x); [assumption |].
          now apply Qlt_le_weak. }
        cbn [insert_by]. unfold best_first at 2. now rewrite E.
      * reflexivity.
    + cbn [filter]. destruct (reaches key c x) eqn:Ex; [| reflexivity].
      destruct (reaches key c y) eqn:Ey.
      * cbn [insert_by]. unfold best_first at 1. now rewrite E.
      * now rewrite (below_cutoff_tail y s Ey Hy).
Qed.

Lemma sort_filter l :
  filter (reaches key c) (sort_by (best_first key) l) = sort_by (best_first key) (filter (reaches key c) l).
Proof.
  induction l as [|x l IH]; simpl; [reflexivity |].
  rewrite filter_insert by apply sort_descending.
  rewrite IH. now destruct (reaches key c x).
Qed.

Lemma filter_descending_prefix s :
  descending key s -> exists rest, s = filter (reaches key c) s ++ rest.
Proof.
  induction s as [|y s IH]; simpl.
  - intros _. now exists [].
  - intros [Hy Hs]. destruct (reaches key c y) eqn:Ey.
    + destruct (IH Hs) as [rest Hrest]. exists rest. simpl. now rewrite <- Hrest.
    + rewrite (below_cutoff_tail y s Ey Hy). now exists (y :: s).
Qed.

End SortFacts.

Lemma filter_implied {A} (f g : A -> bool) l :
  (forall x, f x = true -> g x = true) -> filter f (filter g l) = filter f l.
Proof.
  intros H. induction l as [|x l IH]; simpl; [reflexivity |].
  destruct (g x) eqn:Eg; simpl.
  - now rewrite IH.
  - destruct (f x) eqn:Ef; [| exact IH]. apply H in Ef. congruence.
Qed.

Lemma filter_length_mono {A} (f g : A -> bool) l :
  (forall x, In x l -> f x = true -> g x = true) ->
  (length (filter f l) <= length (filter g l))%nat.
Proof.
  induction l as [|x l IH]; simpl; intros H; [lia |].
  assert (IH' : (length (filter f l) <= length (filter g l))%nat).
  { apply IH. intros y Hy. apply H. now right. }
  destruct (f x) eqn:Ef.
  - rewrite (H x (or_introl eq_refl) Ef). simpl. lia.
  - destruct (g x); simpl; lia.
Qed.

(* ------------------------------------------------------------------ *)
(** ** The device list and the lookups on it *)

Module InfraFacts.
Import Infra.
Local Open Scope infra_scope.

Lemma str_in_iff x xs : str_in x xs = true <-> In x xs.
Proof.
  unfold str_in. rewrite existsb_exists. split.
  - intros (y & Hy & E). apply String.eqb_eq in E. now subst.
  - intros H. exists x. split; [assumption | apply String.eqb_refl].
Qed.

Lemma is_target_iff dev :
  is_target dev = true <-> In "tag:target" (tags dev) /\ connected dev = true.
Proof. unfold is_target. now rewrite andb_true_iff, str_in_iff. Qed.

(** A lookup that misses leaves the cache alone. *)
Lemma getitem_miss {K V} (eqb : K -> K -> bool) now k (c : TTLCache.t K V) :
  fst (TTLCache.getitem eqb now k c) = None -> TTLCache.getitem eqb now k c = (None, c).
Proof.
  unfold TTLCache.getitem. destruct (TTLCache.find eqb k c) as [[v e]|]; [|reflexivity].
  destruct (Qltb now e); [discriminate | reflexivity].
Qed.

Lemma target_devices_miss w :
  fst (TTLCache.getitem unit_eqb (clock w) tt (devices_cache w)) = None ->
  target_devices w =
    match parse_machines (api_machines w) with
    | Ok ds =>
        let w1 := with_clock (clock w + latency w)%Q (with_fetches (S (fetches w)) w) in
        (Ok (filter is_target ds),
         with_devices_cache
           (TTLCache.setitem unit_eqb (clock w1) tt (filter is_target ds) (devices_cache w1)) w1)
    | Raise e =>
        (Raise e, with_clock (clock w + latency w)%Q (with_fetches (S (fetches w)) w))
    end.
Proof.
  intros Hmiss. unfold target_devices, async_cached.
  rewrite (getitem_miss _ _ _ _ Hmiss).
  unfold target_devices_body, bind, devices, ret.
  destruct (parse_machines (api_machines w)); reflexivity.
Qed.

(** C7. On a refresh, [target_devices] returns exactly the devices of the
    fetched list that carry the tag [tag:target] and are connected, in
    the order of the fetched list, and no others. *)
Theorem target_devices_exact (w : World) (ds : list Device) :
  fst (TTLCache.getitem unit_eqb (clock w) tt (devices_cache w)) = None ->
  parse_machines (api_machines w) = Ok ds ->
  exists r w',
    target_devices w = (Ok r, w') /\
    r = filter is_target ds /\
    forall dev, In dev r <->
                In dev ds /\ In "tag:target" (tags dev) /\ connected dev = true.
Proof.
  intros Hmiss Hfetch. rewrite (target_devices_miss w Hmiss), Hfetch.
  eexists. eexists. split; [reflexivity |]. split; [reflexivity |].
  intros dev. now rewrite filter_In, is_target_iff.
Qed.

Lemma get_devices_with_hostname_of w h devs w' :
  target_devices w = (Ok devs, w') ->
  get_devices_with_hostname h w =
    (Ok (filter (fun dev => String.eqb (hostname dev) h) devs), w').
Proof.
  intros H. unfold get_devices_with_hostname, bind. now rewrite H.
Qed.

(** C4. [get_devices_with_hostname h] returns exactly the cached devices
    whose hostname is [h]; when that is more than one device, the join
    handler logs the warning and carries on with the first of them: the
    access request is logged for it, its first address is read and the
    invite is asked for its id. *)
Theorem hostname_lookup_and_join
        (generate_invite : string -> M string)
        (user : string) (message_id : Z) (h : string)
        (w w' : World) (devs : list Device) :
  target_devices (with_out (out w ++ [Defer]) w) = (Ok devs, w') ->
  let found := filter (fun dev => String.eqb (hostname dev) h) devs in
  get_devices_with_hostname h (with_out (out w ++ [Defer]) w) = (Ok found, w') /\
  (forall dev, In dev found <-> In dev devs /\ hostname dev = h) /\
  forall display m m2 others,
    find (fun d => (discord_message_id d =? message_id)%Z) (displays w) = Some display ->
    machine_hostname display = h ->
    found = m :: m2 :: others ->
    join generate_invite user message_id w =
      (ip <- first (addresses m) ;;
       invite <- generate_invite (id m) ;;
       emit (FollowupSend ("This lab is located on `" ++ ip ++ "`")%string
               (Some ("https://login.tailscale.com/admin/invite/" ++ invite)%string)))
        (with_out (out w' ++
                   [LogWarn ("Got more than one machine for " ++ h)%string;
                    LogInfo (user ++ " requested access to node " ++ name m)%string;
                    BotLog (user ++ " requested access to node " ++ name m)%string]) w').
Proof.
  intros Htd found.
  pose proof (get_devices_with_hostname_of _ h _ _ Htd) as Hget. fold found in Hget.
  split; [exact Hget |]. split.
  - intros dev. unfold found. rewrite filter_In, String.eqb_eq. tauto.
  - intros display m m2 others Hdisp Hh Hfound.
    unfold join. unfold bind at 1. unfold emit at 1. cbn iota beta.
    unfold bind at 1. unfold display_get. cbn [displays with_out]. rewrite Hdisp.
    cbn iota beta. unfold bind at 1. rewrite Hh, Hget, Hfound.
    cbn [length Nat.eqb Nat.ltb Nat.leb].
    unfold bind at 1. unfold emit at 1. cbn iota beta.
    unfold bind at 1. cbn [first ret]. cbn iota beta.
    unfold bind at 1. unfold emit at 1. cbn iota beta.
    unfold bind at 1. unfold emit at 1. cbn iota beta.
    f_equal. destruct w'; unfold with_out; cbn. f_equal.
    repeat rewrite <- app_assoc. reflexivity.
Qed.

(** *** Descriptions: the dict, the trie and the longest stored prefix *)

Lemma last_binding_in {V} k (d : list (string * V)) v :
  Trie.last_binding k d = Some v -> In k (map fst d).
Proof.
  revert v. induction d as [|[k' v'] d IH]; intros v; simpl; [discriminate |].
  destruct (Trie.last_binding k d) as [v0|].
  - intros _. right. now apply (IH v0).
  - destruct (String.eqb_spec k k'); [intros _; left; congruence | discriminate].
Qed.

Lemma dict_set_keys {V} k (v : V) d x :
  In x (map fst (dict_set k v d)) -> x = k \/ In x (map fst d).
Proof.
  induction d as [|[k' v'] d IH]; simpl.
  - intros [H|[]]; auto.
  - destruct (String.eqb_spec k k') as [->|Hne]; simpl.
    + intros [H|H]; auto.
    + intros [H|H]; auto. destruct (IH H); auto.
Qed.

Lemma dict_set_nodup {V} k (v : V) d :
  NoDup (map fst d) -> NoDup (map fst (dict_set k v d)).
Proof.
  induction d as [|[k' v'] d IH]; simpl; intros Hnd.
  - constructor; [intros [] | constructor].
  - inversion Hnd as [|? ? Hnotin Hnd']; subst.
    destruct (String.eqb_spec k k') as [->|Hne]; simpl.
    + now constructor.
    + constructor; [| now apply IH].
      intros Hin. apply dict_set_keys in Hin as [H|H]; [congruence | contradiction].
Qed.

Lemma last_binding_dict_set {V} k k' (v : V) d :
  NoDup (map fst d) ->
  Trie.last_binding k (dict_set k' v d) =
  if String.eqb k k' then Some v else Trie.last_binding k d.
Proof.
  induction d as [|[k2 v2] d IH]; simpl; intros Hnd.
  - reflexivity.
  - inversion Hnd as [|? ? Hnotin Hnd']; subst.
    destruct (String.eqb_spec k' k2) as [->|Hne]; simpl.
    + destruct (Trie.last_binding k d) eqn:E.
      * apply last_binding_in in E.
        destruct (String.eqb_spec k k2); [subst; contradiction | reflexivity].
      * destruct (String.eqb_spec k k2); reflexivity.
    + rewrite (IH Hnd').
      destruct (String.eqb_spec k k') as [->|Hk]; [reflexivity |].
      reflexivity.
Qed.

Lemma description_dict_fold k ms : forall d,
  NoDup (map fst d) ->
  NoDup (map fst (fold_left (fun d m => dict_set (m_hostname m) (m_description m) d) ms d)) /\
  Trie.last_binding k
    (fold_left (fun d m => dict_set (m_hostname m) (m_description m) d) ms d) =
  match stored k ms with
  | Some v => Some v
  | None => Trie.last_binding k d
  end.
Proof.
  induction ms as [|m ms IH]; intros d Hnd; simpl.
  - auto.
  - destruct (IH (dict_set (m_hostname m) (m_description m) d)
                 (dict_set_nodup _ _ _ Hnd)) as [Hnd' Hlb].
    split; [exact Hnd' |]. rewrite Hlb. unfold stored. simpl.
    destruct (Trie.last_binding k
                (map (fun m0 => (m_hostname m0, m_description m0)) ms)); [reflexivity |].
    rewrite last_binding_dict_set by assumption.
    destruct (String.eqb k (m_hostname m)); reflexivity.
Qed.

(** The trie that [target_devices_descriptions] builds holds, under every
    hostname, the description stored for it. *)
Lemma trie_get_stored k ms :
  Trie.get k (Trie.of_items (description_dict ms)) = stored k ms.
Proof.
  rewrite TrieFacts.get_of_items. unfold description_dict.
  destruct (description_dict_fold k ms [] (NoDup_nil _)) as [_ H].
  rewrite H. simpl. now destruct (stored k ms).
Qed.

Lemma prefix_same_length p q s :
  prefix p s = true -> prefix q s = true -> String.length p = String.length q -> p = q.
Proof.
  revert p q. induction s as [|c s IH]; intros p q Hp Hq Hlen.
  - apply prefix_empty_r in Hp, Hq. congruence.
  - destruct p as [|a p], q as [|b q]; try reflexivity; try discriminate.
    apply prefix_cons_inv in Hp as [-> Hp]. apply prefix_cons_inv in Hq as [-> Hq].
    f_equal. apply IH; auto.
Qed.

Lemma attach_desc_longest ms n :
  longest_description ms n (attach_desc (Trie.of_items (description_dict ms)) n).
Proof.
  unfold longest_description, attach_desc.
  destruct (Trie.longest_prefix (Trie.of_items (description_dict ms)) n)
    as [[p v']|] eqn:E.
  - apply TrieFacts.longest_prefix_some in E as (Hp & Hg & Hmax).
    rewrite trie_get_stored in Hg. split.
    + intros k v Hk Hpre Hlongest.
      assert (k = p) as ->.
      { apply (prefix_same_length k p n Hpre Hp). apply Nat.le_antisymm.
        - apply Hmax; [assumption |]. rewrite trie_get_stored. congruence.
        - apply Hlongest; [congruence | assumption]. }
      rewrite Hk in Hg. injection Hg as ->. now destruct v'.
    + intros Hnone. rewrite Hnone in Hp; [discriminate | congruence].
  - split; [| reflexivity].
    intros k v Hk Hpre _.
    pose proof (TrieFacts.longest_prefix_none _ _ _ E k Hpre) as Hg.
    rewrite trie_get_stored in Hg. congruence.
Qed.

(** *** The caches *)

Lemma query_eqb_eq a b : query_eqb a b = true -> a = b.
Proof.
  destruct a, b; simpl; try discriminate; try reflexivity.
  intros H. apply String.eqb_eq in H. congruence.
Qed.

Lemma query_eqb_refl a : query_eqb a a = true.
Proof. destruct a; simpl; [apply String.eqb_refl | reflexivity]. Qed.

Section CacheFacts.
Variables K V : Type.
Variable eqb : K -> K -> bool.
Hypothesis eqb_eq : forall a b, eqb a b = true -> a = b.

Lemma find_in k (c : TTLCache.t K V) v e :
  TTLCache.find eqb k c = Some (v, e) -> In (k, (v, e)) (TTLCache.links c).
Proof.
  unfold TTLCache.find.
  destruct (find (fun e0 => eqb k (fst e0)) (TTLCache.links c)) as [[k' ve]|] eqn:E;
    [| discriminate].
  apply find_some in E as [Hin Hk]. simpl in Hk. apply eqb_eq in Hk. subst k'.
  simpl. intros [= ->]. exact Hin.
Qed.

Lemma getitem_hit now k (c c' : TTLCache.t K V) v :
  TTLCache.getitem eqb now k c = (Some v, c') ->
  exists e, In (k, (v, e)) (TTLCache.links c) /\ Qltb now e = true.
Proof.
  unfold TTLCache.getitem.
  destruct (TTLCache.find eqb k c) as [[v0 e]|] eqn:E; [| discriminate].
  destruct (Qltb now e) eqn:El; [| discriminate].
  intros [= -> _]. exists e. split; [now apply find_in | exact El].
Qed.

Lemma getitem_links now k (c c' : TTLCache.t K V) r x :
  TTLCache.getitem eqb now k c = (r, c') ->
  In x (TTLCache.links c') -> In x (TTLCache.links c).
Proof.
  unfold TTLCache.getitem.
  destruct (TTLCache.find eqb k c) as [[v0 e]|] eqn:E; [| now intros [= _ <-]].
  destruct (Qltb now e); [| now intros [= _ <-]].
  intros [= _ <-]. simpl. rewrite in_app_iff. intros [H|[H|[]]].
  - unfold TTLCache.remove in H. now apply filter_In in H.
  - subst x. now apply find_in.
Qed.

Lemma skipn_in {A} n (l : list A) x : In x (skipn n l) -> In x l.
Proof.
  revert l. induction n as [|n IH]; intros [|y l]; simpl; auto.
Qed.

Lemma setitem_links now k v (c : TTLCache.t K V) x :
  In x (TTLCache.links (TTLCache.setitem eqb now k v c)) ->
  In x (TTLCache.links c) \/ x = (k, (v, (now + TTLCache.ttl c)%Q)).
Proof.
  unfold TTLCache.setitem.
  destruct (TTLCache.maxsize c =? 0)%nat.
  - simpl. intros H. apply filter_In in H. tauto.
  - simpl. rewrite in_app_iff. intros [H|[H|[]]]; [left | right; congruence].
    destruct (TTLCache.find eqb k (TTLCache.expire now c)).
    + unfold TTLCache.remove in H. apply filter_In in H as [H _].
      simpl in H. now apply filter_In in H.
    + apply skipn_in in H. simpl in H. now apply filter_In in H.
Qed.

End CacheFacts.

(** [target_devices] touches neither the machine table nor the
    description cache. *)
Lemma target_devices_frame w r w' :
  target_devices w = (r, w') ->
  machines w' = machines w /\ descriptions_cache w' = descriptions_cache w /\
  out w' = out w.
Proof.
  unfold target_devices, async_cached, target_devices_body, bind, devices, ret.
  destruct (TTLCache.getitem unit_eqb (clock w) tt (devices_cache w)) as [[v|] c].
  - intros [= _ <-]. auto.
  - destruct (parse_machines (api_machines w)); intros [= _ <-]; auto.
Qed.

(** *** Rows of the machine table after an upsert *)

Lemma last_binding_app {V} k (a b : list (string * V)) :
  Trie.last_binding k (a ++ b) =
  match Trie.last_binding k b with
  | Some v => Some v
  | None => Trie.last_binding k a
  end.
Proof.
  induction a as [|[k' v'] a IH]; simpl.
  - now destruct (Trie.last_binding k b).
  - rewrite IH. now destruct (Trie.last_binding k b).
Qed.

Lemma stored_none_iff k ms :
  stored k ms = None <-> existsb (fun m => String.eqb (m_hostname m) k) ms = false.
Proof.
  unfold stored. induction ms as [|m ms IH]; simpl; [tauto |].
  destruct (Trie.last_binding k (map (fun m0 => (m_hostname m0, m_description m0)) ms)).
  - destruct (existsb (fun m0 => String.eqb (m_hostname m0) k) ms).
    + rewrite orb_true_r. tauto.
    + destruct IH as [_ IH]. discriminate IH. reflexivity.
  - destruct IH as [IH _]. rewrite (IH eq_refl), orb_false_r.
    rewrite (String.eqb_sym (m_hostname m) k).
    destruct (String.eqb k (m_hostname m)); split; intros; congruence.
Qed.

Lemma stored_cons k m ms :
  stored k (m :: ms) =
  match stored k ms with
  | Some x => Some x
  | None => if String.eqb k (m_hostname m) then Some (m_description m) else None
  end.
Proof. reflexivity. Qed.

Lemma stored_set_description k h desc ms :
  stored k (map (fun m => if String.eqb (m_hostname m) h then set_description desc m else m) ms)
  = if String.eqb k h
    then match stored k ms with Some _ => Some (Some desc) | None => None end
    else stored k ms.
Proof.
  induction ms as [|m ms IH]; [now destruct (String.eqb k h) |].
  cbn [map]. rewrite !stored_cons, IH.
  destruct (String.eqb_spec k h) as [->|Hne].
  - destruct (stored h ms); [reflexivity |].
    rewrite (String.eqb_sym (m_hostname m) h).
    destruct (String.eqb h (m_hostname m)) eqn:E; simpl; now rewrite ?E.
  - destruct (stored k ms); [reflexivity |].
    destruct (String.eqb_spec (m_hostname m) h) as [Hh|Hh]; simpl; [| reflexivity].
    destruct (String.eqb_spec k (m_hostname m)); [congruence | reflexivity].
Qed.

Lemma stored_after_upsert w h desc :
  stored h (machines (snd (upsert_machine h desc w))) = Some (Some desc).
Proof.
  unfold upsert_machine. cbn [snd machines with_machines].
  destruct (existsb (fun m => String.eqb (m_hostname m) h) (machines w)) eqn:E.
  - rewrite stored_set_description, String.eqb_refl.
    destruct (stored h (machines w)) eqn:Es; [reflexivity |].
    apply stored_none_iff in Es. congruence.
  - unfold stored. rewrite map_app, last_binding_app. simpl.
    now rewrite String.eqb_refl.
Qed.

Lemma describe_server_effect refuses w h desc :
  refuses ("Set description of " ++ h ++ " to " ++ desc)%string = None ->
  describe_server refuses h desc w =
  (Ok tt,
   with_descriptions_cache (TTLCache.clear (descriptions_cache w))
     (with_out (out w ++ [SendMessage ("Set description of " ++ h ++ " to " ++ desc)%string])
        (snd (upsert_machine h desc w)))).
Proof.
  intros Hsent. unfold describe_server, send_message, bind. cbn [upsert_machine].
  rewrite Hsent. reflexivity.
Qed.

Lemma describe_server_refused refuses w h desc e :
  refuses ("Set description of " ++ h ++ " to " ++ desc)%string = Some e ->
  describe_server refuses h desc w = (Raise e, snd (upsert_machine h desc w)).
Proof.
  intros Href. unfold describe_server, send_message, bind. cbn [upsert_machine].
  rewrite Href. reflexivity.
Qed.

(** The rows are written before the reply is awaited. *)
Lemma describe_server_rows refuses w h desc :
  machines (snd (describe_server refuses h desc w)) =
  machines (snd (upsert_machine h desc w)).
Proof.
  destruct (refuses ("Set description of " ++ h ++ " to " ++ desc)%string) as [e|] eqn:E.
  - now rewrite (describe_server_refused _ _ _ _ _ E).
  - now rewrite (describe_server_effect _ _ _ _ E).
Qed.

(** In a list sorted best first, whatever is cut off scores no more
    than anything that is kept, and a cut that drops something keeps
    the full number. *)
Lemma descending_cut {A} (key : A -> Q) n (l : list A) x y :
  descending key l -> In x (firstn n l) -> In y (skipn n l) -> (key y <= key x)%Q.
Proof.
  revert l. induction n as [|n IH]; intros [|z l]; simpl; try tauto.
  intros [Hz Hl] [<- | Hx] Hy.
  - apply Hz. eapply skipn_in. eassumption.
  - now apply (IH l).
Qed.

Lemma kept_or_cut {A} n (l : list A) x :
  In x l -> In x (firstn n l) \/ In x (skipn n l).
Proof. intros H. rewrite <- (firstn_skipn n l) in H. now apply in_app_or. Qed.

Lemma cut_is_full {A} n (l : list A) y :
  In y (skipn n l) -> length (firstn n l) = n.
Proof.
  revert l. induction n as [|n IH]; intros [|z l]; simpl; try tauto.
  intros H. f_equal. now apply IH.
Qed.

Lemma enumerate_from_complete {A} i (xs : list A) x :
  In x xs -> exists j, In (j, x) (enumerate_from i xs).
Proof.
  revert i. induction xs as [|y xs IH]; intros i; simpl; [tauto |].
  intros [-> | H].
  - exists i. now left.
  - destruct (IH (S i) H) as [j Hj]. exists j. now right.
Qed.

Section SearchFacts.
Variable scorer : string -> string -> Q.

Lemma in_describe_matching limit c ms devs q d dev :
  In (d, dev) (describe_matching scorer limit c ms devs q) <->
  d = attach_desc (Trie.of_items (description_dict ms)) (name dev) /\
  In dev devs /\
  In (name dev) (matching_names scorer limit c q (map name devs)).
Proof.
  unfold describe_matching. rewrite in_map_iff. split.
  - intros (dev' & [= <- ->] & Hin). apply filter_In in Hin as [Hin Hm].
    apply str_in_iff in Hm. auto.
  - intros (-> & Hin & Hm). exists dev. split; [reflexivity |].
    apply filter_In. split; [assumption | now apply str_in_iff].
Qed.

Lemma search_result_shape w q r w' :
  desc_cache_ok scorer w ->
  target_devices_descriptions scorer q w = (Ok r, w') ->
  exists devs, r = describe_matching scorer 25 (1 # 2) (machines w) devs q.
Proof.
  intros Hok. unfold target_devices_descriptions, target_devices_descriptions_with,
    async_cached.
  destruct (TTLCache.getitem query_eqb (clock w) q (descriptions_cache w)) as [[v|] c] eqn:E.
  - intros [= -> _]. apply (getitem_hit _ _ _ query_eqb_eq) in E as (e & Hin & _).
    exact (Hok _ _ _ Hin).
  - unfold target_devices_descriptions_body, bind, all_machines, ret.
    destruct (target_devices w) as [[devs|e] w2]; [| discriminate].
    intros [= <- _]. now exists devs.
Qed.

Lemma search_preserves_ok w q x w' :
  desc_cache_ok scorer w ->
  target_devices_descriptions scorer q w = (x, w') ->
  desc_cache_ok scorer w' /\ machines w' = machines w.
Proof.
  intros Hok. unfold target_devices_descriptions, target_devices_descriptions_with,
    async_cached.
  destruct (TTLCache.getitem query_eqb (clock w) q (descriptions_cache w)) as [[v|] c] eqn:E.
  - intros [= _ <-]. split; [| reflexivity].
    intros k r e Hin. simpl in Hin.
    apply (getitem_links _ _ _ query_eqb_eq _ _ _ _ _ _ E) in Hin. exact (Hok _ _ _ Hin).
  - unfold target_devices_descriptions_body, bind, all_machines, ret.
    destruct (target_devices w) as [[devs|e] w2] eqn:Etd;
      apply target_devices_frame in Etd as (Hm & Hc & _).
    + intros [= _ <-]. split; [| exact Hm].
      intros k r e Hin. simpl in Hin.
      apply (setitem_links _ _ query_eqb) in Hin as [Hin | [= -> -> _]].
      * rewrite Hc in Hin. cbn [machines with_descriptions_cache]. rewrite Hm.
        exact (Hok _ _ _ Hin).
      * cbn [machines with_descriptions_cache]. rewrite Hm. now exists devs.
    + intros [= _ <-]. split; [| exact Hm].
      intros k r e' Hin. rewrite Hc in Hin. rewrite Hm. exact (Hok _ _ _ Hin).
Qed.

Lemma describe_establishes_ok refuses w h desc :
  refuses ("Set description of " ++ h ++ " to " ++ desc)%string = None ->
  desc_cache_ok scorer (snd (describe_server refuses h desc w)).
Proof. intros Hsent. rewrite (describe_server_effect _ _ _ _ Hsent). intros k r e []. Qed.

Lemma undescribe_establishes_ok refuses w h :
  refuses ("Unset description of " ++ h)%string = None ->
  desc_cache_ok scorer (snd (undescribe_server refuses h w)).
Proof.
  intros Hsent. unfold undescribe_server, send_message, bind. rewrite Hsent.
  intros k r e [].
Qed.

Lemma clear_cache_preserves_ok w :
  desc_cache_ok scorer w -> desc_cache_ok scorer (snd (clear_cache w)).
Proof. intros Hok k r e Hin. exact (Hok _ _ _ Hin). Qed.

(** C9. In every result of [target_devices_descriptions], the text paired
    with a device is the description stored under the longest stored
    hostname that is a prefix of the device's display name [name dev]
    (not of its [hostname] field); it is the empty string when that
    description is null or no stored hostname is a prefix of the name. *)
Theorem paired_description_is_longest_prefix
        (w w' : World) (q : option string) (r : list (string * Device)) :
  desc_cache_ok scorer w ->
  target_devices_descriptions scorer q w = (Ok r, w') ->
  forall d dev, In (d, dev) r -> longest_description (machines w) (name dev) d.
Proof.
  intros Hok Hrun d dev Hin.
  destruct (search_result_shape _ _ _ _ Hok Hrun) as [devs ->].
  apply in_describe_matching in Hin as (-> & _ & _).
  apply attach_desc_longest.
Qed.

(** *** What [extract] lets through *)

Lemma extract_unfold q choices limit c :
  extract scorer q choices limit c =
  firstn limit (sort_by (best_first score_of) (filter (reaches score_of c) (scored scorer q choices))).
Proof. reflexivity. Qed.

Lemma enumerate_from_in {A} i (xs : list A) j x :
  In (j, x) (enumerate_from i xs) -> In x xs.
Proof.
  revert i. induction xs as [|y xs IH]; intros i; simpl; [tauto |].
  intros [[= _ ->] | H]; [now left | right; eapply IH; eassumption].
Qed.

Lemma scored_in q choices r :
  In r (scored scorer q choices) ->
  In (fst (fst r)) choices /\ snd (fst r) = scorer q (fst (fst r)).
Proof.
  unfold scored. rewrite in_map_iff. intros ([j x] & <- & Hin). simpl.
  split; [eapply enumerate_from_in; eassumption | reflexivity].
Qed.

Lemma matching_names_scored limit c q names n :
  In n (matching_names scorer limit c (Some q) names) ->
  In n names /\ (c <= scorer q n)%Q.
Proof.
  unfold matching_names. rewrite in_map_iff. intros (r & <- & Hin).
  rewrite extract_unfold in Hin. apply firstn_in in Hin.
  apply sort_by_in in Hin. apply filter_In in Hin as [Hin Hc].
  apply scored_in in Hin as [Hin Hs]. split; [exact Hin |].
  unfold reaches in Hc. apply Qle_bool_iff in Hc. now rewrite <- Hs.
Qed.

Lemma matching_names_length limit c q names :
  (length (matching_names scorer limit c (Some q) names) <= limit)%nat.
Proof.
  unfold matching_names. rewrite length_map. unfold extract.
  rewrite length_firstn. lia.
Qed.

(** A stricter cutoff keeps a subset of the names. *)
Lemma matching_names_mono limit c1 c2 q names n :
  (c1 <= c2)%Q ->
  In n (matching_names scorer limit c2 (Some q) names) ->
  In n (matching_names scorer limit c1 (Some q) names).
Proof.
  intros Hc. unfold matching_names. apply incl_map. rewrite !extract_unfold.
  set (L := scored scorer q names).
  assert (Himp : forall x, reaches score_of c2 x = true -> reaches score_of c1 x = true).
  { intros x. unfold reaches. rewrite !Qle_bool_iff. intros H.
    now apply Qle_trans with c2. }
  rewrite <- (filter_implied _ _ L Himp).
  rewrite <- sort_filter.
  destruct (filter_descending_prefix _ score_of c2 _
              (sort_descending _ score_of (filter (reaches score_of c1) L)))
    as [rest Hrest].
  rewrite Hrest at 2. rewrite firstn_app. intros x Hx. apply in_or_app. now left.
Qed.

Lemma describe_matching_mono limit c1 c2 ms devs q :
  (c1 <= c2)%Q ->
  (forall p, In p (describe_matching scorer limit c2 ms devs (Some q)) ->
             In p (describe_matching scorer limit c1 ms devs (Some q))) /\
  (length (describe_matching scorer limit c2 ms devs (Some q)) <=
   length (describe_matching scorer limit c1 ms devs (Some q)))%nat.
Proof.
  intros Hc. split.
  - intros [d dev]. rewrite !in_describe_matching. intros (Hd & Hin & Hm).
    repeat split; try assumption. now apply (matching_names_mono limit c1 c2).
  - unfold describe_matching. rewrite !length_map. apply filter_length_mono.
    intros dev _. rewrite !str_in_iff. now apply matching_names_mono.
Qed.

(** C6. For a fixed query and a fixed state (hence a fixed cached device
    list), a search with a higher score cutoff returns a sublist of what
    the lower cutoff returns: the number of devices does not grow. *)
Theorem raising_cutoff_shrinks_result
        (limit : nat) (c1 c2 : Q) (q : string) (w w1 w2 : World)
        (r1 r2 : list (string * Device)) :
  (c1 <= c2)%Q ->
  target_devices_descriptions_body scorer limit c1 (Some q) w = (Ok r1, w1) ->
  target_devices_descriptions_body scorer limit c2 (Some q) w = (Ok r2, w2) ->
  (length r2 <= length r1)%nat /\ forall p, In p r2 -> In p r1.
Proof.
  intros Hc. unfold target_devices_descriptions_body, bind, all_machines, ret.
  destruct (target_devices w) as [[devs|e] w3]; [| discriminate].
  intros [= <- _] [= <- _].
  destruct (describe_matching_mono limit c1 c2 (machines w) devs q Hc). auto.
Qed.

Lemma scored_complete q choices n :
  In n choices -> exists i, In (n, scorer q n, i) (scored scorer q choices).
Proof.
  intros H. destruct (enumerate_from_complete 0 choices n H) as [j Hj].
  exists j. unfold scored. apply in_map_iff. now exists (j, n).
Qed.

(** A choice that reaches the cutoff and is not let through lost to
    [limit] choices that score at least as much. *)
Lemma matching_names_best limit c q names n :
  In n names -> (c <= scorer q n)%Q ->
  ~ In n (matching_names scorer limit c (Some q) names) ->
  length (matching_names scorer limit c (Some q) names) = limit /\
  forall m, In m (matching_names scorer limit c (Some q) names) ->
            (scorer q n <= scorer q m)%Q.
Proof.
  intros Hin Hc Hout. unfold matching_names in *. rewrite extract_unfold in *.
  set (S := sort_by (best_first score_of)
              (filter (reaches score_of c) (scored scorer q names))) in *.
  destruct (scored_complete q names n Hin) as [i Hi].
  assert (HS : In (n, scorer q n, i) S).
  { apply sort_by_in. apply filter_In. split; [exact Hi |].
    unfold reaches, score_of. cbn [fst snd]. now apply Qle_bool_iff. }
  destruct (kept_or_cut limit S _ HS) as [Hkept | Hcut].
  - exfalso. apply Hout. apply in_map_iff. now exists (n, scorer q n, i).
  - split.
    + rewrite length_map. now apply (cut_is_full limit S (n, scorer q n, i)).
    + intros m Hm. apply in_map_iff in Hm as (r & <- & Hr).
      pose proof (descending_cut score_of limit S r (n, scorer q n, i)
                    (sort_descending _ score_of _) Hr Hcut) as Hle.
      apply firstn_in, sort_by_in, filter_In in Hr as [Hr _].
      apply scored_in in Hr as [_ Hs].
      unfold score_of in Hle. cbn [fst snd] in Hle. now rewrite <- Hs.
Qed.

(** What a search computes from a device list, in full. *)
Lemma describe_matching_exact ms devs q :
  let r := describe_matching scorer 25 (1 # 2) ms devs (Some q) in
  exists names,
    names = map (fun x => fst (fst x)) (extract scorer q (map name devs) 25 (1 # 2)) /\
    (length names <= 25)%nat /\
    (forall n, In n names -> In n (map name devs) /\ (1 # 2 <= scorer q n)%Q) /\
    (forall n, In n (map name devs) -> (1 # 2 <= scorer q n)%Q -> ~ In n names ->
               length names = 25%nat /\
               forall m, In m names -> (scorer q n <= scorer q m)%Q) /\
    map snd r = filter (fun dev => str_in (name dev) names) devs /\
    (forall d dev, In (d, dev) r -> longest_description ms (name dev) d) /\
    (NoDup (map (fun p => name (snd p)) r) -> (length r <= 25)%nat).
Proof.
  intros r. exists (matching_names scorer 25 (1 # 2) (Some q) (map name devs)).
  split; [reflexivity |].
  split; [apply matching_names_length |].
  split; [intros n; apply matching_names_scored |].
  split; [intros n; apply matching_names_best |].
  split.
  { unfold r, describe_matching. rewrite map_map. cbn [snd]. apply map_id. }
  assert (Hnames : forall d dev, In (d, dev) r ->
                     In (name dev) (matching_names scorer 25 (1 # 2) (Some q) (map name devs))).
  { intros d dev Hin. now apply in_describe_matching in Hin as (_ & _ & Hm). }
  split.
  - intros d dev Hin. apply in_describe_matching in Hin as (-> & _ & _).
    apply attach_desc_longest.
  - intros Hnd.
    rewrite <- (length_map (fun p => name (snd p))).
    apply Nat.le_trans
      with (length (matching_names scorer 25 (1 # 2) (Some q) (map name devs)));
      [| apply matching_names_length].
    apply NoDup_incl_length; [exact Hnd |].
    intros n Hn. apply in_map_iff in Hn as ([d dev] & <- & Hin). simpl.
    now apply (Hnames d).
Qed.

(** A search that finds no live entry for its query computes from the
    rows and the device list it is given by [target_devices]. *)
Lemma target_devices_descriptions_miss w q devs w1 :
  fst (TTLCache.getitem query_eqb (clock w) q (descriptions_cache w)) = None ->
  target_devices w = (Ok devs, w1) ->
  fst (target_devices_descriptions scorer q w) =
  Ok (describe_matching scorer 25 (1 # 2) (machines w) devs q).
Proof.
  intros Hmiss Htd.
  unfold target_devices_descriptions, target_devices_descriptions_with, async_cached.
  destruct (TTLCache.getitem query_eqb (clock w) q (descriptions_cache w)) as [[v|] c];
    [discriminate |].
  unfold target_devices_descriptions_body, bind, all_machines, ret. now rewrite Htd.
Qed.


(** *** A description and the search that follows its writing *)


(** C2, as the code has it.  [describe_server] writes the row, awaits
    the reply and clears the search cache last.  When the reply is sent,
    the next [target_devices_descriptions(None)] recomputes whatever the
    caches held: it returns every target device, and a device whose name
    has [h] as its longest stored prefix is paired with [desc].  When the
    reply is refused, the handler raises with the row written and the
    cache not cleared: a search result that was live before is served
    again as it was, old descriptions included. *)
Theorem description_after_describe
        (refuses : string -> option exn) (w : World) (h desc : string) :
  let msg := ("Set description of " ++ h ++ " to " ++ desc)%string in
  let w1 := snd (describe_server refuses h desc w) in
  stored h (machines w1) = Some (Some desc) /\
  (refuses msg = None ->
   fst (describe_server refuses h desc w) = Ok tt /\
   forall devs w2,
     target_devices w1 = (Ok devs, w2) ->
     exists r w3,
       target_devices_descriptions scorer None w1 = (Ok r, w3) /\
       map snd r = devs /\
       forall d dev,
         In (d, dev) r ->
         prefix h (name dev) = true ->
         (forall k, stored k (machines w1) <> None -> prefix k (name dev) = true ->
                    (String.length k <= String.length h)%nat) ->
         d = desc) /\
  (forall e r c,
      refuses msg = Some e ->
      TTLCache.getitem query_eqb (clock w) None (descriptions_cache w) = (Some r, c) ->
      fst (describe_server refuses h desc w) = Raise e /\
      target_devices_descriptions scorer None w1 = (Ok r, with_descriptions_cache c w1)).
Proof.
  intros msg w1.
  assert (Hrow : stored h (machines w1) = Some (Some desc)).
  { unfold w1. rewrite describe_server_rows. apply stored_after_upsert. }
  split; [exact Hrow |]. split.
  - intros Hsent. split; [now rewrite (describe_server_effect _ _ _ _ Hsent) |].
    intros devs w2 Htd.
    unfold target_devices_descriptions, target_devices_descriptions_with, async_cached.
    assert (Hmiss : TTLCache.getitem query_eqb (clock w1) None (descriptions_cache w1)
                    = (None, descriptions_cache w1)).
    { unfold w1. rewrite (describe_server_effect _ _ _ _ Hsent). reflexivity. }
    rewrite Hmiss.
    unfold target_devices_descriptions_body, bind, all_machines, ret. rewrite Htd.
    eexists. eexists. split; [reflexivity |]. split.
    + unfold describe_matching, matching_names. rewrite map_map. simpl.
      rewrite map_id.
      assert (Hall : forall l, (forall x, In x l -> In (name x) (map name devs)) ->
                               filter (fun d => str_in (name d) (map name devs)) l = l).
      { intros l. induction l as [|x l IHl]; intros H; simpl; [reflexivity |].
        assert (str_in (name x) (map name devs) = true) as ->.
        { apply str_in_iff. apply (H x). now left. }
        f_equal. apply IHl. intros y Hy. apply H. now right. }
      apply Hall. intros x Hx. now apply in_map.
    + intros d dev Hin Hpre Hlongest.
      apply in_describe_matching in Hin as (-> & _ & _).
      destruct (attach_desc_longest (machines w1) (name dev)) as [Hfound _].
      exact (Hfound h (Some desc) Hrow Hpre Hlongest).
  - intros e r c Href Hlive. unfold w1.
    rewrite (describe_server_refused _ _ _ _ _ Href).
    split; [reflexivity |].
    unfold target_devices_descriptions, target_devices_descriptions_with, async_cached.
    cbn [snd upsert_machine clock descriptions_cache with_machines].
    rewrite Hlive. reflexivity.
Qed.

End SearchFacts.

(** *** The device cache has a single key *)

Lemma unit_remove (l : list (unit * (list Device * Q))) :
  TTLCache.remove unit_eqb tt l = [].
Proof. induction l as [|x l IH]; [reflexivity | exact IH]. Qed.

Lemma unit_find_none (c : device_cache) :
  TTLCache.find unit_eqb tt c = None -> TTLCache.links c = [].
Proof.
  unfold TTLCache.find. destruct (TTLCache.links c) as [|x l]; [reflexivity |].
  simpl. discriminate.
Qed.

(** With the single key [()], a store leaves exactly the new entry. *)
Lemma unit_setitem_links now v (c : device_cache) :
  TTLCache.maxsize c <> 0%nat ->
  TTLCache.links (TTLCache.setitem unit_eqb now tt v c) =
  [(tt, (v, (now + TTLCache.ttl c)%Q))].
Proof.
  intros Hmax. unfold TTLCache.setitem.
  destruct (Nat.eqb_spec (TTLCache.maxsize c) 0); [contradiction |].
  cbn [TTLCache.links].
  destruct (TTLCache.find unit_eqb tt (TTLCache.expire now c)) eqn:E.
  - now rewrite unit_remove.
  - apply unit_find_none in E. now rewrite E, skipn_nil.
Qed.

End InfraFacts.

(* ------------------------------------------------------------------ *)
(** ** Duplicates on create *)

Module ConflictFacts.
Import Infra InfraFacts.

Lemma upsert_keeps_rows w h desc :
  stored h (machines w) <> None ->
  let rows' := machines (snd (upsert_machine h desc w)) in
  map m_id rows' = map m_id (machines w) /\
  map m_hostname rows' = map m_hostname (machines w) /\
  forall m, In m (machines w) -> m_hostname m <> h -> In m rows'.
Proof.
  intros Hex. unfold upsert_machine. cbn [snd machines with_machines].
  destruct (existsb (fun m => String.eqb (m_hostname m) h) (machines w)) eqn:E.
  - rewrite !map_map. repeat split.
    + apply map_ext. intros m. now destruct (String.eqb (m_hostname m) h).
    + apply map_ext. intros m. now destruct (String.eqb (m_hostname m) h).
    + intros m Hin Hne. apply in_map_iff. exists m. split; [| assumption].
      destruct (String.eqb_spec (m_hostname m) h); [contradiction | reflexivity].
  - apply stored_none_iff in E. contradiction.
Qed.

Lemma stored_other_after_upsert w h desc k :
  k <> h -> stored k (machines (snd (upsert_machine h desc w))) = stored k (machines w).
Proof.
  intros Hne. unfold upsert_machine. cbn [snd machines with_machines].
  destruct (existsb (fun m => String.eqb (m_hostname m) h) (machines w)).
  - rewrite stored_set_description.
    destruct (String.eqb_spec k h); [contradiction | reflexivity].
  - unfold stored. rewrite map_app, last_binding_app. simpl.
    destruct (String.eqb_spec k h); [contradiction | reflexivity].
Qed.

(** C8, as the code has it.  A writeup whose title is taken is not
    created: the form comes back with the error on its title field and
    the store is left as it was.  Describing a hostname that already has
    a description is no error: the command answers as usual (whenever
    its reply is sent) and replaces the description of that row; it adds
    no row and leaves the ids, the hostnames and every other description
    as they were. *)
Theorem duplicate_on_create
        (validate : Writeups.WriteupForm -> bool)
        (validation_errors : Writeups.WriteupForm -> list string)
        (create_auto : Z -> Z -> string -> list string -> string -> bool -> Writeups.Writeup)
        (url_for : string -> string -> string) :
  (forall user_id username form st,
      (exists x, In x (Writeups.writeups st) /\ Writeups.title x = Writeups.f_title form) ->
      Writeups.post validate validation_errors create_auto url_for
                    true user_id username form st =
      (Writeups.Template "writeups/new.j2" form
         (validation_errors form ++
          [("A writeup with the title '" ++ Writeups.f_title form ++ "' already exists.")%string]),
       st)) /\
  (forall refuses w h desc,
      stored h (machines w) <> None ->
      let w' := snd (describe_server refuses h desc w) in
      (refuses ("Set description of " ++ h ++ " to " ++ desc)%string = None ->
       fst (describe_server refuses h desc w) = Ok tt /\
       out w' = out w ++ [SendMessage ("Set description of " ++ h ++ " to " ++ desc)%string]) /\
      stored h (machines w') = Some (Some desc) /\
      (forall k, k <> h -> stored k (machines w') = stored k (machines w)) /\
      map m_id (machines w') = map m_id (machines w) /\
      map m_hostname (machines w') = map m_hostname (machines w)).
Proof.
  split.
  - intros user_id username form st (x & Hin & Htitle).
    unfold Writeups.post. cbn [negb].
    assert (existsb (fun w => String.eqb (Writeups.title w) (Writeups.f_title form))
                    (Writeups.writeups st) = true) as ->.
    { apply existsb_exists. exists x. split; [assumption |].
      rewrite Htitle. apply String.eqb_refl. }
    reflexivity.
  - intros refuses w h desc Hex w'. unfold w'.
    split; [intros Hsent; rewrite (describe_server_effect _ _ _ _ Hsent); split; reflexivity |].
    rewrite describe_server_rows.
    destruct (upsert_keeps_rows w h desc Hex) as (Hid & Hhost & _).
    split; [apply stored_after_upsert |].
    split; [intros k Hk; now apply stored_other_after_upsert |].
    split; [exact Hid | exact Hhost].
Qed.

End ConflictFacts.

(* ------------------------------------------------------------------ *)
(** ** Todos: cancelled implies completed, and the three listings *)

Module TodoFacts.
Import Todos.

Lemma update_consistent t f tbl :
  (forall r, consistent r -> consistent (f r)) ->
  (forall r, In r (rows tbl) -> consistent r) ->
  forall r, In r (rows (update t f tbl)) -> consistent r.
Proof.
  intros Hf Hall r Hin. unfold update in Hin. cbn [rows] in Hin.
  apply in_map_iff in Hin as (r0 & <- & Hin0).
  destruct (id r0 =? id t)%Z; [apply Hf |]; now apply Hall.
Qed.

Lemma on_todo_consistent i f tbl :
  (forall r, consistent r -> consistent (f r)) ->
  (forall r, In r (rows tbl) -> consistent r) ->
  forall r, In r (rows (snd (on_todo i f tbl))) -> consistent r.
Proof.
  intros Hf Hall. unfold on_todo. destruct (convert i tbl) as [t|e]; cbn [snd].
  - now apply update_consistent.
  - exact Hall.
Qed.

Lemma exec_consistent tbl c :
  (forall r, In r (rows tbl) -> consistent r) ->
  forall r, In r (rows (exec tbl c)) -> consistent r.
Proof.
  intros Hall. destruct c; unfold exec;
    try (apply on_todo_consistent; [| exact Hall];
         intros r Hr; unfold consistent in *; simpl; try congruence; auto).
  - (* a new todo is neither completed nor cancelled *)
    unfold todo_new. cbn [snd rows]. intros r Hin.
    apply in_app_or in Hin as [Hin | [<- | []]]; [now apply Hall |].
    unfold consistent. simpl. discriminate.
Qed.

Lemma run_consistent cs : forall r, In r (rows (run cs)) -> consistent r.
Proof.
  unfold run.
  assert (H : forall tbl, (forall r, In r (rows tbl) -> consistent r) ->
                          forall r, In r (rows (fold_left exec cs tbl)) -> consistent r).
  { induction cs as [|c cs IH]; intros tbl Hall; simpl; [exact Hall |].
    apply IH. now apply exec_consistent. }
  apply H. intros r [].
Qed.

Lemma insert_by_perm {A} (before : A -> A -> bool) x s :
  Permutation (insert_by before x s) (x :: s).
Proof.
  induction s as [|y s IH]; simpl; [reflexivity |].
  destruct (before y x); [| reflexivity].
  rewrite IH. apply perm_swap.
Qed.

Lemma sort_by_perm {A} (before : A -> A -> bool) l :
  Permutation (sort_by before l) l.
Proof.
  induction l as [|x l IH]; simpl; [reflexivity |].
  rewrite insert_by_perm. now constructor.
Qed.

(** Three tests of which exactly one holds split a list three ways. *)
Lemma three_way_split {A} (p1 p2 p3 : A -> bool) l :
  (forall x, (p1 x = true /\ p2 x = false /\ p3 x = false) \/
             (p1 x = false /\ p2 x = true /\ p3 x = false) \/
             (p1 x = false /\ p2 x = false /\ p3 x = true)) ->
  Permutation (filter p1 l ++ filter p2 l ++ filter p3 l) l.
Proof.
  intros H. induction l as [|x l IH]; simpl; [reflexivity |].
  destruct (H x) as [(-> & -> & ->) | [(-> & -> & ->) | (-> & -> & ->)]].
  - simpl. now constructor.
  - symmetry. cbn [app]. apply Permutation_cons_app. now symmetry.
  - symmetry. rewrite app_assoc. apply Permutation_cons_app.
    rewrite <- app_assoc. now symmetry.
Qed.

Lemma exactly_one_state t :
  (in_progress_p t = true /\ completed_p t = false /\ cancelled_p t = false) \/
  (in_progress_p t = false /\ completed_p t = true /\ cancelled_p t = false) \/
  (in_progress_p t = false /\ completed_p t = false /\ cancelled_p t = true).
Proof.
  unfold in_progress_p, completed_p, cancelled_p.
  destruct (completed t), (cancelled t); simpl; auto.
Qed.

Lemma listing_in q tbl t :
  In t (todo_list_inner q None tbl) <-> In t (rows tbl) /\ q t = true.
Proof. unfold todo_list_inner. now rewrite sort_by_in, filter_In. Qed.

(** C10.  Cancelling a todo writes both the completion time and the
    cancelled flag; in every table that the commands can build, a
    cancelled todo has its completion time set; and the three listings
    (in progress, completed, cancelled) split the rows of any table:
    together they are a rearrangement of all rows, and every row is in
    exactly one of them. *)
Theorem cancelled_is_completed_and_listings_partition :
  (forall tbl i now t,
      get i tbl = Some t ->
      exists t',
        fst (todo_mark_cancelled i now tbl) = Ok t' /\
        completed t' = Some now /\ cancelled t' = true /\
        get i (snd (todo_mark_cancelled i now tbl)) = Some t') /\
  (forall cs t, In t (rows (run cs)) -> cancelled t = true -> completed t <> None) /\
  (forall tbl,
      Permutation (todo_list None tbl ++ todo_list_completed None tbl ++
                   todo_list_cancelled None tbl) (rows tbl) /\
      forall t, In t (rows tbl) ->
        (In t (todo_list None tbl) /\ ~ In t (todo_list_completed None tbl) /\
         ~ In t (todo_list_cancelled None tbl)) \/
        (~ In t (todo_list None tbl) /\ In t (todo_list_completed None tbl) /\
         ~ In t (todo_list_cancelled None tbl)) \/
        (~ In t (todo_list None tbl) /\ ~ In t (todo_list_completed None tbl) /\
         In t (todo_list_cancelled None tbl))).
Proof.
  split; [| split].
  - intros tbl i now t Hget.
    exists (set_completed (Some now) true t).
    unfold todo_mark_cancelled, on_todo, convert. rewrite Hget. cbn [fst snd].
    repeat split.
    unfold get in *. unfold update. cbn [rows].
    pose proof (find_some _ _ Hget) as [_ Hid]. apply Z.eqb_eq in Hid.
    induction (rows tbl) as [|r l IH]; [discriminate |].
    simpl in Hget |- *. destruct (id r =? i)%Z eqn:E.
    + injection Hget as ->. rewrite Hid, Z.eqb_refl. simpl. now rewrite E.
    + destruct (id r =? id t)%Z eqn:E'; [rewrite Hid in E'; congruence |].
      rewrite E. now apply IH.
  - intros cs t Hin. exact (run_consistent cs t Hin).
  - intros tbl. split.
    + unfold todo_list, todo_list_completed, todo_list_cancelled, todo_list_inner.
      rewrite !sort_by_perm. apply three_way_split. apply exactly_one_state.
    + intros t Hin.
      pose proof (listing_in in_progress_p tbl t) as L1.
      pose proof (listing_in completed_p tbl t) as L2.
      pose proof (listing_in cancelled_p tbl t) as L3.
      change (todo_list_inner in_progress_p None tbl) with (todo_list None tbl) in L1.
      change (todo_list_inner completed_p None tbl) with (todo_list_completed None tbl) in L2.
      change (todo_list_inner cancelled_p None tbl) with (todo_list_cancelled None tbl) in L3.
      rewrite L1, L2, L3.
      destruct (exactly_one_state t) as [(H1 & H2 & H3) | [(H1 & H2 & H3) | (H1 & H2 & H3)]];
        [left | right; left | right; right];
        rewrite H1, H2, H3; repeat split; auto; intros [_ ?]; discriminate.
Qed.

End TodoFacts.

(* ------------------------------------------------------------------ *)
(** ** The theorems at work on the sample data *)

Module Worked.
Import Infra InfraFacts Samples.

Lemma serving_fresh ds : desc_cache_ok exact_scorer (serving ds).
Proof. intros k r e []. Qed.

Lemma target_devices_exact_witness :
  exists r w',
    target_devices (serving fleet) = (Ok r, w') /\
    r = filter is_target fleet /\
    forall dev, In dev r <->
                In dev fleet /\ In "tag:target" (tags dev) /\ connected dev = true.
Proof.
  apply (target_devices_exact (serving fleet) fleet); reflexivity.
Defined.

Lemma hostname_lookup_and_join_witness :
  fst (get_devices_with_hostname "lab1" deferred) = Ok [lab1; lab1_twin] /\
  out (snd (join issue "alice" 77 (serving fleet))) =
    [Defer;
     LogWarn "Got more than one machine for lab1";
     LogInfo "alice requested access to node lab1";
     BotLog "alice requested access to node lab1";
     FollowupSend "This lab is located on `100.64.0.1`"
       (Some "https://login.tailscale.com/admin/invite/code-id-lab1")].
Proof.
  destruct (hostname_lookup_and_join issue "alice" 77 "lab1"
              (serving fleet) (snd (target_devices deferred)) [lab1; lab1_twin; web2])
    as (Hget & _ & Hjoin).
  - vm_compute. reflexivity.
  - split.
    + unfold deferred. rewrite Hget. reflexivity.
    + rewrite (Hjoin {| discord_message_id := 77; machine_hostname := "lab1" |}
                 lab1 lab1_twin [] eq_refl eq_refl eq_refl).
      vm_compute. reflexivity.
Defined.

Lemma paired_description_is_longest_prefix_witness :
  fst (target_devices_descriptions exact_scorer None (serving [lab1_twin; renamed])) =
    Ok [("first lab", lab1_twin); ("", renamed)] /\
  longest_description (machines (serving [lab1_twin; renamed])) "lab1-1" "first lab" /\
  longest_description (machines (serving [lab1_twin; renamed])) "web9" "".
Proof.
  pose proof (paired_description_is_longest_prefix exact_scorer
                (serving [lab1_twin; renamed])
                (snd (target_devices_descriptions exact_scorer None
                        (serving [lab1_twin; renamed]))) None
                [("first lab", lab1_twin); ("", renamed)]
                (serving_fresh [lab1_twin; renamed])) as H.
  assert (Hrun : target_devices_descriptions exact_scorer None (serving [lab1_twin; renamed]) =
                 (Ok [("first lab", lab1_twin); ("", renamed)],
                  snd (target_devices_descriptions exact_scorer None
                         (serving [lab1_twin; renamed]))))
    by (vm_compute; reflexivity).
  specialize (H Hrun). split; [now rewrite Hrun |]. split.
  - apply (H "first lab" lab1_twin). simpl. auto.
  - apply (H "" renamed). simpl. auto.
Defined.

Lemma description_after_describe_witness :
  let stale := snd (describe_server content_limit "lab1" essay searched) in
  let fresh := snd (describe_server content_limit "lab1" "rebuilt in May" searched) in
  fst (target_devices_descriptions exact_scorer None searched) =
    Ok [("first lab", lab1); ("first lab", lab1_twin); ("", web2)] /\
  fst (describe_server content_limit "lab1" essay searched) = Raise (HTTPException 400) /\
  stored "lab1" (machines stale) = Some (Some essay) /\
  fst (target_devices_descriptions exact_scorer None stale) =
    Ok [("first lab", lab1); ("first lab", lab1_twin); ("", web2)] /\
  fst (describe_server content_limit "lab1" "rebuilt in May" searched) = Ok tt /\
  fst (target_devices_descriptions exact_scorer None fresh) =
    Ok [("rebuilt in May", lab1); ("rebuilt in May", lab1_twin); ("", web2)].
Proof.
  intros stale fresh.
  destruct (description_after_describe exact_scorer content_limit searched "lab1" essay)
    as (Hrow & _ & Hrefused).
  destruct (Hrefused (HTTPException 400)
              [("first lab", lab1); ("first lab", lab1_twin); ("", web2)]
              (snd (TTLCache.getitem query_eqb (clock searched) None
                      (descriptions_cache searched))))
    as [Hraise Hstale]; [vm_compute; reflexivity | vm_compute; reflexivity |].
  destruct (description_after_describe exact_scorer content_limit searched
              "lab1" "rebuilt in May") as (_ & Hsent & _).
  destruct (Hsent eq_refl) as [Hok _].
  split; [vm_compute; reflexivity |].
  split; [exact Hraise |].
  split; [exact Hrow |].
  split; [unfold stale; now rewrite Hstale |].
  split; [exact Hok |].
  vm_compute. reflexivity.
Defined.

Lemma serving_fresh_prefix ds : desc_cache_ok prefix_scorer (serving ds).
Proof. intros k r e []. Qed.


Lemma raising_cutoff_shrinks_result_witness :
  (length [("first lab", lab1)] <=
   length [("first lab", lab1); ("first lab", lab1_twin)])%nat /\
  forall p, In p [("first lab", lab1)] ->
            In p [("first lab", lab1); ("first lab", lab1_twin)].
Proof.
  apply (raising_cutoff_shrinks_result prefix_scorer 25 (1 # 2) 90 "lab1" (serving fleet)
           (snd (target_devices_descriptions_body prefix_scorer 25 (1 # 2) (Some "lab1")
                   (serving fleet)))
           (snd (target_devices_descriptions_body prefix_scorer 25 90 (Some "lab1")
                   (serving fleet)))).
  - vm_compute. discriminate.
  - vm_compute. reflexivity.
  - vm_compute. reflexivity.
Defined.

Lemma duplicate_on_create_witness :
  Writeups.post (fun _ => true) (fun _ => []) slugged (fun route arg => (route ++ "/" ++ arg)%string)
                true 42 "ann" same_title shelf =
    (Writeups.Template "writeups/new.j2" same_title
       ["A writeup with the title 'Heap tricks' already exists."], shelf) /\
  stored "lab1" (machines (snd (describe_server content_limit "lab1" "second try"
                                  (serving fleet)))) =
    Some (Some "second try") /\
  map m_id (machines (snd (describe_server content_limit "lab1" "second try"
                             (serving fleet)))) = [1; 2]%Z.
Proof.
  destruct (ConflictFacts.duplicate_on_create
              (fun _ => true) (fun _ => []) slugged
              (fun route arg => (route ++ "/" ++ arg)%string)) as [Hpost Hdescribe].
  split.
  - apply (Hpost 42%Z "ann" same_title shelf).
    exists first_post. split; [now left | reflexivity].
  - destruct (Hdescribe content_limit (serving fleet) "lab1" "second try")
      as (_ & Hs & _ & Hid & _).
    + vm_compute. discriminate.
    + split; [exact Hs | exact Hid].
Defined.

Lemma cancelled_is_completed_and_listings_partition_witness :
  (exists t',
      fst (Todos.todo_mark_cancelled 2 300 backlog) = Ok t' /\
      Todos.completed t' = Some 300%Z /\ Todos.cancelled t' = true /\
      Todos.get 2 (snd (Todos.todo_mark_cancelled 2 300 backlog)) = Some t') /\
  Permutation (Todos.todo_list None backlog ++ Todos.todo_list_completed None backlog ++
               Todos.todo_list_cancelled None backlog) (Todos.rows backlog).
Proof.
  destruct TodoFacts.cancelled_is_completed_and_listings_partition as (Hcancel & _ & Hlist).
  split.
  - apply (Hcancel backlog 2%Z 300%Z
             {| Todos.id := 2; Todos.assigned := Some 7%Z; Todos.started := 110;
                Todos.completed := None; Todos.cancelled := false;
                Todos.deadline := None; Todos.content := "patch lab1" |}).
    reflexivity.
  - apply (Hlist backlog).
Defined.

(** *** Where the specification says more than the code does *)


(** Describing a hostname that already has a description raises nothing
    and rewrites the stored row. *)
Lemma describing_again_overwrites :
  stored "lab1" (machines (serving fleet)) = Some (Some "first lab") /\
  describe_server content_limit "lab1" "second try" (serving fleet) =
    (Ok tt,
     with_out [SendMessage "Set description of lab1 to second try"]
       (with_machines
          [{| m_id := 1; m_hostname := "lab"; m_description := Some "practice box" |};
           {| m_id := 2; m_hostname := "lab1"; m_description := Some "second try" |}]
          4 (serving fleet))) /\
  machines (snd (describe_server content_limit "lab1" "second try" (serving fleet))) <>
  machines (serving fleet).
Proof.
  split; [reflexivity |]. split; [reflexivity |].
  vm_compute. discriminate.
Qed.

End Worked.

(* ------------------------------------------------------------------ *)
(** ** More on the invite issuer: any upstream *)

Module InviteMore.
Import Invite InviteFacts.



Lemma attempts_sleep d evs : attempts (Sleep d :: evs) = attempts evs.
Proof. reflexivity. Qed.

Lemma delays_sleep d evs : delays (Sleep d :: evs) = d :: delays evs.
Proof. reflexivity. Qed.

(** Bring the measures of a trace of [perform] down to those of the runs. *)
Ltac measure_trace :=
  cbn -[attempts delays];
  repeat (rewrite ?attempts_app, ?delays_app, ?attempts_sleep, ?delays_sleep);
  repeat match goal with
         | H : attempts _ = _ |- _ => rewrite H
         | H : delays _ = _ |- _ => rewrite H
         end;
  cbn -[attempts delays].

(** X1. Whatever the upstream does, [generate_invite] is over after at
    most four runs of its body: with fuel for four rounds the loop has
    returned or raised, the trace shows at most four runs, and the
    sleeps are an initial part of 0.1 s, 0.2 s, 0.3 s. *)
Theorem generate_invite_at_most_four (up : Upstream) (node : string) (fuel : nat) :
  (4 <= fuel)%nat ->
  fst (generate_invite fuel up node) <> Running /\
  (1 <= attempts (snd (generate_invite fuel up node)) <= 4)%nat /\
  exists rest,
    [1 # 10; 2 # 10; 3 # 10]%Q = delays (snd (generate_invite fuel up node)) ++ rest.
Proof.
  intros Hfuel. do 4 (destruct fuel as [|fuel]; [lia |]).
  unfold generate_invite. cbn [perform].
  pose proof (body_starts_with_get up 1 node) as A1.
  pose proof (body_starts_with_get up 2 node) as A2.
  pose proof (body_starts_with_get up 3 node) as A3.
  pose proof (body_starts_with_get up 4 node) as A4.
  pose proof (body_never_sleeps up 1 node) as D1.
  pose proof (body_never_sleeps up 2 node) as D2.
  pose proof (body_never_sleeps up 3 node) as D3.
  pose proof (body_never_sleeps up 4 node) as D4.
  destruct (generate_invite_body up 1 node) as [[a1|e1] evs1]; cbn [fst snd] in *.
  { measure_trace. split; [discriminate |]. split; [lia |]. now eexists. }
  destruct (generate_invite_body up 2 node) as [[a2|e2] evs2]; cbn [fst snd] in *.
  { measure_trace. split; [discriminate |]. split; [lia |]. now eexists. }
  destruct (generate_invite_body up 3 node) as [[a3|e3] evs3]; cbn [fst snd] in *.
  { measure_trace. split; [discriminate |]. split; [lia |]. now eexists. }
  destruct (generate_invite_body up 4 node) as [[a4|e4] evs4]; cbn [fst snd] in *.
  { measure_trace. split; [discriminate |]. split; [lia |]. now exists []. }
  measure_trace. split; [discriminate |]. split; [lia |]. now exists [].
Qed.

(** X2. The first run that succeeds ends the loop: when the runs before
    the [k]-th raise and the [k]-th returns a code ([k] at most four),
    [generate_invite] returns that code after exactly [k] runs, having
    slept [k - 1] times. *)
Theorem generate_invite_first_success
        (up : Upstream) (node code : string) (k fuel : nat) :
  (1 <= k <= 4)%nat -> (k <= fuel)%nat ->
  (forall n, (1 <= n < k)%nat -> exists e, fst (generate_invite_body up n node) = Raise e) ->
  fst (generate_invite_body up k node) = Ok code ->
  fst (generate_invite fuel up node) = Returned code /\
  attempts (snd (generate_invite fuel up node)) = k /\
  delays (snd (generate_invite fuel up node)) =
    firstn (k - 1) [1 # 10; 2 # 10; 3 # 10]%Q.
Proof.
  intros Hk Hfuel Hfail Hok.
  pose proof (body_starts_with_get up 1 node) as A1.
  pose proof (body_starts_with_get up 2 node) as A2.
  pose proof (body_starts_with_get up 3 node) as A3.
  pose proof (body_starts_with_get up 4 node) as A4.
  pose proof (body_never_sleeps up 1 node) as D1.
  pose proof (body_never_sleeps up 2 node) as D2.
  pose proof (body_never_sleeps up 3 node) as D3.
  pose proof (body_never_sleeps up 4 node) as D4.
  unfold generate_invite.
  assert (Hcases : (k = 1 \/ k = 2 \/ k = 3 \/ k = 4)%nat) by lia.
  destruct Hcases as [-> | [-> | [-> | ->]]].
  - destruct fuel as [|fuel]; [lia |]. cbn [perform].
    destruct (generate_invite_body up 1 node) as [r1 evs1]; cbn [fst snd] in *; subst r1.
    measure_trace. auto.
  - destruct (Hfail 1%nat ltac:(lia)) as [e1 H1].
    do 2 (destruct fuel as [|fuel]; [lia |]). cbn [perform].
    destruct (generate_invite_body up 1 node) as [r1 evs1]; cbn [fst snd] in *; subst r1.
    destruct (generate_invite_body up 2 node) as [r2 evs2]; cbn [fst snd] in *; subst r2.
    measure_trace. auto.
  - destruct (Hfail 1%nat ltac:(lia)) as [e1 H1].
    destruct (Hfail 2%nat ltac:(lia)) as [e2 H2].
    do 3 (destruct fuel as [|fuel]; [lia |]). cbn [perform].
    destruct (generate_invite_body up 1 node) as [r1 evs1]; cbn [fst snd] in *; subst r1.
    destruct (generate_invite_body up 2 node) as [r2 evs2]; cbn [fst snd] in *; subst r2.
    destruct (generate_invite_body up 3 node) as [r3 evs3]; cbn [fst snd] in *; subst r3.
    measure_trace. auto.
  - destruct (Hfail 1%nat ltac:(lia)) as [e1 H1].
    destruct (Hfail 2%nat ltac:(lia)) as [e2 H2].
    destruct (Hfail 3%nat ltac:(lia)) as [e3 H3].
    do 4 (destruct fuel as [|fuel]; [lia |]). cbn [perform].
    destruct (generate_invite_body up 1 node) as [r1 evs1]; cbn [fst snd] in *; subst r1.
    destruct (generate_invite_body up 2 node) as [r2 evs2]; cbn [fst snd] in *; subst r2.
    destruct (generate_invite_body up 3 node) as [r3 evs3]; cbn [fst snd] in *; subst r3.
    destruct (generate_invite_body up 4 node) as [r4 evs4]; cbn [fst snd] in *; subst r4.
    measure_trace. auto.
Qed.


End InviteMore.

(* ------------------------------------------------------------------ *)
(** ** More on the device cache: failures, expiry, clearing *)

Module InfraMore.
Import Infra InfraFacts.
Local Open Scope infra_scope.

Lemma target_devices_hit w v c :
  TTLCache.getitem unit_eqb (clock w) tt (devices_cache w) = (Some v, c) ->
  target_devices w = (Ok v, with_devices_cache c w).
Proof.
  intros H. unfold target_devices, async_cached. now rewrite H.
Qed.

Lemma getitem_single now (c : device_cache) v expires :
  TTLCache.links c = [(tt, (v, expires))] ->
  TTLCache.getitem unit_eqb now tt c =
  if Qltb now expires then (Some v, c) else (None, c).
Proof.
  intros H. unfold TTLCache.getitem, TTLCache.find, TTLCache.remove. rewrite H. simpl.
  destruct (Qltb now expires); [| reflexivity].
  destruct c as [m t l]. simpl in H. subst l. reflexivity.
Qed.

(** X5. A list that a refresh has stored is served for sixty seconds and
    no longer: any call less than 60 s after the store gets the stored
    list without a GET, whatever the upstream would answer by then; a
    call more than 60 s after it finds no live entry and asks the
    upstream again. *)
Theorem refreshed_list_lives_sixty_seconds (w : World) (ds : list Device) :
  TTLCache.ttl (devices_cache w) = 60%Q ->
  TTLCache.maxsize (devices_cache w) = 1024%nat ->
  fst (TTLCache.getitem unit_eqb (clock w) tt (devices_cache w)) = None ->
  parse_machines (api_machines w) = Ok ds ->
  let w1 := snd (target_devices w) in
  (forall d rep, (0 <= d)%Q -> (d < 60)%Q ->
     fst (target_devices (with_api rep (later d w1))) = Ok (filter is_target ds) /\
     fetches (snd (target_devices (with_api rep (later d w1)))) = fetches w1) /\
  (forall d rep, (60 < d)%Q ->
     fst (TTLCache.getitem unit_eqb (clock (later d w1)) tt (devices_cache (later d w1)))
       = None /\
     fetches (snd (target_devices (with_api rep (later d w1)))) = S (fetches w1)).
Proof.
  intros Httl Hmax Hmiss Hok w1.
  assert (Hw1 : TTLCache.links (devices_cache w1) =
                [(tt, (filter is_target ds, (clock w + latency w + 60)%Q))] /\
                clock w1 = (clock w + latency w)%Q).
  { unfold w1. rewrite (target_devices_miss w Hmiss), Hok.
    cbn [snd devices_cache clock with_devices_cache with_clock with_fetches].
    rewrite unit_setitem_links by (rewrite Hmax; discriminate).
    now rewrite Httl. }
  destruct Hw1 as [Hlinks Hclock]. split.
  - intros d rep Hd0 Hd.
    assert (Hget : TTLCache.getitem unit_eqb (clock (with_api rep (later d w1))) tt
                     (devices_cache (with_api rep (later d w1))) =
                   (Some (filter is_target ds), devices_cache w1)).
    { cbn [clock devices_cache with_api later with_clock].
      rewrite (getitem_single _ _ _ _ Hlinks).
      assert (Qltb (clock w1 + d) (clock w + latency w + 60) = true) as ->;
        [| reflexivity].
      apply Qltb_lt. rewrite Hclock. lra. }
    rewrite (target_devices_hit _ _ _ Hget). split; reflexivity.
  - intros d rep Hd.
    assert (Hget : TTLCache.getitem unit_eqb (clock w1 + d)%Q tt (devices_cache w1) =
                   (None, devices_cache w1)).
    { rewrite (getitem_single _ _ _ _ Hlinks).
      assert (Qltb (clock w1 + d) (clock w + latency w + 60) = false) as ->;
        [| reflexivity].
      apply Qltb_ge. rewrite Hclock. lra. }
    split.
    + cbn [clock devices_cache later with_clock]. now rewrite Hget.
    + rewrite target_devices_miss.
      * destruct (parse_machines (api_machines (with_api rep (later d w1)))); reflexivity.
      * cbn [clock devices_cache with_api later with_clock]. now rewrite Hget.
Qed.

Section WithScorer.
Variable scorer : string -> string -> Q.

(** X6. [clear_cache] empties the device cache only: the next
    [target_devices] has to fetch, but a search result that is still live
    in the description cache keeps being served as it is, without a
    fetch. *)
Theorem clear_cache_spares_search_results
        (w : World) (q : option string) (r : list (string * Device))
        (c : description_cache) :
  TTLCache.getitem query_eqb (clock w) q (descriptions_cache w) = (Some r, c) ->
  let w' := snd (clear_cache w) in
  fst (clear_cache w) = Ok tt /\
  out w' = out w ++ [SendMessage "Cleared"] /\
  fetches (snd (target_devices w')) = S (fetches w) /\
  fst (target_devices_descriptions scorer q w') = Ok r /\
  fetches (snd (target_devices_descriptions scorer q w')) = fetches w.
Proof.
  intros Hhit w'.
  assert (Hw' : w' = with_out (out w ++ [SendMessage "Cleared"])
                       (with_devices_cache (TTLCache.clear (devices_cache w)) w))
    by reflexivity.
  split; [reflexivity |]. split; [now rewrite Hw' |]. split.
  - rewrite target_devices_miss.
    + rewrite Hw'. cbn [api_machines with_out with_devices_cache].
      destruct (parse_machines (api_machines w)); reflexivity.
    + rewrite Hw'. reflexivity.
  - unfold target_devices_descriptions, target_devices_descriptions_with, async_cached.
    rewrite Hw'. cbn [clock descriptions_cache with_out with_devices_cache].
    rewrite Hhit. split; reflexivity.
Qed.

End WithScorer.

(** *** The handlers around the invite *)

Lemma bind_ok {A B} (m : M A) (f : A -> M B) w a w' :
  m w = (Ok a, w') -> bind m f w = f a w'.
Proof. intros H. unfold bind. now rewrite H. Qed.

Lemma bind_emit {B} (e : event) (k : M B) w :
  bind (emit e) (fun _ => k) w = k (with_out (out w ++ [e]) w).
Proof. reflexivity. Qed.

Lemma get_device_of w n devs w' :
  target_devices w = (Ok devs, w') ->
  get_device n w = (Ok (find (fun dev => String.eqb (name dev) n) devs), w').
Proof. intros H. unfold get_device. now rewrite (bind_ok _ _ _ _ _ H). Qed.

Lemma with_out_out w l l' :
  with_out (out (with_out l w) ++ l') (with_out l w) = with_out (l ++ l') w.
Proof. reflexivity. Qed.

Lemma find_app_none {A} (f : A -> bool) a b :
  find f a = None -> find f (a ++ b) = find f b.
Proof.
  induction a as [|x a IH]; simpl; [reflexivity |].
  destruct (f x); [discriminate | exact IH].
Qed.

Section WithIssuer.
Variable generate_invite : string -> M string.

(** What the button does once the display row and the device list are
    at hand. *)
Lemma join_with_display user message_id w display devs w' :
  find (fun d => (discord_message_id d =? message_id)%Z) (displays w) = Some display ->
  target_devices (with_out (out w ++ [Defer]) w) = (Ok devs, w') ->
  join generate_invite user message_id w =
  match filter (fun dev => String.eqb (hostname dev) (machine_hostname display)) devs with
  | [] => borked w'
  | m :: others =>
      (ip <- first (addresses m) ;;
       invite <- generate_invite (id m) ;;
       emit (FollowupSend ("This lab is located on `" ++ ip ++ "`")%string
               (Some ("https://login.tailscale.com/admin/invite/" ++ invite)%string)))
        (with_out
           (out w' ++
            (match others with
             | [] => []
             | _ :: _ => [LogWarn ("Got more than one machine for "
                                   ++ machine_hostname display)%string]
             end) ++
            [LogInfo (user ++ " requested access to node " ++ name m)%string;
             BotLog (user ++ " requested access to node " ++ name m)%string]) w')
  end.
Proof.
  intros Hdisp Htd. unfold join. rewrite bind_emit.
  assert (Hd : display_get message_id (with_out (out w ++ [Defer]) w) =
               (Ok (Some display), with_out (out w ++ [Defer]) w)).
  { unfold display_get. cbn [displays with_out]. now rewrite Hdisp. }
  rewrite (bind_ok _ _ _ _ _ Hd).
  rewrite (bind_ok _ _ _ _ _
             (get_devices_with_hostname_of _ (machine_hostname display) _ _ Htd)).
  destruct (filter (fun dev => String.eqb (hostname dev) (machine_hostname display)) devs)
    as [|m others]; [reflexivity |].
  destruct others as [|m2 others]; cbn [length Nat.eqb Nat.ltb Nat.leb].
  - unfold bind at 1. cbn [ret]. unfold bind at 1. cbn [first ret].
    rewrite !bind_emit. f_equal. destruct w'; unfold with_out; cbn. f_equal.
    now rewrite <- app_assoc.
  - rewrite bind_emit. unfold bind at 1. cbn [first ret].
    rewrite !bind_emit. f_equal. destruct w'; unfold with_out; cbn. f_equal.
    now rewrite <- !app_assoc.
Qed.

(** X7. The button gives up without asking for an invite in three
    cases, whatever the invite issuer would do: no display row for the
    message, or no target device with the displayed hostname (the user is
    told the card is broken), or a device without any address (the
    request is logged and [IndexError] is raised). *)
Theorem join_gives_up_without_invite (user : string) (message_id : Z) (w : World) :
  (find (fun d => (discord_message_id d =? message_id)%Z) (displays w) = None ->
   join generate_invite user message_id w =
     (Ok tt, with_out (out w ++ [Defer; FollowupSend
               "This machine info card is borked, complain to ben" None]) w)) /\
  (forall display devs w',
     find (fun d => (discord_message_id d =? message_id)%Z) (displays w) = Some display ->
     target_devices (with_out (out w ++ [Defer]) w) = (Ok devs, w') ->
     (filter (fun dev => String.eqb (hostname dev) (machine_hostname display)) devs = [] ->
      join generate_invite user message_id w =
        (Ok tt, with_out (out w' ++ [FollowupSend
                  "This machine info card is borked, complain to ben" None]) w')) /\
     (forall m,
        filter (fun dev => String.eqb (hostname dev) (machine_hostname display)) devs = [m] ->
        addresses m = [] ->
        join generate_invite user message_id w =
          (Raise IndexError,
           with_out (out w' ++
                     [LogInfo (user ++ " requested access to node " ++ name m)%string;
                      BotLog (user ++ " requested access to node " ++ name m)%string]) w'))).
Proof.
  split.
  - intros Hnone. unfold join. rewrite bind_emit.
    unfold bind at 1. unfold display_get. cbn [displays with_out]. rewrite Hnone.
    unfold borked, emit. cbn [out with_out]. f_equal.
    destruct w; unfold with_out; cbn. f_equal. now rewrite <- app_assoc.
  - intros display devs w' Hdisp Htd. split.
    + intros Hnomatch. rewrite (join_with_display _ _ _ _ _ _ Hdisp Htd), Hnomatch.
      reflexivity.
    + intros m Hone Hnoaddr.
      rewrite (join_with_display _ _ _ _ _ _ Hdisp Htd), Hone.
      unfold bind at 1. rewrite Hnoaddr. reflexivity.
Qed.

Variable machine_card : string -> string -> string.

(** X8. The slash command [join] asks for an invite only for a cached
    target device whose name is exactly the one given: an unknown name
    is answered with "I don't know that device" and nothing else
    happens; for a known name the invite is requested for that device's
    id before its address is read, so a device without addresses costs
    an invite and then raises [IndexError]. *)
Theorem join_server_by_exact_name (user n : string) (w w' : World) (devs : list Device) :
  target_devices w = (Ok devs, w') ->
  ((forall dev, In dev devs -> name dev <> n) ->
   join_server generate_invite user n w =
     (Ok tt, with_out (out w' ++ [SendMessage "I don't know that device"]) w')) /\
  (forall dev,
     find (fun dev => String.eqb (name dev) n) devs = Some dev ->
     let asked := with_out (out w' ++
                    [Defer;
                     LogInfo (user ++ " requested access to node " ++ n)%string;
                     BotLog (user ++ " requested access to node " ++ n)%string]) w' in
     name dev = n /\ In dev devs /\
     join_server generate_invite user n w =
       (invite <- generate_invite (id dev) ;;
        ip <- first (addresses dev) ;;
        emit (FollowupSend ("This lab is located on `" ++ ip ++ "`")%string
                (Some ("https://login.tailscale.com/admin/invite/" ++ invite)%string)))
         asked /\
     (addresses dev = [] ->
      join_server generate_invite user n w =
        (invite <- generate_invite (id dev) ;; raise IndexError) asked)).
Proof.
  intros Htd. split.
  - intros Hnone. unfold join_server.
    rewrite (bind_ok _ _ _ _ _ (get_device_of _ n _ _ Htd)).
    assert (find (fun dev => String.eqb (name dev) n) devs = None) as ->.
    { destruct (find (fun dev => String.eqb (name dev) n) devs) as [dev|] eqn:E;
        [| reflexivity].
      apply find_some in E as [Hin Hn]. apply String.eqb_eq in Hn.
      exfalso. exact (Hnone dev Hin Hn). }
    reflexivity.
  - intros dev Hfind asked.
    pose proof (find_some _ _ Hfind) as [Hin Hn]. apply String.eqb_eq in Hn.
    assert (Hrun : join_server generate_invite user n w =
       (invite <- generate_invite (id dev) ;;
        ip <- first (addresses dev) ;;
        emit (FollowupSend ("This lab is located on `" ++ ip ++ "`")%string
                (Some ("https://login.tailscale.com/admin/invite/" ++ invite)%string)))
         asked).
    { unfold join_server.
      rewrite (bind_ok _ _ _ _ _ (get_device_of _ n _ _ Htd)), Hfind.
      rewrite !bind_emit. f_equal. unfold asked.
      destruct w'; unfold with_out; cbn. f_equal. now rewrite <- !app_assoc. }
    repeat split; try assumption.
    intros Hnoaddr. rewrite Hrun, Hnoaddr. reflexivity.
Qed.

(** X9. A display card leads back to its machine.  [display_server] for
    a known device with an address posts the card and records the
    message under the device's hostname; a later click on that message,
    with the same device list and no other device of that hostname,
    requests the invite for this very device and answers with its first
    address. *)
Theorem display_then_join (user n ip : string) (rest : list string)
        (message_id : Z) (w w1 : World) (devs : list Device) (dev : Device) :
  target_devices w = (Ok devs, w1) ->
  find (fun d => String.eqb (name d) n) devs = Some dev ->
  addresses dev = ip :: rest ->
  find (fun d => (discord_message_id d =? message_id)%Z) (displays w) = None ->
  let w2 := snd (display_server machine_card n message_id w) in
  fst (display_server machine_card n message_id w) = Ok tt /\
  out w2 = out w1 ++ [SendMessage (machine_card (name dev) ip)] /\
  displays w2 = displays w ++ [{| discord_message_id := message_id;
                                  machine_hostname := hostname dev |}] /\
  forall w3,
    target_devices (with_out (out w2 ++ [Defer]) w2) = (Ok devs, w3) ->
    filter (fun d => String.eqb (hostname d) (hostname dev)) devs = [dev] ->
    join generate_invite user message_id w2 =
      (invite <- generate_invite (id dev) ;;
       emit (FollowupSend ("This lab is located on `" ++ ip ++ "`")%string
               (Some ("https://login.tailscale.com/admin/invite/" ++ invite)%string)))
        (with_out (out w3 ++
                   [LogInfo (user ++ " requested access to node " ++ name dev)%string;
                    BotLog (user ++ " requested access to node " ++ name dev)%string]) w3).
Proof.
  intros Htd Hfind Haddr Hfresh w2.
  pose proof (target_devices_frame _ _ _ Htd) as (_ & _ & Hout).
  assert (Hdisplays : displays w1 = displays w).
  { revert Htd. unfold target_devices, async_cached, target_devices_body, bind, devices, ret.
    destruct (TTLCache.getitem unit_eqb (clock w) tt (devices_cache w)) as [[v|] c].
    - now intros [= _ <-].
    - destruct (parse_machines (api_machines w)); now intros [= _ <-]. }
  assert (Hrun : display_server machine_card n message_id w =
                 (Ok tt,
                  with_displays (displays w1 ++ [{| discord_message_id := message_id;
                                                    machine_hostname := hostname dev |}])
                    (with_out (out w1 ++ [SendMessage (machine_card (name dev) ip)]) w1))).
  { unfold display_server.
    rewrite (bind_ok _ _ _ _ _ (get_device_of _ n _ _ Htd)), Hfind, Haddr.
    reflexivity. }
  unfold w2. rewrite Hrun. cbn [fst snd out displays with_displays with_out].
  split; [reflexivity |]. split; [reflexivity |].
  split; [now rewrite Hdisplays |].
  intros w3 Htd3 Honly.
  rewrite (join_with_display user message_id _
             {| discord_message_id := message_id; machine_hostname := hostname dev |}
             devs w3).
  - cbn [machine_hostname]. rewrite Honly.
    unfold bind at 1. rewrite Haddr. reflexivity.
  - cbn [displays with_displays with_out]. rewrite Hdisplays.
    rewrite (find_app_none _ _ _ Hfresh). simpl. now rewrite Z.eqb_refl.
  - exact Htd3.
Qed.

End WithIssuer.

(** *** Descriptions: deleting, rewriting, listing *)

Lemma stored_without h k ms :
  stored k (filter (fun m => negb (String.eqb (m_hostname m) h)) ms) =
  if String.eqb k h then None else stored k ms.
Proof.
  induction ms as [|m ms IH]; [now destruct (String.eqb k h) |].
  cbn [filter]. destruct (String.eqb_spec (m_hostname m) h) as [Hm|Hm]; cbn [negb].
  - rewrite IH, stored_cons. destruct (String.eqb_spec k h) as [->|Hk]; [reflexivity |].
    destruct (stored k ms); [reflexivity |].
    destruct (String.eqb_spec k (m_hostname m)); [congruence | reflexivity].
  - rewrite !stored_cons, IH. destruct (String.eqb_spec k h) as [->|Hk]; [| reflexivity].
    destruct (String.eqb_spec h (m_hostname m)); [congruence | reflexivity].
Qed.

Lemma undescribe_server_effect refuses w h :
  refuses ("Unset description of " ++ h)%string = None ->
  undescribe_server refuses h w =
  (Ok tt,
   with_descriptions_cache (TTLCache.clear (descriptions_cache w))
     (with_out (out w ++ [SendMessage ("Unset description of " ++ h)%string])
        (with_machines (filter (fun m => negb (String.eqb (m_hostname m) h)) (machines w))
           (machines_seq w) w))).
Proof.
  intros Hsent. unfold undescribe_server, send_message, bind. now rewrite Hsent.
Qed.

Lemma undescribe_server_refused refuses w h e :
  refuses ("Unset description of " ++ h)%string = Some e ->
  undescribe_server refuses h w =
  (Raise e,
   with_machines (filter (fun m => negb (String.eqb (m_hostname m) h)) (machines w))
     (machines_seq w) w).
Proof.
  intros Href. unfold undescribe_server, send_message, bind. now rewrite Href.
Qed.

(** The rows are deleted before the reply is awaited. *)
Lemma undescribe_server_rows refuses w h :
  machines (snd (undescribe_server refuses h w)) =
  filter (fun m => negb (String.eqb (m_hostname m) h)) (machines w).
Proof.
  destruct (refuses ("Unset description of " ++ h)%string) as [e|] eqn:E.
  - now rewrite (undescribe_server_refused _ _ _ _ E).
  - now rewrite (undescribe_server_effect _ _ _ E).
Qed.

Lemma describe_server_seq refuses w h desc :
  machines_seq (snd (describe_server refuses h desc w)) =
  machines_seq (snd (upsert_machine h desc w)).
Proof.
  destruct (refuses ("Set description of " ++ h ++ " to " ++ desc)%string) as [e|] eqn:E.
  - now rewrite (describe_server_refused _ _ _ _ _ E).
  - now rewrite (describe_server_effect _ _ _ _ E).
Qed.

(** The upsert reads the rows and the sequence, nothing else. *)
Lemma upsert_reads_table h d w w' :
  machines w = machines w' -> machines_seq w = machines_seq w' ->
  machines (snd (upsert_machine h d w)) = machines (snd (upsert_machine h d w')).
Proof.
  intros Hm Hs. unfold upsert_machine. cbn [snd machines with_machines].
  now rewrite Hm, Hs.
Qed.

Lemma describe_matching_none scorer limit c ms devs :
  describe_matching scorer limit c ms devs None =
  map (fun dev => (attach_desc (Trie.of_items (description_dict ms)) (name dev), dev)) devs.
Proof.
  unfold describe_matching, matching_names. f_equal.
  assert (Hall : forall l, (forall x, In x l -> In (name x) (map name devs)) ->
                           filter (fun d => str_in (name d) (map name devs)) l = l).
  { intros l. induction l as [|x l IHl]; intros H; simpl; [reflexivity |].
    assert (str_in (name x) (map name devs) = true) as ->.
    { apply str_in_iff. apply (H x). now left. }
    f_equal. apply IHl. intros y Hy. apply H. now right. }
  apply Hall. intros x Hx. now apply in_map.
Qed.

Lemma map_fixes {A} (f : A -> A) l :
  (forall x, In x l -> f x = x) -> map f l = l.
Proof.
  induction l as [|x l IH]; intros H; simpl; [reflexivity |].
  rewrite (H x (or_introl eq_refl)). f_equal. apply IH. intros y Hy. apply H. now right.
Qed.

Lemma filter_none_is_all {A} (f : A -> bool) l :
  (forall x, In x l -> f x = true) -> filter f l = l.
Proof.
  induction l as [|x l IH]; intros H; simpl; [reflexivity |].
  rewrite (H x (or_introl eq_refl)). f_equal. apply IH. intros y Hy. apply H. now right.
Qed.

Section Descriptions.
Variable scorer : string -> string -> Q.

(** X10. [undescribe_server] deletes the row, awaits the reply and
    clears the search cache last.  In any case the table holds nothing
    for [h] afterwards and everything else as before.  When the reply is
    sent, the next [target_devices_descriptions(None)], whatever the
    caches held, lists every target device with the description of the
    longest hostname that is still stored, so a device that only [h]
    matched comes back with the empty string.  When the reply is
    refused, the handler raises with the cache not cleared, and a search
    result that was live before is served again as it was. *)
Theorem description_after_undescribe
        (refuses : string -> option exn) (w : World) (h : string) :
  let msg := ("Unset description of " ++ h)%string in
  let w1 := snd (undescribe_server refuses h w) in
  stored h (machines w1) = None /\
  (forall k, k <> h -> stored k (machines w1) = stored k (machines w)) /\
  (refuses msg = None ->
   fst (undescribe_server refuses h w) = Ok tt /\
   forall devs w2,
     target_devices w1 = (Ok devs, w2) ->
     exists r w3,
       target_devices_descriptions scorer None w1 = (Ok r, w3) /\
       map snd r = devs /\
       forall d dev,
         In (d, dev) r ->
         longest_description (machines w1) (name dev) d /\
         ((forall k, stored k (machines w) <> None -> prefix k (name dev) = true -> k = h) ->
          d = ""%string)) /\
  (forall e r c,
      refuses msg = Some e ->
      TTLCache.getitem query_eqb (clock w) None (descriptions_cache w) = (Some r, c) ->
      fst (undescribe_server refuses h w) = Raise e /\
      target_devices_descriptions scorer None w1 = (Ok r, with_descriptions_cache c w1)).
Proof.
  intros msg w1.
  assert (Hst : forall k, stored k (machines w1) =
                          if String.eqb k h then None else stored k (machines w)).
  { intros k. unfold w1. rewrite undescribe_server_rows. apply stored_without. }
  split; [rewrite Hst; now rewrite String.eqb_refl |].
  split.
  { intros k Hk. rewrite Hst. destruct (String.eqb_spec k h); [contradiction | reflexivity]. }
  split.
  - intros Hsent. split; [now rewrite (undescribe_server_effect _ _ _ Hsent) |].
    intros devs w2 Htd.
    unfold target_devices_descriptions, target_devices_descriptions_with, async_cached.
    assert (Hmiss : TTLCache.getitem query_eqb (clock w1) None (descriptions_cache w1)
                    = (None, descriptions_cache w1)).
    { unfold w1. rewrite (undescribe_server_effect _ _ _ Hsent). reflexivity. }
    rewrite Hmiss.
    unfold target_devices_descriptions_body, bind, all_machines, ret. rewrite Htd.
    eexists. eexists. split; [reflexivity |].
    rewrite describe_matching_none. split.
    + rewrite map_map. simpl. apply map_id.
    + intros d dev Hin. apply in_map_iff in Hin as (dev' & [= <- ->] & _).
      pose proof (attach_desc_longest (machines w1) (name dev)) as Hl.
      split; [exact Hl |].
      intros Honly. destruct Hl as [_ Hnone]. apply Hnone.
      intros k Hk. rewrite Hst in Hk.
      destruct (String.eqb_spec k h) as [Heq|Hne]; [congruence |].
      destruct (prefix k (name dev)) eqn:Ep; [| reflexivity].
      exfalso. apply Hne. now apply Honly.
  - intros e r c Href Hlive. unfold w1.
    rewrite (undescribe_server_refused _ _ _ _ Href).
    split; [reflexivity |].
    unfold target_devices_descriptions, target_devices_descriptions_with, async_cached.
    cbn [snd clock descriptions_cache with_machines].
    rewrite Hlive. reflexivity.
Qed.

End Descriptions.

(** X11. Describing a hostname that has no description and deleting it
    again leaves the rows of the machine table exactly as they were,
    whether or not the replies are sent. *)
Theorem describe_then_undescribe_restores
        (refuses : string -> option exn) (w : World) (h desc : string) :
  stored h (machines w) = None ->
  machines (snd (undescribe_server refuses h (snd (describe_server refuses h desc w)))) =
  machines w.
Proof.
  intros Hnew. rewrite undescribe_server_rows, describe_server_rows.
  unfold upsert_machine. cbn [snd machines with_machines].
  apply stored_none_iff in Hnew. rewrite Hnew.
  rewrite filter_app. cbn [filter m_hostname]. rewrite String.eqb_refl. cbn [negb].
  rewrite app_nil_r. apply filter_none_is_all.
  intros m Hin. apply negb_true_iff.
  destruct (String.eqb (m_hostname m) h) eqn:E; [| reflexivity].
  assert (existsb (fun m0 => String.eqb (m_hostname m0) h) (machines w) = true) as Hex.
  { apply existsb_exists. now exists m. }
  congruence.
Qed.

(** X12. The describe commands keep hostnames unique and the last
    description wins, whether or not their replies are sent: a table
    without two rows for one hostname stays so under [describe_server]
    and [undescribe_server], and describing a
    hostname twice leaves the same rows as describing it once with the
    second text. *)
Theorem describe_keeps_one_row_per_hostname
        (refuses : string -> option exn) (w : World) (h d1 d2 : string) :
  NoDup (map m_hostname (machines w)) ->
  NoDup (map m_hostname (machines (snd (describe_server refuses h d1 w)))) /\
  NoDup (map m_hostname (machines (snd (undescribe_server refuses h w)))) /\
  machines (snd (describe_server refuses h d2 (snd (describe_server refuses h d1 w)))) =
  machines (snd (describe_server refuses h d2 w)).
Proof.
  intros Hnd.
  assert (Hkeep : forall d (ms : list Machine),
             map m_hostname
               (map (fun m => if String.eqb (m_hostname m) h then set_description d m else m) ms)
             = map m_hostname ms).
  { intros d ms. rewrite map_map. apply map_ext.
    intros m. now destruct (String.eqb (m_hostname m) h). }
  split; [| split].
  - rewrite describe_server_rows.
    unfold upsert_machine. cbn [snd machines with_machines].
    destruct (existsb (fun m => String.eqb (m_hostname m) h) (machines w)) eqn:E.
    + now rewrite Hkeep.
    + rewrite map_app. cbn [map m_hostname].
      apply NoDup_app; [exact Hnd | repeat constructor; intros [] |].
      intros x Hx [<- | []]. apply in_map_iff in Hx as (m & Hm & Hin).
      assert (existsb (fun m0 => String.eqb (m_hostname m0) h) (machines w) = true) as Hex.
      { apply existsb_exists. exists m. split; [assumption |].
        rewrite Hm. apply String.eqb_refl. }
      congruence.
  - rewrite undescribe_server_rows.
    revert Hnd. induction (machines w) as [|m ms IH]; [intros; constructor |].
    cbn [map filter]. intros Hnd. inversion Hnd as [|? ? Hnotin Hnd']; subst.
    destruct (negb (String.eqb (m_hostname m) h)); [| now apply IH].
    cbn [map]. constructor; [| now apply IH].
    intros Hin. apply Hnotin. apply in_map_iff in Hin as (m' & Hm' & Hin').
    apply filter_In in Hin' as [Hin' _]. apply in_map_iff. now exists m'.
  - rewrite !describe_server_rows.
    rewrite (upsert_reads_table h d2 (snd (describe_server refuses h d1 w))
               (snd (upsert_machine h d1 w)))
      by (apply describe_server_rows || apply describe_server_seq).
    unfold upsert_machine. cbn [snd machines with_machines machines_seq].
    destruct (existsb (fun m => String.eqb (m_hostname m) h) (machines w)) eqn:E;
      cbn [machines with_descriptions_cache with_out with_machines machines_seq].
    + assert (existsb (fun m => String.eqb (m_hostname m) h)
                (map (fun m => if String.eqb (m_hostname m) h then set_description d1 m else m)
                     (machines w)) = true) as ->.
      { apply existsb_exists in E as (m & Hin & Hm). apply existsb_exists.
        exists (set_description d1 m). split; [| exact Hm].
        apply in_map_iff. exists m. now rewrite Hm. }
      rewrite map_map. apply map_ext. intros m.
      destruct (String.eqb (m_hostname m) h) eqn:Em; cbn [m_hostname set_description].
      * now rewrite Em.
      * now rewrite Em.
    + rewrite existsb_app. cbn [existsb m_hostname]. rewrite String.eqb_refl, orb_true_r.
      rewrite map_app. cbn [map m_hostname]. rewrite String.eqb_refl. f_equal.
      apply map_fixes. intros m Hin.
      destruct (String.eqb (m_hostname m) h) eqn:Em; [| reflexivity].
      assert (existsb (fun m0 => String.eqb (m_hostname m0) h) (machines w) = true) as Hex.
      { apply existsb_exists. now exists m. }
      congruence.
Qed.

End InfraMore.

(* ------------------------------------------------------------------ *)
(** ** More on todos: ids, errors, listings *)

Module TodoMore.
Import Todos TodoFacts.

Lemma update_ids t f tbl :
  (forall r, id (f r) = id r) ->
  map id (rows (update t f tbl)) = map id (rows tbl).
Proof.
  intros Hf. unfold update. cbn [rows]. rewrite map_map. apply map_ext.
  intros r. destruct (id r =? id t)%Z; [apply Hf | reflexivity].
Qed.

Lemma on_todo_numbered i f tbl :
  (forall r, id (f r) = id r) ->
  well_numbered tbl -> well_numbered (snd (on_todo i f tbl)).
Proof.
  intros Hf (Hnd & Hseq & Hr). unfold on_todo.
  destruct (convert i tbl) as [t|e]; cbn [snd].
  - split; [| split].
    + now rewrite update_ids.
    + exact Hseq.
    + intros r Hin. unfold update in Hin. cbn [rows] in Hin. cbn [seq update].
      apply in_map_iff in Hin as (r0 & <- & Hin0).
      destruct (id r0 =? id t)%Z; [rewrite Hf |]; now apply Hr.
  - unfold well_numbered. auto.
Qed.

Lemma exec_numbered tbl c : well_numbered tbl -> well_numbered (exec tbl c).
Proof.
  intros Hw. destruct c; unfold exec;
    try (apply on_todo_numbered; [intros r; reflexivity | exact Hw]).
  destruct Hw as (Hnd & Hseq & Hr). unfold todo_new. cbn [snd].
  split; [| split]; cbn [rows seq].
  - rewrite map_app. cbn [map id].
    apply NoDup_app; [exact Hnd | repeat constructor; intros [] |].
    intros x Hx [<- | []]. apply in_map_iff in Hx as (t & Ht & Hin).
    specialize (Hr t Hin). lia.
  - lia.
  - intros t Hin. apply in_app_or in Hin as [Hin | [<- | []]].
    + specialize (Hr t Hin). lia.
    + cbn [id]. lia.
Qed.

Lemma run_numbered cs : well_numbered (run cs).
Proof.
  unfold run.
  assert (H : forall tbl, well_numbered tbl -> well_numbered (fold_left exec cs tbl)).
  { induction cs as [|c cs IH]; intros tbl Hw; simpl; [exact Hw |].
    apply IH. now apply exec_numbered. }
  apply H. split; [constructor |]. split; [cbn; lia | intros t []].
Qed.

Lemma get_unique tbl t :
  NoDup (map id (rows tbl)) -> In t (rows tbl) -> get (id t) tbl = Some t.
Proof.
  unfold get. induction (rows tbl) as [|r l IH]; intros Hnd Hin; [destruct Hin |].
  cbn [map] in Hnd. inversion Hnd as [|? ? Hnotin Hnd']; subst.
  cbn [find]. destruct Hin as [-> | Hin].
  - now rewrite Z.eqb_refl.
  - destruct (Z.eqb_spec (id r) (id t)) as [E|E]; [| now apply IH].
    exfalso. apply Hnotin. rewrite E. now apply in_map.
Qed.

(** X14. Todo ids identify todos: in every table the commands build, no
    two todos share an id, every id is at least 1 and below the next
    value of the sequence, and looking a todo up by its id finds that
    very todo. *)
Theorem todo_ids_identify (cs : list command) :
  NoDup (map id (rows (run cs))) /\
  (forall t, In t (rows (run cs)) ->
             (1 <= id t < seq (run cs))%Z /\ get (id t) (run cs) = Some t) /\
  (forall a d s now,
      fst (todo_new a d s now (run cs)) =
        Ok {| id := seq (run cs); assigned := a; started := now; completed := None;
              cancelled := false; deadline := d; content := s |} /\
      get (seq (run cs)) (run cs) = None).
Proof.
  destruct (run_numbered cs) as (Hnd & Hseq & Hr).
  split; [exact Hnd |]. split.
  - intros t Hin. split; [now apply Hr | now apply get_unique].
  - intros a d s now. split; [reflexivity |].
    unfold get. destruct (find (fun t => (id t =? seq (run cs))%Z) (rows (run cs)))
      as [t|] eqn:E; [| reflexivity].
    apply find_some in E as [Hin Hid]. apply Z.eqb_eq in Hid.
    specialize (Hr t Hin). lia.
Qed.




Lemma update_other t f tbl j :
  (forall r, id (f r) = id r) ->
  j <> id t -> get j (update t f tbl) = get j tbl.
Proof.
  intros Hf Hj. unfold get, update. cbn [rows].
  induction (rows tbl) as [|r l IH]; [reflexivity |].
  cbn [map find]. destruct (Z.eqb_spec (id r) (id t)) as [E|E].
  - rewrite Hf. destruct (Z.eqb_spec (id r) j) as [E2|E2]; [congruence | exact IH].
  - destruct (id r =? j)%Z; [reflexivity | exact IH].
Qed.

Lemma update_same t f tbl :
  (forall r, id (f r) = id r) ->
  get (id t) tbl = Some t -> get (id t) (update t f tbl) = Some (f t).
Proof.
  intros Hf. unfold get, update. cbn [rows].
  induction (rows tbl) as [|r l IH]; [discriminate |].
  cbn [map find]. destruct (Z.eqb_spec (id r) (id t)) as [E|E].
  - intros [= ->]. rewrite Hf, Z.eqb_refl. reflexivity.
  - intros H. destruct (Z.eqb_spec (id r) (id t)); [contradiction | now apply IH].
Qed.

Lemma get_id i tbl t : get i tbl = Some t -> id t = i.
Proof.
  unfold get. intros H. apply find_some in H as [_ H]. now apply Z.eqb_eq in H.
Qed.

(** X16. A command on one todo leaves the others alone: whatever the
    command, every other id is looked up to the same todo as before and
    the table has the same ids in the same order; creating a todo adds
    one row at the end and keeps the others. *)
Theorem commands_touch_only_their_todo (tbl : Table) (c : command) :
  (forall i j, target c = Some i -> j <> i ->
               get j (exec tbl c) = get j tbl /\
               map id (rows (exec tbl c)) = map id (rows tbl)) /\
  (target c = None ->
   exists t, rows (exec tbl c) = rows tbl ++ [t] /\ id t = seq tbl /\
             completed t = None /\ cancelled t = false).
Proof.
  split.
  - intros i j Ht Hj.
    assert (Hon : forall f, (forall r, id (f r) = id r) ->
                    get j (snd (on_todo i f tbl)) = get j tbl /\
                    map id (rows (snd (on_todo i f tbl))) = map id (rows tbl)).
    { intros f Hf. unfold on_todo, convert.
      destruct (get i tbl) as [t|] eqn:Eg; cbn [snd]; [| auto].
      pose proof (get_id _ _ _ Eg) as Hid. split.
      - apply update_other; [exact Hf | congruence].
      - now apply update_ids. }
    destruct c; cbn [target] in Ht; try discriminate; injection Ht as ->;
      unfold exec, todo_mark_complete, todo_mark_cancelled, todo_assign,
        todo_unassign, todo_edit_content, todo_edit_deadline, todo_remove_deadline;
      apply Hon; intros r; reflexivity.
  - intros Ht. destruct c; cbn [target] in Ht; try discriminate.
    unfold exec, todo_new. cbn [snd rows]. eexists. split; [reflexivity |].
    cbn. auto.
Qed.

(** X17. Completing a todo that was cancelled does not bring it back: the
    completion time is renewed, the cancelled flag stays, and with
    distinct ids the todo is still listed under cancelled and not under
    completed.  Cancelling a completed todo moves it to the cancelled
    listing. *)
Theorem completing_a_cancelled_todo_keeps_it_cancelled
        (tbl : Table) (i now : Z) (t : Todo) :
  NoDup (map id (rows tbl)) ->
  get i tbl = Some t ->
  (cancelled t = true ->
   let t' := set_completed (Some now) true t in
   let tbl' := snd (todo_mark_complete i now tbl) in
   fst (todo_mark_complete i now tbl) = Ok t' /\
   get i tbl' = Some t' /\
   In t' (todo_list_cancelled None tbl') /\
   (forall x, In x (todo_list_completed None tbl') -> id x <> i)) /\
  (let t' := set_completed (Some now) true t in
   let tbl' := snd (todo_mark_cancelled i now tbl) in
   get i tbl' = Some t' /\
   In t' (todo_list_cancelled None tbl') /\
   (forall x, In x (todo_list_completed None tbl') -> id x <> i) /\
   (forall x, In x (todo_list None tbl') -> id x <> i)).
Proof.
  intros Hnd Hget. pose proof (get_id _ _ _ Hget) as Hid. subst i.
  assert (Hrow : forall f tbl', (forall r, id (f r) = id r) ->
                   tbl' = update t f tbl ->
                   get (id t) tbl' = Some (f t) /\
                   In (f t) (rows tbl') /\
                   forall x, In x (rows tbl') -> id x = id t -> x = f t).
  { intros f tbl' Hf ->.
    pose proof (update_same t f tbl Hf Hget) as Hs.
    split; [exact Hs |]. split.
    - unfold get in Hs. now apply find_some in Hs as [Hin _].
    - intros x Hin Hx.
      assert (Hnd' : NoDup (map id (rows (update t f tbl)))) by now rewrite update_ids.
      pose proof (get_unique _ x Hnd' Hin) as Hgx. rewrite Hx, Hs in Hgx. congruence. }
  split.
  - intros Hc t' tbl'.
    assert (Etbl : tbl' = update t (fun r => set_completed (Some now) (cancelled r) r) tbl).
    { unfold tbl', todo_mark_complete, on_todo, convert. now rewrite Hget. }
    assert (Et : set_completed (Some now) (cancelled t) t = t') by (unfold t'; now rewrite Hc).
    destruct (Hrow (fun r => set_completed (Some now) (cancelled r) r) tbl'
                   (fun r => eq_refl) Etbl) as (Hg & Hin & Huniq).
    cbv beta in Hg, Hin, Huniq. rewrite Et in Hg, Hin, Huniq.
    split; [| split; [exact Hg | split]].
    + unfold todo_mark_complete, on_todo, convert. rewrite Hget. cbn [fst]. now f_equal.
    + apply listing_in. split; [exact Hin | reflexivity].
    + intros x Hx Hxid. apply listing_in in Hx as [Hx Hq].
      rewrite (Huniq x Hx Hxid) in Hq. discriminate.
  - intros t' tbl'.
    assert (Etbl : tbl' = update t (set_completed (Some now) true) tbl).
    { unfold tbl', todo_mark_cancelled, on_todo, convert. now rewrite Hget. }
    destruct (Hrow (set_completed (Some now) true) tbl' (fun r => eq_refl) Etbl)
      as (Hg & Hin & Huniq).
    split; [exact Hg | split; [| split]].
    + apply listing_in. split; [exact Hin | reflexivity].
    + intros x Hx Hxid. apply listing_in in Hx as [Hx Hq].
      rewrite (Huniq x Hx Hxid) in Hq. discriminate.
    + intros x Hx Hxid. apply listing_in in Hx as [Hx Hq].
      rewrite (Huniq x Hx Hxid) in Hq. discriminate.
Qed.

Lemma insert_weakly_sorted x s :
  (forall a l1 l2, s = l1 ++ a :: l2 -> forall y, In y l2 -> (id y <= id a)%Z) ->
  forall a l1 l2, insert_by by_id_desc x s = l1 ++ a :: l2 ->
                  forall y, In y l2 -> (id y <= id a)%Z.
Proof.
  induction s as [|z s IH]; intros Hs a l1 l2 E y Hy.
  - destruct l1 as [|b l1]; [| destruct l1; discriminate].
    simpl in E. injection E as <- <-. destruct Hy.
  - cbn [insert_by] in E. unfold by_id_desc at 1 in E.
    destruct (Z.ltb_spec (id x) (id z)) as [Hlt|Hge].
    + destruct l1 as [|b l1]; simpl in E; injection E as <- E.
      * subst l2. apply insert_by_in in Hy as [-> | Hy]; [lia |].
        apply (Hs z [] s eq_refl y Hy).
      * apply (IH (fun a0 l0 l3 E0 => Hs a0 (z :: l0) l3 (f_equal (cons z) E0))
                  a l1 l2 E y Hy).
    + destruct l1 as [|b l1]; simpl in E; injection E as <- E.
      * subst l2. destruct Hy as [<- | Hy]; [lia |].
        pose proof (Hs z [] s eq_refl y Hy). lia.
      * apply (Hs a l1 l2 E y Hy).
Qed.

Lemma sort_weakly_sorted l : forall a l1 l2,
  sort_by by_id_desc l = l1 ++ a :: l2 -> forall y, In y l2 -> (id y <= id a)%Z.
Proof.
  induction l as [|x l IH]; cbn [sort_by].
  - intros a [|b l1] l2 E; discriminate.
  - now apply insert_weakly_sorted.
Qed.

Lemma nodup_ids_filter (f : Todo -> bool) l :
  NoDup (map id l) -> NoDup (map id (filter f l)).
Proof.
  induction l as [|x l IH]; cbn [map filter]; intros Hnd; [constructor |].
  inversion Hnd as [|? ? Hnotin Hnd']; subst.
  destruct (f x); [| now apply IH].
  cbn [map]. constructor; [| now apply IH].
  intros Hin. apply Hnotin. apply in_map_iff in Hin as (y & Hy & Hin).
  apply filter_In in Hin as [Hin _]. apply in_map_iff. now exists y.
Qed.

Lemma newest_first_of l :
  NoDup (map id l) ->
  (forall a l1 l2, l = l1 ++ a :: l2 -> forall y, In y l2 -> (id y <= id a)%Z) ->
  newest_first l.
Proof.
  induction l as [|x l IH]; intros Hnd Hs; [exact I |].
  cbn [map] in Hnd. inversion Hnd as [|? ? Hnotin Hnd']; subst.
  split.
  - intros y Hy. pose proof (Hs x [] l eq_refl y Hy) as Hle.
    assert (id y <> id x); [| lia].
    intros E. apply Hnotin. rewrite <- E. now apply in_map.
  - apply IH; [exact Hnd' |].
    intros a l1 l2 E. apply (Hs a (x :: l1) l2). now rewrite E.
Qed.

Lemma filter_both {A} (f g : A -> bool) l :
  filter (fun x => f x && g x) l = filter f (filter g l).
Proof.
  induction l as [|x l IH]; simpl; [reflexivity |].
  destruct (g x); simpl.
  - rewrite andb_true_r. destruct (f x); now rewrite IH.
  - now rewrite andb_false_r.
Qed.

Lemma listing_unfold q a tbl :
  todo_list_inner q a tbl =
  sort_by by_id_desc
    (filter q (match a with
               | Some a => filter (assigned_to a) (rows tbl)
               | None => rows tbl
               end)).
Proof.
  unfold todo_list_inner. destruct a as [a|]; [| reflexivity].
  f_equal. apply (filter_both q (assigned_to a)).
Qed.

(** X18. Every listing shows exactly the todos its query selects, the
    newest first: with distinct ids the result is strictly descending
    in the id, and a todo is listed exactly when it is in the table,
    passes the query and, when an assignee is given, is assigned to
    that member (an unassigned todo never is). *)
Theorem listings_are_newest_first (q : Todo -> bool) (a : option Z) (tbl : Table) :
  NoDup (map id (rows tbl)) ->
  newest_first (todo_list_inner q a tbl) /\
  forall t, In t (todo_list_inner q a tbl) <->
            In t (rows tbl) /\ q t = true /\
            match a with Some a => assigned t = Some a | None => True end.
Proof.
  intros Hnd. rewrite listing_unfold. split.
  - apply newest_first_of.
    + apply (Permutation_NoDup (l := map id
               (filter q match a with
                         | Some a0 => filter (assigned_to a0) (rows tbl)
                         | None => rows tbl
                         end))).
      * apply Permutation_map. symmetry. apply sort_by_perm.
      * apply nodup_ids_filter. destruct a; [now apply nodup_ids_filter | exact Hnd].
    + apply sort_weakly_sorted.
  - intros t. rewrite sort_by_in, filter_In. destruct a as [a|].
    + rewrite filter_In. unfold assigned_to.
      destruct (assigned t) as [b|]; [| intuition discriminate].
      rewrite Z.eqb_eq. split.
      * intros [[Hin ->] Hq]. auto.
      * intros (Hin & Hq & [= ->]). auto.
    + tauto.
Qed.

(** X19. The [todos] command and its siblings split a member's todos:
    [list_todos] shows the caller's in-progress todos, and for any member
    the three listings together are a rearrangement of the todos
    assigned to that member. *)
Theorem member_listings_partition (a : Z) (tbl : Table) :
  (forall t, In t (list_todos a tbl) <->
             In t (rows tbl) /\ completed t = None /\ assigned t = Some a) /\
  Permutation (list_todos a tbl ++ todo_list_completed (Some a) tbl ++
               todo_list_cancelled (Some a) tbl)
              (filter (assigned_to a) (rows tbl)).
Proof.
  split.
  - intros t. unfold list_todos, todo_list. rewrite listing_unfold.
    rewrite sort_by_in, !filter_In. unfold in_progress_p, assigned_to, is_null.
    destruct (completed t), (assigned t) as [b|]; try (intuition discriminate).
    rewrite Z.eqb_eq. split.
    + intros [[Hin ->] _]. auto.
    + intros (Hin & _ & [= ->]). auto.
  - unfold list_todos, todo_list, todo_list_completed, todo_list_cancelled.
    rewrite !listing_unfold, !sort_by_perm.
    apply three_way_split. apply exactly_one_state.
Qed.

(** X20. The status printed for a todo says which listing it is in: a
    todo of the table is listed as in progress exactly when it renders as
    in progress, as completed exactly when it renders as completed, and
    as cancelled exactly when it renders as cancelled, each time with its
    own completion time. *)
Theorem rendered_status_matches_listing (tbl : Table) (t : Todo) :
  In t (rows tbl) ->
  (In t (todo_list None tbl) <-> render_status t = InProgress (deadline t)) /\
  (In t (todo_list_completed None tbl) <->
   exists c, completed t = Some c /\ render_status t = Completed c) /\
  (In t (todo_list_cancelled None tbl) <->
   exists c, completed t = Some c /\ render_status t = Cancelled c).
Proof.
  intros Hin.
  pose proof (listing_in in_progress_p tbl t) as L1.
  pose proof (listing_in completed_p tbl t) as L2.
  pose proof (listing_in cancelled_p tbl t) as L3.
  change (todo_list_inner in_progress_p None tbl) with (todo_list None tbl) in L1.
  change (todo_list_inner completed_p None tbl) with (todo_list_completed None tbl) in L2.
  change (todo_list_inner cancelled_p None tbl) with (todo_list_cancelled None tbl) in L3.
  rewrite L1, L2, L3.
  unfold in_progress_p, completed_p, cancelled_p, render_status, is_null.
  destruct (completed t) as [c|], (cancelled t); simpl;
    (split; [| split]); split; intros H;
    first [ discriminate H
          | split; [exact Hin | reflexivity]
          | reflexivity
          | eexists; split; reflexivity
          | destruct H as [Hrow Hq]; discriminate Hq
          | destruct H as (c' & H1 & H2); discriminate ].
Qed.

End TodoMore.

(* ------------------------------------------------------------------ *)
(** ** The choices offered while a machine name is typed *)

Module AutocompleteFacts.
Import Infra InfraFacts.

Section WithScorer.
Variable scorer : string -> string -> Q.

(** X13. What [machine_autocomplete] offers when no result for the
    input is cached.  The values are display names of the target devices
    that [target_devices] returns, in their order: all of them for an
    empty input, and for any other input exactly those that [extract]
    lets through (at most 25 names, each scoring at least 0.5, and a
    name that scores at least 0.5 and is left out lost to 25 names that
    score no less).  The label of a choice is the name alone when the
    longest stored hostname that is a prefix of the name has no
    description, and the description followed by the name in brackets
    otherwise. *)
Theorem autocomplete_choices (w w1 : World) (current : string) (devs : list Device) :
  fst (TTLCache.getitem query_eqb (clock w) (autocomplete_query current)
         (descriptions_cache w)) = None ->
  target_devices w = (Ok devs, w1) ->
  exists cs,
    fst (machine_autocomplete scorer current w) = Ok cs /\
    (current = ""%string -> map snd cs = map name devs) /\
    (current <> ""%string ->
     exists names,
       names = map (fun x => fst (fst x))
                   (extract scorer current (map name devs) 25 (1 # 2)) /\
       map snd cs = map name (filter (fun dev => str_in (name dev) names) devs) /\
       (length names <= 25)%nat /\
       (forall n, In n names -> In n (map name devs) /\ (1 # 2 <= scorer current n)%Q) /\
       (forall n, In n (map name devs) -> (1 # 2 <= scorer current n)%Q -> ~ In n names ->
                  length names = 25%nat /\
                  forall m, In m names -> (scorer current n <= scorer current m)%Q)) /\
    (forall label value,
        In (label, value) cs ->
        In value (map name devs) /\
        exists d,
          longest_description (machines w) value d /\
          label = (if String.eqb d "" then value else d ++ " (" ++ value ++ ")")%string).
Proof.
  intros Hmiss Htd.
  pose proof (target_devices_descriptions_miss scorer _ _ _ _ Hmiss Htd) as Hrun.
  set (r := describe_matching scorer 25 (1 # 2) (machines w) devs
              (autocomplete_query current)) in *.
  set (label_of := fun dd : string * Device =>
         let '(desc, dev) := dd in
         (if String.eqb desc "" then name dev
          else (desc ++ " (" ++ name dev ++ ")")%string, name dev)).
  assert (Hcs : fst (machine_autocomplete scorer current w) = Ok (map label_of r)).
  { unfold machine_autocomplete, bind, ret.
    destruct (target_devices_descriptions scorer (autocomplete_query current) w)
      as [[r'|e] w'] eqn:E; cbn [fst] in Hrun; [| discriminate].
    injection Hrun as ->. reflexivity. }
  assert (Hvalues : map snd (map label_of r) = map name (map snd r)).
  { rewrite !map_map. apply map_ext. now intros [d dev]. }
  exists (map label_of r). split; [exact Hcs |]. split; [| split].
  - intros ->. rewrite Hvalues. unfold r. cbn [autocomplete_query String.eqb].
    rewrite InfraMore.describe_matching_none, !map_map. reflexivity.
  - intros Hne. rewrite Hvalues. unfold r, autocomplete_query.
    destruct (String.eqb_spec current ""); [contradiction |].
    destruct (describe_matching_exact scorer (machines w) devs current)
      as (names & Hnames & Hlen & Hin & Hbest & Hmap & _).
    exists names. rewrite Hmap. auto.
  - intros label value Hin. apply in_map_iff in Hin as ([d dev] & Heq & Hin).
    injection Heq as <- <-. unfold r in Hin.
    apply in_describe_matching in Hin as (-> & Hdev & _).
    split; [now apply in_map |].
    eexists. split; [apply attach_desc_longest | reflexivity].
Qed.

End WithScorer.
End AutocompleteFacts.

(* ------------------------------------------------------------------ *)
(** ** The site: who is asking, and what they may read and change *)

Module SiteFacts.
Import Authorization Writeups.

(** X21. What [authenticate] makes of a request.  The scope
    "authenticated" is granted exactly to a decoded user and "admin"
    exactly to a decoded admin; an anonymous request gets no scope and
    its session is left alone; a user comes from a token that decodes to
    it, the token of the query if there is one and that of the session
    otherwise, and this token is the one kept in the session; a query
    token that does not decode is not made up for by the session. *)
Theorem authenticate_credentials
        (decode : string -> option (string * Z * bool)) (req : Request) :
  let a := authenticate decode req in
  (In "authenticated" (scopes a) <-> is_authenticated (auth_user a) = true) /\
  (In "admin" (scopes a) <-> is_admin (auth_user a) = true) /\
  (is_authenticated (auth_user a) = false ->
   scopes a = [] /\ session_after a = session_token req) /\
  (forall n d adm,
      auth_user a = User n d adm ->
      exists t, decode t = Some (n, d, adm) /\ session_after a = Some t /\
                (query_token req = Some t \/
                 (query_token req = None /\ session_token req = Some t))) /\
  (forall t, query_token req = Some t -> decode t = None ->
             auth_user a = LUnauthenticatedUser).
Proof.
  assert (Hgranted : forall t n d adm,
             decode t = Some (n, d, adm) ->
             (query_token req = Some t \/
              (query_token req = None /\ session_token req = Some t)) ->
             authenticate decode req =
               {| scopes := "authenticated" :: (if adm then ["admin"] else []);
                  auth_user := User n d adm; session_after := Some t |}).
  { intros t n d adm E [Hq | [Hq Hs]]; unfold authenticate; rewrite Hq; [| rewrite Hs];
      now rewrite E. }
  assert (Hrefused :
            (forall t, (query_token req = Some t \/
                        (query_token req = None /\ session_token req = Some t)) ->
                       decode t = None) ->
            authenticate decode req =
              {| scopes := []; auth_user := LUnauthenticatedUser;
                 session_after := session_token req |}).
  { intros Hnone. unfold authenticate.
    destruct (query_token req) as [t|]; [| destruct (session_token req) as [t|]];
      try rewrite (Hnone t) by auto; reflexivity. }
  assert (Hcases :
            (exists t n d adm,
                decode t = Some (n, d, adm) /\
                (query_token req = Some t \/
                 (query_token req = None /\ session_token req = Some t))) \/
            (forall t, (query_token req = Some t \/
                        (query_token req = None /\ session_token req = Some t)) ->
                       decode t = None)).
  { destruct (query_token req) as [t|]; [| destruct (session_token req) as [t|]].
    - destruct (decode t) as [[[n d] adm]|] eqn:E.
      + left. exists t, n, d, adm. auto.
      + right. intros t' [[= <-] | [[=] _]]. exact E.
    - destruct (decode t) as [[[n d] adm]|] eqn:E.
      + left. exists t, n, d, adm. auto.
      + right. intros t' [[=] | [_ [= <-]]]. exact E.
    - right. intros t' [[=] | [_ [=]]]. }
  intros a. unfold a. clear a.
  destruct Hcases as [(t & n & d & adm & E & Hfrom) | Hnone].
  - rewrite (Hgranted _ _ _ _ E Hfrom).
    cbn [scopes auth_user session_after is_authenticated is_admin].
    split; [split; [reflexivity | intros _; now left] |].
    split.
    { destruct adm; cbn [In]; split; try reflexivity; try discriminate.
      - intros _. right. now left.
      - intros [H | []]. discriminate H. }
    split; [discriminate |].
    split.
    + intros n' d' adm' [= <- <- <-]. exists t. auto.
    + intros t' Hq Hbad. destruct Hfrom as [Hq' | [Hq' _]]; congruence.
  - rewrite (Hrefused Hnone).
    cbn [scopes auth_user session_after is_authenticated is_admin In].
    split; [split; [intros [] | discriminate] |].
    split; [split; [intros [] | discriminate] |].
    split; [auto |].
    split; [discriminate | reflexivity].
Qed.

Lemma find_id (i : Z) (l : list Writeup) (w : Writeup) :
  find (fun w => (id w =? i)%Z) l = Some w -> id w = i /\ In w l.
Proof.
  intros H. apply find_some in H as [Hin Hid]. split; [now apply Z.eqb_eq | assumption].
Qed.

Lemma find_after_delete (i : Z) (l : list Writeup) :
  find (fun w => (id w =? i)%Z) (filter (fun x => negb (id x =? i)%Z) l) = None.
Proof.
  induction l as [|x l IH]; [reflexivity |]. cbn [filter].
  destruct (id x =? i)%Z eqn:E; cbn [negb]; [exact IH |].
  cbn [find]. now rewrite E.
Qed.

Lemma find_after_edit (i : Z) (l : list Writeup) (w w' : Writeup) :
  find (fun w => (id w =? i)%Z) l = Some w -> id w' = i ->
  find (fun w => (id w =? i)%Z) (map (fun x => if (id x =? i)%Z then w' else x) l) = Some w'.
Proof.
  intros Hfind Hid. induction l as [|x l IH]; [discriminate |].
  cbn [find map] in *. destruct (id x =? i)%Z eqn:E.
  - rewrite Hid, Z.eqb_refl. reflexivity.
  - rewrite E. now apply IH.
Qed.

Lemma can_edit_iff (u : user) (a : Z) :
  can_edit u (Some a) = true <->
  exists n d adm, u = User n d adm /\ (adm = true \/ d = a).
Proof.
  destruct u as [n d adm|]; cbn [can_edit].
  - rewrite orb_true_iff, Z.eqb_eq. split.
    + intros [H|H]; exists n, d, adm; auto.
    + intros (n' & d' & adm' & [= <- <- <-] & [H|H]); auto.
  - split; [discriminate | intros (n & d & adm & H & _); discriminate].
Qed.

Lemma authenticated_scope (scopes : list string) :
  In "authenticated" scopes -> negb (str_in "authenticated" scopes) = false.
Proof. intros H. apply InfraFacts.str_in_iff in H. now rewrite H. Qed.

(** X22. Only its author or an admin changes a writeup.  For anyone else
    (anonymous, or a user who is neither), and for an id that no writeup
    has, [writeups_delete] and [EditWriteup.post] leave the store as it
    was and log nothing; a request that passed [requires] is answered
    404 or 400. *)
Theorem strangers_change_nothing
        (validate : WriteupForm -> bool) (validation_errors : WriteupForm -> list string)
        (update_auto : Writeup -> Z -> string -> list string -> string -> bool -> Writeup)
        (url_for : string -> string -> string)
        (scopes : list string) (u : user) (i : Z) (form : WriteupForm) (st : Store) :
  (forall w n d adm,
      find (fun w => (id w =? i)%Z) (writeups st) = Some w -> u = User n d adm ->
      adm = false /\ d <> author_id w) ->
  let deleted := writeups_delete url_for scopes u i st in
  let edited := edit_post validate validation_errors update_auto url_for scopes u i form st in
  snd (fst deleted) = st /\ snd deleted = [] /\
  snd (fst edited) = st /\ snd edited = [] /\
  (In "authenticated" scopes ->
   (fst (fst deleted) = NotFound \/ fst (fst deleted) = Aborted 400) /\
   fst (fst edited) = fst (fst deleted)).
Proof.
  intros Hstranger. unfold writeups_delete, edit_post.
  destruct (negb (str_in "authenticated" scopes)) eqn:Es.
  - cbn [fst snd]. do 4 (split; [reflexivity |]).
    intros Hin. apply authenticated_scope in Hin. congruence.
  - destruct (find (fun w => (id w =? i)%Z) (writeups st)) as [w|] eqn:Ef.
    + assert (Hno : can_edit u (Some (author_id w)) = false).
      { destruct (can_edit u (Some (author_id w))) eqn:Ec; [| reflexivity].
        apply can_edit_iff in Ec as (n & d & adm & -> & Hor).
        destruct (Hstranger w n d adm eq_refl eq_refl) as [-> Hne].
        destruct Hor; [discriminate | contradiction]. }
      rewrite Hno. cbn [negb fst snd]. repeat split; auto.
    + cbn [fst snd]. repeat split; auto.
Qed.

(** X23. A delete by the author or an admin removes that writeup and
    nothing else: the reply is the redirect to the index, one line goes
    to the content log with the title and the user's name, the store
    keeps exactly the writeups of other ids, and the id is gone, so
    deleting or editing it again is answered 404. *)
Theorem delete_removes_that_writeup
        (validate : WriteupForm -> bool) (validation_errors : WriteupForm -> list string)
        (update_auto : Writeup -> Z -> string -> list string -> string -> bool -> Writeup)
        (url_for : string -> string -> string)
        (scopes : list string) (n : string) (d : Z) (adm : bool) (i : Z)
        (st : Store) (w : Writeup) :
  In "authenticated" scopes ->
  find (fun w => (id w =? i)%Z) (writeups st) = Some w ->
  adm = true \/ d = author_id w ->
  let deleted := writeups_delete url_for scopes (User n d adm) i st in
  let st' := snd (fst deleted) in
  fst (fst deleted) = Answer (Redirect (url_for "writeups_index" "")) /\
  snd deleted = [LogDelete "writeup" (title w) n] /\
  (forall x, In x (writeups st') <-> In x (writeups st) /\ id x <> i) /\
  writeups_delete url_for scopes (User n d adm) i st' = (NotFound, st', []) /\
  (forall form,
      edit_post validate validation_errors update_auto url_for scopes (User n d adm) i form st'
      = (NotFound, st', [])).
Proof.
  intros Hscope Hfind Hmay.
  assert (Hcan : can_edit (User n d adm) (Some (author_id w)) = true).
  { apply can_edit_iff. now exists n, d, adm. }
  destruct (find_id _ _ _ Hfind) as [Hid _].
  unfold writeups_delete at 1 2. rewrite (authenticated_scope _ Hscope), Hfind, Hcan.
  cbn [negb fst snd username_of]. rewrite Hid.
  split; [reflexivity |]. split; [reflexivity |]. split.
  - intros x. cbn [writeups]. rewrite filter_In, negb_true_iff, Z.eqb_neq. reflexivity.
  - unfold writeups_delete, edit_post. rewrite (authenticated_scope _ Hscope).
    cbn [writeups]. rewrite find_after_delete. split; [reflexivity | intros; reflexivity].
Qed.

(** X24. The pages that list or show writeups fail on the first writeup
    they find, for every request.  They read [request.user.is_authed]
    once per row, and no user that [authenticate] produces has that
    attribute: a listing (index, tag or user page) is rendered only when
    its query returns no row, [writeups_view] answers only an unknown
    slug (404), and every other call raises [AttributeError].  So no
    writeup, private or not, is ever rendered. *)
Theorem pages_raise_on_a_found_writeup
        (decode : string -> option (string * Z * bool)) (req : Request)
        (summarize highlight_markdown : string -> string)
        (found : list Writeup) (tag s : string) (st : Store) :
  let u := auth_user (authenticate decode req) in
  (rendered_list summarize u found = Ok [] <-> found = []) /\
  (found <> [] -> rendered_list summarize u found = Raise (AttributeError "is_authed")) /\
  (writeups_by_tag summarize u tag found = Ok [] <->
   forall w, In w found -> ~ In tag (tags w)) /\
  (forall w, In w found -> In tag (tags w) ->
             writeups_by_tag summarize u tag found = Raise (AttributeError "is_authed")) /\
  ((forall w, In w (writeups st) -> slug w <> s) ->
   writeups_view highlight_markdown u s st = Ok (Abort 404 "Writeup not found")) /\
  (forall w, In w (writeups st) -> slug w = s ->
             writeups_view highlight_markdown u s st = Raise (AttributeError "is_authed")) /\
  (forall r, rendered_list summarize u found = Ok r -> r = []) /\
  (forall w txt, writeups_view highlight_markdown u s st <> Ok (View w txt)).
Proof.
  intros u.
  assert (Hattr : is_authed u = Raise (AttributeError "is_authed")) by now destruct u.
  assert (Hlist : forall l, rendered_list summarize u l =
                            match l with
                            | [] => Ok []
                            | _ :: _ => Raise (AttributeError "is_authed")
                            end).
  { intros [|w l]; cbn [rendered_list]; [reflexivity | now rewrite Hattr]. }
  assert (Htag : forall l : list Writeup,
             filter (fun w => str_in tag (tags w)) l = [] <->
             forall w, In w l -> ~ In tag (tags w)).
  { intros l. induction l as [|x l IH]; cbn [filter].
    - split; [intros _ w [] | reflexivity].
    - destruct (str_in tag (tags x)) eqn:E.
      + split; [discriminate |]. intros H. exfalso.
        apply (H x (or_introl eq_refl)). now apply InfraFacts.str_in_iff.
      + rewrite IH. split.
        * intros H w [<- | Hin]; [| now apply H].
          intros Hin. apply InfraFacts.str_in_iff in Hin. congruence.
        * intros H w Hin. apply H. now right. }
  assert (Hview : writeups_view highlight_markdown u s st =
                  match find (fun w => String.eqb (slug w) s) (writeups st) with
                  | None => Ok (Abort 404 "Writeup not found")
                  | Some _ => Raise (AttributeError "is_authed")
                  end).
  { unfold writeups_view.
    destruct (find (fun w => String.eqb (slug w) s) (writeups st)); [| reflexivity].
    now rewrite Hattr. }
  split; [| split; [| split; [| split; [| split; [| split; [| split]]]]]].
  - rewrite Hlist. destruct found; split; congruence.
  - rewrite Hlist. destruct found; [congruence | reflexivity].
  - unfold writeups_by_tag. rewrite Hlist, <- Htag.
    destruct (filter (fun w => str_in tag (tags w)) found); split; congruence.
  - intros w Hin Htagged. unfold writeups_by_tag. rewrite Hlist.
    destruct (filter (fun w => str_in tag (tags w)) found) eqn:E; [| reflexivity].
    exfalso. apply (proj1 (Htag found) E w Hin Htagged).
  - intros Hnone. rewrite Hview.
    destruct (find (fun w => String.eqb (slug w) s) (writeups st)) as [w|] eqn:E;
      [| reflexivity].
    apply find_some in E as [Hin Hs]. apply String.eqb_eq in Hs.
    exfalso. exact (Hnone w Hin Hs).
  - intros w Hin Hs. rewrite Hview.
    destruct (find (fun w => String.eqb (slug w) s) (writeups st)) as [w'|] eqn:E;
      [reflexivity |].
    exfalso. apply (find_none _ _ E) in Hin. rewrite Hs, String.eqb_refl in Hin.
    discriminate.
  - intros r. rewrite Hlist. destruct found; congruence.
  - intros w txt. rewrite Hview.
    destruct (find (fun w => String.eqb (slug w) s) (writeups st)); discriminate.
Qed.

(** X25. Sending the same new writeup twice creates it once.  When the
    form is valid, its title is free and [create_auto] stores the title
    it is given, the first [NewWriteup.post] adds one writeup, logs it
    and redirects to it; the second, on the store the first one left,
    adds nothing and gives the form back with the error on its title. *)
Theorem posting_twice_creates_once
        (validate : WriteupForm -> bool) (validation_errors : WriteupForm -> list string)
        (create_auto : Z -> Z -> string -> list string -> string -> bool -> Writeup)
        (url_for : string -> string -> string)
        (user_id : Z) (username : string) (form : WriteupForm) (st : Store) :
  (forall i a t tg c p, title (create_auto i a t tg c p) = t) ->
  validate form = true ->
  (forall x, In x (writeups st) -> title x <> f_title form) ->
  let w := create_auto (seq st) user_id (f_title form) (f_tags form)
                       (f_content form) (f_private form) in
  let once := post validate validation_errors create_auto url_for
                   true user_id username form st in
  fst once = Redirect (url_for "writeups_view" (slug w)) /\
  writeups (snd once) = writeups st ++ [w] /\
  content_log (snd once) =
    content_log st ++ [LogCreate "writeup" (f_title form) username
                                 (url_for "writeups_view" (slug w))] /\
  post validate validation_errors create_auto url_for true user_id username form (snd once) =
    (Template "writeups/new.j2" form
       (validation_errors form ++
        [("A writeup with the title '" ++ f_title form ++ "' already exists.")%string]),
     snd once).
Proof.
  intros Htitle Hvalid Hfree w once.
  assert (Hnone : existsb (fun x => String.eqb (title x) (f_title form)) (writeups st) = false).
  { destruct (existsb _ (writeups st)) eqn:E; [| reflexivity].
    apply existsb_exists in E as (x & Hin & Hx). apply String.eqb_eq in Hx.
    now apply Hfree in Hin. }
  assert (Honce : once =
    (Redirect (url_for "writeups_view" (slug w)),
     {| writeups := writeups st ++ [w]; seq := (seq st + 1)%Z;
        content_log := content_log st ++
          [LogCreate "writeup" (title w) username (url_for "writeups_view" (slug w))] |})).
  { unfold once, post. cbn [negb]. rewrite Hnone, Hvalid. reflexivity. }
  rewrite Honce. cbn [fst snd writeups content_log].
  split; [reflexivity |]. split; [reflexivity |].
  split; [unfold w at 1; now rewrite Htitle |].
  unfold post. cbn [negb writeups].
  assert (Hw : String.eqb (title w) (f_title form) = true).
  { unfold w. rewrite Htitle. apply String.eqb_refl. }
  rewrite existsb_app. cbn [existsb]. rewrite Hw. cbn [orb]. rewrite orb_true_r.
  reflexivity.
Qed.

Lemma edit_post_done
      (validate : WriteupForm -> bool) (validation_errors : WriteupForm -> list string)
      (update_auto : Writeup -> Z -> string -> list string -> string -> bool -> Writeup)
      (url_for : string -> string -> string)
      (scopes : list string) (n : string) (d : Z) (adm : bool) (i : Z)
      (form : WriteupForm) (st : Store) (w : Writeup) :
  In "authenticated" scopes ->
  find (fun w => (id w =? i)%Z) (writeups st) = Some w ->
  adm = true \/ d = author_id w ->
  validate form = true ->
  let w' := update_auto w d (f_title form) (f_tags form) (f_content form) (f_private form) in
  edit_post validate validation_errors update_auto url_for scopes (User n d adm) i form st =
  (Answer (Redirect (url_for "writeups_view" (slug w'))),
   {| writeups := map (fun x => if (id x =? i)%Z then w' else x) (writeups st);
      seq := seq st; content_log := content_log st |},
   [LogEdit "writeup" (title w') n (url_for "writeups_view" (slug w'))]).
Proof.
  intros Hscope Hfind Hmay Hvalid w'.
  assert (Hcan : can_edit (User n d adm) (Some (author_id w)) = true).
  { apply can_edit_iff. now exists n, d, adm. }
  destruct (find_id _ _ _ Hfind) as [Hid _].
  unfold edit_post. rewrite (authenticated_scope _ Hscope), Hfind, Hcan, Hvalid.
  cbn [negb username_of discord_id_of]. rewrite Hid. reflexivity.
Qed.

(** X26. An edit by the author or an admin rewrites that writeup and
    nothing else.  With a valid form, and [update_auto] keeping the id,
    the reply redirects to the new slug, one line is logged, the id now
    finds the updated writeup, and the ids and every writeup of another
    id are as before; with a form that does not validate the store is
    untouched and the form comes back with its errors. *)
Theorem edit_rewrites_one_writeup
        (validate : WriteupForm -> bool) (validation_errors : WriteupForm -> list string)
        (update_auto : Writeup -> Z -> string -> list string -> string -> bool -> Writeup)
        (url_for : string -> string -> string)
        (scopes : list string) (n : string) (d : Z) (adm : bool) (i : Z)
        (form : WriteupForm) (st : Store) (w : Writeup) :
  (forall x a t tg c p, id (update_auto x a t tg c p) = id x) ->
  In "authenticated" scopes ->
  find (fun w => (id w =? i)%Z) (writeups st) = Some w ->
  adm = true \/ d = author_id w ->
  let edited := edit_post validate validation_errors update_auto url_for
                          scopes (User n d adm) i form st in
  let w' := update_auto w d (f_title form) (f_tags form) (f_content form) (f_private form) in
  (validate form = true ->
   fst (fst edited) = Answer (Redirect (url_for "writeups_view" (slug w'))) /\
   snd edited = [LogEdit "writeup" (title w') n (url_for "writeups_view" (slug w'))] /\
   find (fun w => (id w =? i)%Z) (writeups (snd (fst edited))) = Some w' /\
   map id (writeups (snd (fst edited))) = map id (writeups st) /\
   (forall x, id x <> i -> (In x (writeups (snd (fst edited))) <-> In x (writeups st)))) /\
  (validate form = false ->
   edited = (Answer (Template "writeups/edit.j2" form (validation_errors form)), st, [])).
Proof.
  intros Hkeep Hscope Hfind Hmay edited w'.
  destruct (find_id _ _ _ Hfind) as [Hid _].
  assert (Hid' : id w' = i) by (unfold w'; now rewrite Hkeep).
  split.
  - intros Hvalid. unfold edited.
    rewrite (edit_post_done _ _ _ _ _ _ _ _ _ _ _ _ Hscope Hfind Hmay Hvalid).
    cbn [fst snd writeups]. fold w'.
    split; [reflexivity |]. split; [reflexivity |].
    split; [exact (find_after_edit _ _ _ _ Hfind Hid') |]. split.
    + rewrite map_map. apply map_ext_in. intros x _.
      destruct (id x =? i)%Z eqn:E; [| reflexivity].
      apply Z.eqb_eq in E. congruence.
    + intros x Hx. rewrite in_map_iff. split.
      * intros (y & Hy & Hin). destruct (id y =? i)%Z; [congruence | now subst].
      * intros Hin. exists x. split; [| assumption].
        apply Z.eqb_neq in Hx. now rewrite Hx.
  - intros Hinvalid. unfold edited, edit_post.
    assert (Hcan : can_edit (User n d adm) (Some (author_id w)) = true).
    { apply can_edit_iff. now exists n, d, adm. }
    rewrite (authenticated_scope _ Hscope), Hfind, Hcan, Hinvalid. reflexivity.
Qed.

(** X27. An edit hands the writeup to the editor.  [EditWriteup.post]
    passes the editor's id as the author to [update_auto]; when that is
    stored, anyone else who is not an admin, the former author of a
    writeup that an admin edited included, is answered 400 by the next
    edit or delete, and the editor may still do both. *)
Theorem edit_hands_the_writeup_to_the_editor
        (validate : WriteupForm -> bool) (validation_errors : WriteupForm -> list string)
        (update_auto : Writeup -> Z -> string -> list string -> string -> bool -> Writeup)
        (url_for : string -> string -> string)
        (scopes : list string) (n : string) (d : Z) (adm : bool) (i : Z)
        (form : WriteupForm) (st : Store) (w : Writeup) :
  (forall x a t tg c p, id (update_auto x a t tg c p) = id x /\
                        author_id (update_auto x a t tg c p) = a) ->
  In "authenticated" scopes ->
  find (fun w => (id w =? i)%Z) (writeups st) = Some w ->
  adm = true \/ d = author_id w ->
  validate form = true ->
  let st' := snd (fst (edit_post validate validation_errors update_auto url_for
                                 scopes (User n d adm) i form st)) in
  (forall scopes0 n0 d0 form0,
      In "authenticated" scopes0 -> d0 <> d ->
      writeups_delete url_for scopes0 (User n0 d0 false) i st' = (Aborted 400, st', []) /\
      edit_post validate validation_errors update_auto url_for
                scopes0 (User n0 d0 false) i form0 st' = (Aborted 400, st', [])) /\
  (forall n1, fst (fst (writeups_delete url_for scopes (User n1 d false) i st')) =
              Answer (Redirect (url_for "writeups_index" ""))).
Proof.
  intros Hupd Hscope Hfind Hmay Hvalid st'.
  destruct (find_id _ _ _ Hfind) as [Hid _].
  set (w' := update_auto w d (f_title form) (f_tags form) (f_content form) (f_private form)).
  assert (Hid' : id w' = i) by (unfold w'; now rewrite (proj1 (Hupd _ _ _ _ _ _))).
  assert (Hauthor : author_id w' = d) by (unfold w'; apply Hupd).
  assert (Hfind' : find (fun w => (id w =? i)%Z) (writeups st') = Some w').
  { unfold st'. rewrite (edit_post_done _ _ _ _ _ _ _ _ _ _ _ _ Hscope Hfind Hmay Hvalid).
    cbn [fst snd writeups]. exact (find_after_edit _ _ _ _ Hfind Hid'). }
  split.
  - intros scopes0 n0 d0 form0 Hscope0 Hne.
    unfold writeups_delete, edit_post.
    rewrite (authenticated_scope _ Hscope0), Hfind'. cbn [can_edit orb]. rewrite Hauthor.
    assert ((d =? d0)%Z = false) as -> by (apply Z.eqb_neq; congruence).
    split; reflexivity.
  - intros n1. unfold writeups_delete.
    rewrite (authenticated_scope _ Hscope), Hfind'. cbn [can_edit orb].
    rewrite Hauthor, Z.eqb_refl. reflexivity.
Qed.

End SiteFacts.

(* ------------------------------------------------------------------ *)
(** ** More of the theorems at work on the sample data *)

Module WorkedMore.
Import Infra InfraFacts Samples.

Lemma generate_invite_at_most_four_witness :
  fst (Invite.generate_invite 6 always_503 "n1") <> Invite.Running /\
  (1 <= Invite.attempts (snd (Invite.generate_invite 6 always_503 "n1")) <= 4)%nat /\
  exists rest,
    [1 # 10; 2 # 10; 3 # 10]%Q =
    Invite.delays (snd (Invite.generate_invite 6 always_503 "n1")) ++ rest.
Proof.
  apply (InviteMore.generate_invite_at_most_four always_503 "n1" 6). lia.
Defined.

Lemma generate_invite_first_success_witness :
  fst (Invite.generate_invite 5 second_time "n1") = Invite.Returned "c0de" /\
  Invite.attempts (snd (Invite.generate_invite 5 second_time "n1")) = 2%nat /\
  Invite.delays (snd (Invite.generate_invite 5 second_time "n1")) = [1 # 10]%Q.
Proof.
  apply (InviteMore.generate_invite_first_success second_time "n1" "c0de" 2 5).
  - lia.
  - lia.
  - intros n Hn. assert (n = 1)%nat as -> by lia. eexists. vm_compute. reflexivity.
  - vm_compute. reflexivity.
Defined.


Lemma refreshed_list_lives_sixty_seconds_witness :
  let w1 := snd (target_devices (serving fleet)) in
  fst (target_devices (with_api (NoReply "down") (later 59 w1))) =
    Ok [lab1; lab1_twin; web2] /\
  fetches (snd (target_devices (with_api (NoReply "down") (later 59 w1)))) = 1%nat /\
  fetches (snd (target_devices (with_api (NoReply "down") (later 61 w1)))) = 2%nat.
Proof.
  destruct (InfraMore.refreshed_list_lives_sixty_seconds (serving fleet) fleet)
    as [Hlive Hgone]; try reflexivity.
  intros w1.
  destruct (Hlive 59 (NoReply "down")) as [Hr Hf]; [vm_compute; discriminate | reflexivity |].
  destruct (Hgone 61 (NoReply "down")) as [_ Hf2]; [reflexivity |].
  split; [exact Hr |]. split; [exact Hf | exact Hf2].
Defined.

Lemma clear_cache_spares_search_results_witness :
  let w' := snd (clear_cache searched) in
  fst (clear_cache searched) = Ok tt /\
  out w' = out searched ++ [SendMessage "Cleared"] /\
  fetches (snd (target_devices w')) = S (fetches searched) /\
  fst (target_devices_descriptions exact_scorer None w') =
    Ok [("first lab", lab1); ("first lab", lab1_twin); ("", web2)] /\
  fetches (snd (target_devices_descriptions exact_scorer None w')) = fetches searched.
Proof.
  apply (InfraMore.clear_cache_spares_search_results exact_scorer searched None
           [("first lab", lab1); ("first lab", lab1_twin); ("", web2)]
           (snd (TTLCache.getitem query_eqb (clock searched) None
                   (descriptions_cache searched)))).
  vm_compute. reflexivity.
Defined.

Lemma join_gives_up_without_invite_witness :
  join issue "alice" 78 (serving fleet) =
    (Ok tt, with_out [Defer; FollowupSend
                        "This machine info card is borked, complain to ben" None]
                     (serving fleet)) /\
  fst (join issue "alice" 77 (serving [bare])) = Raise IndexError.
Proof.
  split.
  - destruct (InfraMore.join_gives_up_without_invite issue "alice" 78 (serving fleet))
      as [Hnone _].
    apply Hnone. reflexivity.
  - destruct (InfraMore.join_gives_up_without_invite issue "alice" 77 (serving [bare]))
      as [_ Hsome].
    destruct (Hsome {| discord_message_id := 77; machine_hostname := "lab1" |} [bare]
                (snd (target_devices (with_out (out (serving [bare]) ++ [Defer])
                                               (serving [bare]))))
                eq_refl) as [_ Hbare]; [vm_compute; reflexivity |].
    rewrite (Hbare bare eq_refl eq_refl). reflexivity.
Defined.

Lemma join_server_by_exact_name_witness :
  join_server issue "alice" "lab" (serving fleet) =
    (Ok tt, with_out [SendMessage "I don't know that device"]
                     (snd (target_devices (serving fleet)))) /\
  out (snd (join_server issue "alice" "web2" (serving fleet))) =
    [Defer;
     LogInfo "alice requested access to node web2";
     BotLog "alice requested access to node web2";
     FollowupSend "This lab is located on `100.64.0.1`"
       (Some "https://login.tailscale.com/admin/invite/code-id-web2")].
Proof.
  split.
  - destruct (InfraMore.join_server_by_exact_name issue "alice" "lab" (serving fleet)
                (snd (target_devices (serving fleet))) [lab1; lab1_twin; web2])
      as [Hunknown _]; [vm_compute; reflexivity |].
    apply Hunknown. intros dev [<- | [<- | [<- | []]]]; discriminate.
  - destruct (InfraMore.join_server_by_exact_name issue "alice" "web2" (serving fleet)
                (snd (target_devices (serving fleet))) [lab1; lab1_twin; web2])
      as [_ Hknown]; [vm_compute; reflexivity |].
    destruct (Hknown web2 eq_refl) as (_ & _ & Hrun & _).
    rewrite Hrun. vm_compute. reflexivity.
Defined.

Lemma display_then_join_witness :
  let w2 := snd (display_server card "web2" 99 (serving fleet)) in
  fst (display_server card "web2" 99 (serving fleet)) = Ok tt /\
  out w2 = [SendMessage "**Machine:** `web2` **IP:** `100.64.0.1`"] /\
  displays w2 = [{| discord_message_id := 77; machine_hostname := "lab1" |};
                 {| discord_message_id := 99; machine_hostname := "web2" |}] /\
  out (snd (join issue "bob" 99 w2)) =
    [SendMessage "**Machine:** `web2` **IP:** `100.64.0.1`";
     Defer;
     LogInfo "bob requested access to node web2";
     BotLog "bob requested access to node web2";
     FollowupSend "This lab is located on `100.64.0.1`"
       (Some "https://login.tailscale.com/admin/invite/code-id-web2")].
Proof.
  intros w2.
  destruct (InfraMore.display_then_join issue card "bob" "web2" "100.64.0.1" [] 99
              (serving fleet) (snd (target_devices (serving fleet)))
              [lab1; lab1_twin; web2] web2)
    as (Hok & Hout & Hrows & Hjoin); try (vm_compute; reflexivity).
  split; [exact Hok |]. split; [exact Hout |]. split; [exact Hrows |].
  unfold w2.
  rewrite (Hjoin (snd (target_devices
                         (with_out (out (snd (display_server card "web2" 99 (serving fleet)))
                                    ++ [Defer])
                                   (snd (display_server card "web2" 99 (serving fleet))))))).
  - vm_compute. reflexivity.
  - vm_compute. reflexivity.
  - reflexivity.
Defined.

Lemma description_after_undescribe_witness :
  let gone := snd (undescribe_server content_limit "lab1" searched) in
  let kept := snd (undescribe_server (fun _ => Some (HTTPException 404)) "lab1" searched) in
  fst (target_devices_descriptions exact_scorer None searched) =
    Ok [("first lab", lab1); ("first lab", lab1_twin); ("", web2)] /\
  fst (undescribe_server content_limit "lab1" searched) = Ok tt /\
  stored "lab1" (machines gone) = None /\
  fst (target_devices_descriptions exact_scorer None gone) =
    Ok [("practice box", lab1); ("practice box", lab1_twin); ("", web2)] /\
  fst (undescribe_server (fun _ => Some (HTTPException 404)) "lab1" searched) =
    Raise (HTTPException 404) /\
  stored "lab1" (machines kept) = None /\
  fst (target_devices_descriptions exact_scorer None kept) =
    Ok [("first lab", lab1); ("first lab", lab1_twin); ("", web2)].
Proof.
  intros gone kept.
  destruct (InfraMore.description_after_undescribe exact_scorer content_limit searched "lab1")
    as (Hgone & _ & Hsent & _).
  destruct (Hsent eq_refl) as [Hok _].
  destruct (InfraMore.description_after_undescribe exact_scorer
              (fun _ => Some (HTTPException 404)) searched "lab1")
    as (Hkept & _ & _ & Hrefused).
  destruct (Hrefused (HTTPException 404)
              [("first lab", lab1); ("first lab", lab1_twin); ("", web2)]
              (snd (TTLCache.getitem query_eqb (clock searched) None
                      (descriptions_cache searched))))
    as [Hraise Hstale]; [reflexivity | vm_compute; reflexivity |].
  split; [vm_compute; reflexivity |].
  split; [exact Hok |].
  split; [exact Hgone |].
  split; [vm_compute; reflexivity |].
  split; [exact Hraise |].
  split; [exact Hkept |].
  unfold kept. now rewrite Hstale.
Defined.

Lemma describe_then_undescribe_restores_witness :
  machines (snd (undescribe_server content_limit "web2"
                   (snd (describe_server content_limit "web2" "a web box"
                           (serving fleet))))) =
  machines (serving fleet).
Proof.
  apply (InfraMore.describe_then_undescribe_restores content_limit (serving fleet)
           "web2" "a web box").
  reflexivity.
Defined.

Lemma describe_keeps_one_row_per_hostname_witness :
  NoDup (map m_hostname (machines (snd (describe_server content_limit "web2" essay
                                          (serving fleet))))) /\
  NoDup (map m_hostname (machines (snd (undescribe_server content_limit "web2"
                                          (serving fleet))))) /\
  machines (snd (describe_server content_limit "web2" "two"
                   (snd (describe_server content_limit "web2" essay (serving fleet))))) =
  machines (snd (describe_server content_limit "web2" "two" (serving fleet))).
Proof.
  apply (InfraMore.describe_keeps_one_row_per_hostname content_limit (serving fleet)
           "web2" essay "two").
  cbn. repeat constructor; cbn; intuition discriminate.
Defined.

Lemma autocomplete_choices_witness :
  fst (machine_autocomplete prefix_scorer "lab1" (serving fleet)) =
    Ok [("first lab (lab1)", "lab1"); ("first lab (lab1-1)", "lab1-1")] /\
  fst (machine_autocomplete prefix_scorer "" (serving fleet)) =
    Ok [("first lab (lab1)", "lab1"); ("first lab (lab1-1)", "lab1-1"); ("web2", "web2")] /\
  exists cs,
    fst (machine_autocomplete prefix_scorer "" (serving fleet)) = Ok cs /\
    map snd cs = map name [lab1; lab1_twin; web2].
Proof.
  split; [vm_compute; reflexivity |]. split; [vm_compute; reflexivity |].
  destruct (AutocompleteFacts.autocomplete_choices prefix_scorer (serving fleet)
              (snd (target_devices (serving fleet))) "" [lab1; lab1_twin; web2]
              eq_refl eq_refl) as (cs & Hrun & Hall & _).
  exists cs. split; [exact Hrun | now apply Hall].
Defined.


Lemma commands_touch_only_their_todo_witness :
  (Todos.get 1 (Todos.exec backlog (Todos.Assign 2 9)) = Todos.get 1 backlog /\
   map Todos.id (Todos.rows (Todos.exec backlog (Todos.Assign 2 9))) =
   map Todos.id (Todos.rows backlog)) /\
  exists t, Todos.rows (Todos.exec backlog (Todos.New None None "tidy up" 500)) =
            Todos.rows backlog ++ [t] /\
            Todos.id t = Todos.seq backlog /\
            Todos.completed t = None /\ Todos.cancelled t = false.
Proof.
  split.
  - destruct (TodoMore.commands_touch_only_their_todo backlog (Todos.Assign 2 9))
      as [Hone _].
    apply (Hone 2%Z 1%Z); [reflexivity | discriminate].
  - destruct (TodoMore.commands_touch_only_their_todo backlog
                (Todos.New None None "tidy up" 500)) as [_ Hnew].
    apply Hnew. reflexivity.
Defined.

Lemma completing_a_cancelled_todo_keeps_it_cancelled_witness :
  let t' := {| Todos.id := 2; Todos.assigned := Some 7%Z; Todos.started := 110;
               Todos.completed := Some 400%Z; Todos.cancelled := true;
               Todos.deadline := None; Todos.content := "patch lab1" |} in
  let tbl' := snd (Todos.todo_mark_complete 2 400 cancelled_backlog) in
  fst (Todos.todo_mark_complete 2 400 cancelled_backlog) = Ok t' /\
  Todos.get 2 tbl' = Some t' /\
  In t' (Todos.todo_list_cancelled None tbl') /\
  (forall x, In x (Todos.todo_list_completed None tbl') -> Todos.id x <> 2%Z).
Proof.
  destruct (TodoMore.completing_a_cancelled_todo_keeps_it_cancelled
              cancelled_backlog 2 400
              {| Todos.id := 2; Todos.assigned := Some 7%Z; Todos.started := 110;
                 Todos.completed := Some 300%Z; Todos.cancelled := true;
                 Todos.deadline := None; Todos.content := "patch lab1" |})
    as [Hcomplete _].
  - cbn. repeat constructor; cbn; intuition discriminate.
  - reflexivity.
  - apply Hcomplete. reflexivity.
Defined.

Lemma listings_are_newest_first_witness :
  Todos.newest_first (Todos.todo_list_inner Todos.completed_p None cancelled_backlog) /\
  forall t, In t (Todos.todo_list_inner Todos.completed_p None cancelled_backlog) <->
            In t (Todos.rows cancelled_backlog) /\ Todos.completed_p t = true /\ True.
Proof.
  apply (TodoMore.listings_are_newest_first Todos.completed_p None cancelled_backlog).
  cbn. repeat constructor; cbn; intuition discriminate.
Defined.

Lemma rendered_status_matches_listing_witness :
  let t := {| Todos.id := 1; Todos.assigned := None; Todos.started := 100;
              Todos.completed := Some 200%Z; Todos.cancelled := false;
              Todos.deadline := None; Todos.content := "rotate the keys" |} in
  (In t (Todos.todo_list None backlog) <->
   Todos.render_status t = Todos.InProgress (Todos.deadline t)) /\
  (In t (Todos.todo_list_completed None backlog) <->
   exists c, Todos.completed t = Some c /\ Todos.render_status t = Todos.Completed c) /\
  (In t (Todos.todo_list_cancelled None backlog) <->
   exists c, Todos.completed t = Some c /\ Todos.render_status t = Todos.Cancelled c).
Proof.
  intros t. apply (TodoMore.rendered_status_matches_listing backlog t).
  left. reflexivity.
Defined.

Lemma strangers_change_nothing_witness :
  let deleted := Writeups.writeups_delete routes ["authenticated"] mallory 1 shelf in
  let edited := Writeups.edit_post (fun _ => true) (fun _ => []) rewritten routes
                                   ["authenticated"] mallory 1 new_title shelf in
  snd (fst deleted) = shelf /\ snd deleted = [] /\
  snd (fst edited) = shelf /\ snd edited = [] /\
  (In "authenticated" ["authenticated"] ->
   (fst (fst deleted) = Writeups.NotFound \/ fst (fst deleted) = Writeups.Aborted 400) /\
   fst (fst edited) = fst (fst deleted)).
Proof.
  apply (SiteFacts.strangers_change_nothing (fun _ => true) (fun _ => []) rewritten routes
           ["authenticated"] mallory 1 new_title shelf).
  intros w n d adm [= <-] [= <- <- <-]. split; [reflexivity | discriminate].
Defined.

Lemma delete_removes_that_writeup_witness :
  let deleted := Writeups.writeups_delete routes ["authenticated"] ann 1 library in
  fst (fst deleted) = Writeups.Answer (Writeups.Redirect "writeups_index/") /\
  snd deleted = [Writeups.LogDelete "writeup" "Heap tricks" "ann"] /\
  Writeups.writeups (snd (fst deleted)) = [private_post] /\
  Writeups.writeups_delete routes ["authenticated"] ann 1 (snd (fst deleted)) =
    (Writeups.NotFound, snd (fst deleted), []).
Proof.
  intros deleted.
  destruct (SiteFacts.delete_removes_that_writeup (fun _ => true) (fun _ => []) rewritten
              routes ["authenticated"] "ann" 42 false 1 library first_post)
    as (Hreply & Hlog & _ & Hagain & _).
  - left. reflexivity.
  - reflexivity.
  - right. reflexivity.
  - split; [exact Hreply |]. split; [exact Hlog |]. split; [reflexivity | exact Hagain].
Defined.

Lemma pages_raise_on_a_found_writeup_witness :
  let reader := {| Authorization.query_token := Some "tok-ann";
                   Authorization.session_token := None |} in
  let u := Authorization.auth_user (Authorization.authenticate tokens reader) in
  u = ann /\
  Writeups.rendered_list (fun s => s) u (Writeups.writeups library) =
    Raise (AttributeError "is_authed") /\
  Writeups.writeups_by_tag (fun s => s) u "web" (Writeups.writeups library) = Ok [] /\
  Writeups.writeups_view (fun s => s) u "heap-tricks" library =
    Raise (AttributeError "is_authed") /\
  Writeups.writeups_view (fun s => s) u "no-such-slug" library =
    Ok (Writeups.Abort 404 "Writeup not found").
Proof.
  intros reader u.
  destruct (SiteFacts.pages_raise_on_a_found_writeup tokens reader (fun s => s) (fun s => s)
              (Writeups.writeups library) "web" "heap-tricks" library)
    as (_ & Hlist & Htag & _ & _ & Hview & _).
  destruct (SiteFacts.pages_raise_on_a_found_writeup tokens reader (fun s => s) (fun s => s)
              (Writeups.writeups library) "web" "no-such-slug" library)
    as (_ & _ & _ & _ & Hunknown & _).
  split; [reflexivity |].
  split; [apply Hlist; discriminate |].
  split.
  - apply Htag. intros w [<- | [<- | []]] [H | []]; discriminate H.
  - split.
    + apply (Hview first_post); [now left | reflexivity].
    + apply Hunknown. intros w [<- | [<- | []]]; discriminate.
Defined.

Lemma posting_twice_creates_once_witness :
  let w := slugged 2 42 "Stack tricks" ["pwn"] "more" false in
  let once := Writeups.post (fun _ => true) (fun _ => []) slugged routes
                            true 42 "ann" new_title shelf in
  fst once = Writeups.Redirect "writeups_view/Stack tricks" /\
  Writeups.writeups (snd once) = [first_post; w] /\
  Writeups.content_log (snd once) =
    [Writeups.LogCreate "writeup" "Stack tricks" "ann" "writeups_view/Stack tricks"] /\
  Writeups.post (fun _ => true) (fun _ => []) slugged routes true 42 "ann" new_title (snd once) =
    (Writeups.Template "writeups/new.j2" new_title
       ["A writeup with the title 'Stack tricks' already exists."],
     snd once).
Proof.
  apply (SiteFacts.posting_twice_creates_once (fun _ => true) (fun _ => []) slugged routes
           42 "ann" new_title shelf).
  - reflexivity.
  - reflexivity.
  - intros x [<- | []]. discriminate.
Defined.

Lemma edit_rewrites_one_writeup_witness :
  let edited := Writeups.edit_post (fun _ => true) (fun _ => []) rewritten routes
                                   ["authenticated"] ann 1 new_title library in
  let w' := rewritten first_post 42 "Stack tricks" ["pwn"] "more" false in
  fst (fst edited) = Writeups.Answer (Writeups.Redirect "writeups_view/Stack tricks") /\
  snd edited = [Writeups.LogEdit "writeup" "Stack tricks" "ann" "writeups_view/Stack tricks"] /\
  Writeups.writeups (snd (fst edited)) = [w'; private_post].
Proof.
  intros edited w'.
  destruct (SiteFacts.edit_rewrites_one_writeup (fun _ => true) (fun _ => []) rewritten
              routes ["authenticated"] "ann" 42 false 1 new_title library first_post)
    as [Hvalid _].
  - reflexivity.
  - left. reflexivity.
  - reflexivity.
  - right. reflexivity.
  - destruct (Hvalid eq_refl) as (Hreply & Hlog & _).
    split; [exact Hreply |]. split; [exact Hlog | reflexivity].
Defined.

Lemma edit_hands_the_writeup_to_the_editor_witness :
  let st' := snd (fst (Writeups.edit_post (fun _ => true) (fun _ => []) rewritten routes
                         ["authenticated"; "admin"] (Authorization.User "root" 1 true)
                         1 new_title library)) in
  Writeups.writeups_delete routes ["authenticated"] ann 1 st' =
    (Writeups.Aborted 400, st', []) /\
  Writeups.edit_post (fun _ => true) (fun _ => []) rewritten routes
                     ["authenticated"] ann 1 same_title st' =
    (Writeups.Aborted 400, st', []).
Proof.
  intros st'.
  destruct (SiteFacts.edit_hands_the_writeup_to_the_editor
              (fun _ => true) (fun _ => []) rewritten routes
              ["authenticated"; "admin"] "root" 1 true 1 new_title library first_post)
    as [Hothers _].
  - intros x a t tg c p. split; reflexivity.
  - left. reflexivity.
  - reflexivity.
  - left. reflexivity.
  - reflexivity.
  - apply (Hothers ["authenticated"] "ann" 42%Z same_title); [now left | discriminate].
Defined.

End WorkedMore.
